(** * Transaction coordination core: acceptor state machine and
      transaction submitter.

    A shallow embedding of the acceptor of package [paxos] (the state
    machine and its 2B retransmitting sender) and of
    [client/simpletxnsubmitter.go] (the transaction submitter), with the
    properties of the coordination core proved about the embedded code.

    Conventions.
    - Go pointers to outcomes are addresses ([OutcomePtr]) into an explicit
      store; [==] on pointers is equality of addresses, a nil pointer is
      [None].
    - A Go panic (nil dereference, slice out of range, method call on a
      nil interface) is the result [None] of a step.
    - Calls to collaborators that live outside these files (disk,
      connection manager, logger, continuations) are recorded, in program
      order, in an effect list.
    - Collaborators whose code is elsewhere (ballot accumulator, outcome
      accumulator, consistent hashing, topology) are the members of a type
      class the embedded code is written against; the examples instantiate
      them with small stand-ins. *)

From stdpp Require Import gmap list sorting.

Abbreviation RMId := N (only parsing).
Abbreviation TxnId := N (only parsing).
Abbreviation VarUUId := N (only parsing).
Abbreviation OutcomePtr := N (only parsing).
Abbreviation Bytes := (list N) (only parsing).

(** ** Wire records (package [msgs]) *)

Module msgs.

Inductive Outcome_Which := OUTCOME_COMMIT | OUTCOME_ABORT.

(** The abort arm of an outcome: [resubmit] carries nothing, [rerun]
    carries the update payloads. *)
Inductive OutcomeAbort :=
| ABORT_RESUBMIT
| ABORT_RERUN (updates : list Bytes).

Inductive Outcome :=
| Commit (clock : Bytes)
| Abort (a : OutcomeAbort).

Definition Which (o : Outcome) : Outcome_Which :=
  match o with
  | Commit _ => OUTCOME_COMMIT
  | Abort _ => OUTCOME_ABORT
  end.

(** [outcome.Abort().SetResubmit()]: switches the abort arm to
    [resubmit], dropping the updates. *)
Definition SetResubmit (o : Outcome) : Outcome :=
  match o with
  | Commit c => Commit c
  | Abort _ => Abort ABORT_RESUBMIT
  end.

Definition updatesOf (o : Outcome) : list Bytes :=
  match o with
  | Abort (ABORT_RERUN us) => us
  | _ => []
  end.

Record Allocation := {
  RmId : RMId;
  ActionIndices : list Z;   (* UInt16List *)
  Active : N                (* uint32: 0 for passive, boot count for active *)
}.

Record VarIdPos := { RefId : VarUUId; RefPositions : option Bytes }.

Inductive ActionBody :=
| ARead (version : Bytes)
| AWrite (value : Bytes) (references : list VarIdPos)
| AReadwrite (version : Bytes) (value : Bytes) (references : list VarIdPos)
| ACreate (value : Bytes) (positions : Bytes) (references : list VarIdPos)
| ARoll (version : Bytes) (value : Bytes) (references : list VarIdPos).

Record Action := { ActVarId : VarUUId; ActBody : ActionBody }.

Inductive ClientActionBody :=
| CLIENTACTION_READ (version : Bytes)
| CLIENTACTION_WRITE (value : Bytes) (references : list VarUUId)
| CLIENTACTION_READWRITE (version : Bytes) (value : Bytes) (references : list VarUUId)
| CLIENTACTION_CREATE (value : Bytes) (references : list VarUUId)
| CLIENTACTION_ROLL (version : Bytes) (value : Bytes) (references : list VarUUId).

Record ClientAction := { CVarId : VarUUId; CBody : ClientActionBody }.

Record ClientTxn := {
  CId : TxnId;
  CRetry : bool;
  CActions : list ClientAction
}.

Record Txn := {
  Id : TxnId;
  Retry : bool;
  Submitter : RMId;
  SubmitterBootCount : N;
  Actions : list Action;
  Allocations : list Allocation;
  FInc : N;
  TopologyVersion : N
}.

(** Root messages.  A message is encoded to bytes once it is built; the
    encoding is kept abstract and a message stands for its bytes. *)
Inductive Message :=
| TxnSubmission (t : Txn)
| SubmissionOutcome (o : Outcome)
| TwoBTxnVotes (o : Outcome)
| TxnLocallyComplete (t : TxnId)
| TxnSubmissionComplete (t : TxnId)
| TxnSubmissionAbort (t : TxnId)
| TxnGloballyComplete (t : TxnId).

End msgs.

(** ** The acceptor (package [paxos]) *)

Module paxos.

Import msgs.

(** The four state components; [currentState] is a reference to one of
    them, or nil. *)
Inductive State :=
| acceptorReceiveBallots
| acceptorWriteToDisk
| acceptorAwaitLocallyComplete
| acceptorDeleteFromDisk.

#[global] Instance State_eq_dec : EqDecision State.
Proof. solve_decision. Defined.

#[global] Instance Outcome_Which_eq_dec : EqDecision Outcome_Which.
Proof. solve_decision. Defined.

#[global] Instance OutcomeAbort_eq_dec : EqDecision OutcomeAbort.
Proof. solve_decision. Defined.

#[global] Instance Outcome_eq_dec : EqDecision Outcome.
Proof. solve_decision. Defined.

Record twoBTxnVotesSender := {
  msg : Message;
  recipients : list RMId;
  submitterMsg : Message;
  submitter : RMId
}.

(** The outcome heap: every address holds an outcome record. *)
Definition Store := OutcomePtr -> Outcome.

Definition storeSet (st : Store) (p : OutcomePtr) (o : Outcome) : Store :=
  fun q => if decide (q = p) then o else st q.

(** [newTwoBTxnVotesSender].  [SetSubmissionOutcome] copies the record
    behind [outcome] into the submitter message's own segment; that
    record is then rewritten in place when it is an abort, and
    [twoB.SetOutcome] copies the rewritten record. *)
Definition newTwoBTxnVotesSender (st : Store) (outcome : OutcomePtr)
    (txnId : TxnId) (submitter : RMId) (recipients : list RMId)
    : Store * twoBTxnVotesSender :=
  let submitterMsg := SubmissionOutcome (st outcome) in
  let st' :=
    if decide (Which (st outcome) = OUTCOME_ABORT)
    then storeSet st outcome (SetResubmit (st outcome))
    else st in
  let msg := TwoBTxnVotes (st' outcome) in
  (st', {| msg := msg; recipients := recipients;
           submitterMsg := submitterMsg; submitter := submitter |}).

(** What a connection receives from the sender's callbacks. *)
Definition ConnectedRMs (s : twoBTxnVotesSender) (conns : gset RMId)
    : list (RMId * Message) :=
  (if decide (submitter s ∈ conns) then [(submitter s, submitterMsg s)] else [])
  ++ omap (fun rmId => if decide (rmId ∈ conns) then Some (rmId, msg s) else None)
          (recipients s).

Definition ConnectionLost (s : twoBTxnVotesSender) (rmId : RMId)
    : list (RMId * Message) := [].

(** The loop of [ConnectionEstablished]: the message goes out for the
    first recipient that is [rmId], and the loop stops there. *)
Fixpoint sendToFirst (rmId : RMId) (m : Message) (recipients : list RMId)
    : list (RMId * Message) :=
  match recipients with
  | [] => []
  | recipient :: recipients =>
      if decide (recipient = rmId) then [(rmId, m)]
      else sendToFirst rmId m recipients
  end.

Definition ConnectionEstablished (s : twoBTxnVotesSender) (rmId : RMId)
    : list (RMId * Message) :=
  (if decide (submitter s = rmId) then [(rmId, submitterMsg s)] else [])
  ++ sendToFirst rmId (msg s) (recipients s).

(** The ballot accumulator and the equality of outcomes live in other
    files of the package; the acceptor is written against them. *)
Class BallotAccumulatorOps := {
  BallotAccumulator : Type;
  instance : Type;
  Instances : Type;
  (** [ba.Txn] *)
  baTxn : BallotAccumulator -> Txn;
  (** [ba.BallotReceived(instanceRMId, inst, vUUId, txn)]: may allocate
      a new outcome; returns nil or a pointer to an outcome. *)
  BallotReceived :
    BallotAccumulator -> Store -> RMId -> instance -> VarUUId -> Txn ->
    BallotAccumulator * Store * option OutcomePtr;
  AddInstancesToSeg : BallotAccumulator -> Instances;
  (** [Equal] of [outcomeEqualId]; the argument may be nil. *)
  outcomeEqual : Store -> OutcomePtr -> option OutcomePtr -> bool;
  NewBallotAccumulator : TxnId -> Txn -> BallotAccumulator;
  BallotAccumulatorFromData :
    TxnId -> Txn -> option OutcomePtr -> Instances -> BallotAccumulator
}.

Section Acceptor.

Context `{BallotAccumulatorOps}.

Record Acceptor := {
  txnId : TxnId;
  currentState : option State;
  (* acceptorReceiveBallots *)
  ballotAccumulator : BallotAccumulator;
  outcome : option OutcomePtr;
  (* acceptorWriteToDisk *)
  outcomeOnDisk : option OutcomePtr;
  sendToAll : bool;
  sendToAllOnDisk : bool;
  (* acceptorAwaitLocallyComplete *)
  pendingTLC : gset RMId;
  tlcsReceived : gset RMId;
  tgcRecipients : list RMId;
  tscReceived : bool;
  twoBSender : option twoBTxnVotesSender
}.

(** The record written under [BallotOutcomes[txnId]]. *)
Record AcceptorState := {
  stateTxn : Txn;
  stateOutcome : Outcome;
  stateSendToAll : bool;
  stateInstances : Instances
}.

(** The closure posted back to the executor when a disk future
    resolves without error. *)
Inductive Completion :=
| writeDoneK (outcome : option OutcomePtr) (sendToAll : bool)
| deletionDoneK.

Inductive Effect :=
| LogBallotAfterTLCs (t : TxnId) (instanceRMId : RMId)
| DiskPut (key : TxnId) (data : AcceptorState) (k : Completion)
| DiskDel (key : TxnId) (k : Completion)
| RemoveSenderSync (s : twoBTxnVotesSender)
| AddSender (s : twoBTxnVotesSender)
| AcceptorFinished (t : TxnId)
| OneShotSender (m : Message) (rms : list RMId).

(** An acceptor together with the outcome heap and the collaborator
    calls made so far (oldest first). *)
Record World := {
  acc : Acceptor;
  outcomes : Store;
  effects : list Effect
}.

Definition emit (e : Effect) (w : World) : World :=
  {| acc := acc w; outcomes := outcomes w; effects := effects w ++ [e] |}.

Definition withAcc (f : Acceptor -> Acceptor) (w : World) : World :=
  {| acc := f (acc w); outcomes := outcomes w; effects := effects w |}.

Definition withOutcomes (st : Store) (w : World) : World :=
  {| acc := acc w; outcomes := st; effects := effects w |}.

Definition set_currentState (s : option State) (a : Acceptor) : Acceptor :=
  {| txnId := txnId a; currentState := s;
     ballotAccumulator := ballotAccumulator a; outcome := outcome a;
     outcomeOnDisk := outcomeOnDisk a; sendToAll := sendToAll a;
     sendToAllOnDisk := sendToAllOnDisk a; pendingTLC := pendingTLC a;
     tlcsReceived := tlcsReceived a; tgcRecipients := tgcRecipients a;
     tscReceived := tscReceived a; twoBSender := twoBSender a |}.

Definition set_ballotAccumulator (b : BallotAccumulator) (a : Acceptor) : Acceptor :=
  {| txnId := txnId a; currentState := currentState a;
     ballotAccumulator := b; outcome := outcome a;
     outcomeOnDisk := outcomeOnDisk a; sendToAll := sendToAll a;
     sendToAllOnDisk := sendToAllOnDisk a; pendingTLC := pendingTLC a;
     tlcsReceived := tlcsReceived a; tgcRecipients := tgcRecipients a;
     tscReceived := tscReceived a; twoBSender := twoBSender a |}.

Definition set_outcome (o : option OutcomePtr) (a : Acceptor) : Acceptor :=
  {| txnId := txnId a; currentState := currentState a;
     ballotAccumulator := ballotAccumulator a; outcome := o;
     outcomeOnDisk := outcomeOnDisk a; sendToAll := sendToAll a;
     sendToAllOnDisk := sendToAllOnDisk a; pendingTLC := pendingTLC a;
     tlcsReceived := tlcsReceived a; tgcRecipients := tgcRecipients a;
     tscReceived := tscReceived a; twoBSender := twoBSender a |}.

Definition set_outcomeOnDisk (o : option OutcomePtr) (a : Acceptor) : Acceptor :=
  {| txnId := txnId a; currentState := currentState a;
     ballotAccumulator := ballotAccumulator a; outcome := outcome a;
     outcomeOnDisk := o; sendToAll := sendToAll a;
     sendToAllOnDisk := sendToAllOnDisk a; pendingTLC := pendingTLC a;
     tlcsReceived := tlcsReceived a; tgcRecipients := tgcRecipients a;
     tscReceived := tscReceived a; twoBSender := twoBSender a |}.

Definition set_sendToAll (b : bool) (a : Acceptor) : Acceptor :=
  {| txnId := txnId a; currentState := currentState a;
     ballotAccumulator := ballotAccumulator a; outcome := outcome a;
     outcomeOnDisk := outcomeOnDisk a; sendToAll := b;
     sendToAllOnDisk := sendToAllOnDisk a; pendingTLC := pendingTLC a;
     tlcsReceived := tlcsReceived a; tgcRecipients := tgcRecipients a;
     tscReceived := tscReceived a; twoBSender := twoBSender a |}.

Definition set_sendToAllOnDisk (b : bool) (a : Acceptor) : Acceptor :=
  {| txnId := txnId a; currentState := currentState a;
     ballotAccumulator := ballotAccumulator a; outcome := outcome a;
     outcomeOnDisk := outcomeOnDisk a; sendToAll := sendToAll a;
     sendToAllOnDisk := b; pendingTLC := pendingTLC a;
     tlcsReceived := tlcsReceived a; tgcRecipients := tgcRecipients a;
     tscReceived := tscReceived a; twoBSender := twoBSender a |}.

Definition set_pendingTLC (s : gset RMId) (a : Acceptor) : Acceptor :=
  {| txnId := txnId a; currentState := currentState a;
     ballotAccumulator := ballotAccumulator a; outcome := outcome a;
     outcomeOnDisk := outcomeOnDisk a; sendToAll := sendToAll a;
     sendToAllOnDisk := sendToAllOnDisk a; pendingTLC := s;
     tlcsReceived := tlcsReceived a; tgcRecipients := tgcRecipients a;
     tscReceived := tscReceived a; twoBSender := twoBSender a |}.

Definition set_tlcsReceived (s : gset RMId) (a : Acceptor) : Acceptor :=
  {| txnId := txnId a; currentState := currentState a;
     ballotAccumulator := ballotAccumulator a; outcome := outcome a;
     outcomeOnDisk := outcomeOnDisk a; sendToAll := sendToAll a;
     sendToAllOnDisk := sendToAllOnDisk a; pendingTLC := pendingTLC a;
     tlcsReceived := s; tgcRecipients := tgcRecipients a;
     tscReceived := tscReceived a; twoBSender := twoBSender a |}.

Definition set_tgcRecipients (l : list RMId) (a : Acceptor) : Acceptor :=
  {| txnId := txnId a; currentState := currentState a;
     ballotAccumulator := ballotAccumulator a; outcome := outcome a;
     outcomeOnDisk := outcomeOnDisk a; sendToAll := sendToAll a;
     sendToAllOnDisk := sendToAllOnDisk a; pendingTLC := pendingTLC a;
     tlcsReceived := tlcsReceived a; tgcRecipients := l;
     tscReceived := tscReceived a; twoBSender := twoBSender a |}.

Definition set_tscReceived (b : bool) (a : Acceptor) : Acceptor :=
  {| txnId := txnId a; currentState := currentState a;
     ballotAccumulator := ballotAccumulator a; outcome := outcome a;
     outcomeOnDisk := outcomeOnDisk a; sendToAll := sendToAll a;
     sendToAllOnDisk := sendToAllOnDisk a; pendingTLC := pendingTLC a;
     tlcsReceived := tlcsReceived a; tgcRecipients := tgcRecipients a;
     tscReceived := b; twoBSender := twoBSender a |}.

Definition set_twoBSender (s : option twoBTxnVotesSender) (a : Acceptor) : Acceptor :=
  {| txnId := txnId a; currentState := currentState a;
     ballotAccumulator := ballotAccumulator a; outcome := outcome a;
     outcomeOnDisk := outcomeOnDisk a; sendToAll := sendToAll a;
     sendToAllOnDisk := sendToAllOnDisk a; pendingTLC := pendingTLC a;
     tlcsReceived := tlcsReceived a; tgcRecipients := tgcRecipients a;
     tscReceived := tscReceived a; twoBSender := s |}.

(** *** State components *)

(** [acceptorReceiveBallots.start] does nothing. *)
Definition acceptorReceiveBallots_start (w : World) : option World := Some w.

(** [acceptorWriteToDisk.start]: [Which] on a nil outcome panics.  The
    write is scheduled at once; the closure that calls [writeDone]
    captures the outcome pointer and the flag as they are now. *)
Definition acceptorWriteToDisk_start (w : World) : option World :=
  let a := acc w in
  match outcome a with
  | None => None
  | Some p =>
      let sendToAll' :=
        sendToAll a || bool_decide (Which (outcomes w p) = OUTCOME_COMMIT) in
      let data :=
        {| stateTxn := baTxn (ballotAccumulator a);
           stateOutcome := outcomes w p;
           stateSendToAll := sendToAll';
           stateInstances := AddInstancesToSeg (ballotAccumulator a) |} in
      Some (emit (DiskPut (txnId a) data (writeDoneK (Some p) sendToAll'))
                 (withAcc (set_sendToAll sendToAll') w))
  end.

(** The first lines of [acceptorAwaitLocallyComplete.start] and of
    [acceptorDeleteFromDisk.start]: drop the registered 2B sender. *)
Definition removeTwoBSender (w : World) : World :=
  match twoBSender (acc w) with
  | Some s => withAcc (set_twoBSender None) (emit (RemoveSenderSync s) w)
  | None => w
  end.

Definition acceptorDeleteFromDisk_start (w : World) : option World :=
  let w1 := removeTwoBSender w in
  Some (emit (DiskDel (txnId (acc w1)) deletionDoneK) w1).

(** [Acceptor.nextState], over the [start] methods it may dispatch to.
    With a nil request and a nil current state no case matches and
    [start] is called on a nil interface. *)
Definition nextStateWith (start : State -> World -> option World)
    (requestedState : option State) (w : World) : option World :=
  match requestedState with
  | None =>
      match currentState (acc w) with
      | Some acceptorReceiveBallots =>
          start acceptorWriteToDisk
                (withAcc (set_currentState (Some acceptorWriteToDisk)) w)
      | Some acceptorWriteToDisk =>
          start acceptorAwaitLocallyComplete
                (withAcc (set_currentState (Some acceptorAwaitLocallyComplete)) w)
      | Some acceptorAwaitLocallyComplete =>
          start acceptorDeleteFromDisk
                (withAcc (set_currentState (Some acceptorDeleteFromDisk)) w)
      | Some acceptorDeleteFromDisk =>
          Some (withAcc (set_currentState None) w)
      | None => None
      end
  | Some s => start s (withAcc (set_currentState (Some s)) w)
  end.

(** The guard of [maybeDelete]. *)
Definition maybeDeleteGuard (a : Acceptor) : bool :=
  bool_decide (currentState a = Some acceptorAwaitLocallyComplete)
  && tscReceived a
  && bool_decide (size (pendingTLC a) = 0%nat).

(** [start] of the components that never call [nextState] themselves.
    [maybeDelete] only ever leaves [acceptorAwaitLocallyComplete], so
    the one [start] it reaches is that of [acceptorDeleteFromDisk]. *)
Definition leafStart (s : State) (w : World) : option World :=
  match s with
  | acceptorReceiveBallots => acceptorReceiveBallots_start w
  | acceptorWriteToDisk => acceptorWriteToDisk_start w
  | acceptorDeleteFromDisk => acceptorDeleteFromDisk_start w
  | acceptorAwaitLocallyComplete => None
  end.

Definition maybeDelete (w : World) : option World :=
  if maybeDeleteGuard (acc w) then nextStateWith leafStart None w else Some w.

(** One iteration of the loop over the allocations: the accumulated
    [twoBRecipients], [pendingTLC] and [tgcRecipients]. *)
Definition allocStep (sendToAllOnDisk aborted : bool) (tlcs : gset RMId)
    (st : list RMId * gset RMId * list RMId) (alloc : Allocation)
    : list RMId * gset RMId * list RMId :=
  let '(twoBRecipients, pending, tgc) := st in
  let active := negb (bool_decide (Active alloc = 0%N)) in
  let rmId := RmId alloc in
  let '(twoBRecipients, pending) :=
    if sendToAllOnDisk || active
    then (twoBRecipients ++ [rmId],
          if bool_decide (rmId ∈ tlcs) then pending else {[rmId]} ∪ pending)
    else (twoBRecipients, pending) in
  let tgc := if negb aborted || active then tgc ++ [rmId] else tgc in
  (twoBRecipients, pending, tgc).

Definition allocLoop (sendToAllOnDisk aborted : bool) (tlcs : gset RMId)
    (allocs : list Allocation) : list RMId * gset RMId * list RMId :=
  fold_left (allocStep sendToAllOnDisk aborted tlcs) allocs ([], ∅, []).

(** [acceptorAwaitLocallyComplete.start]. *)
Definition acceptorAwaitLocallyComplete_start (w : World) : option World :=
  let w := removeTwoBSender w in
  let a := acc w in
  let allocs := Allocations (baTxn (ballotAccumulator a)) in
  match outcomeOnDisk a with
  | None => None
  | Some p =>
      let aborted := bool_decide (Which (outcomes w p) = OUTCOME_ABORT) in
      let '(twoBRecipients, pending, tgc) :=
        allocLoop (sendToAllOnDisk a) aborted (tlcsReceived a) allocs in
      let w := withAcc (fun a => set_tgcRecipients tgc (set_pendingTLC pending a)) w in
      if bool_decide (size pending = 0%nat) && tscReceived a
      then maybeDelete w
      else
        let submitter := Submitter (baTxn (ballotAccumulator a)) in
        let '(st', sender) :=
          newTwoBTxnVotesSender (outcomes w) p (txnId a) submitter twoBRecipients in
        Some (emit (AddSender sender)
                   (withAcc (set_twoBSender (Some sender)) (withOutcomes st' w)))
  end.

(** The dynamic dispatch [a.currentState.start()]. *)
Definition start (s : State) (w : World) : option World :=
  match s with
  | acceptorAwaitLocallyComplete => acceptorAwaitLocallyComplete_start w
  | _ => leafStart s w
  end.

Definition nextState : option State -> World -> option World :=
  nextStateWith start.

(** *** Events delivered to an acceptor *)

Definition BallotAccepted (instanceRMId : RMId) (inst : instance)
    (vUUId : VarUUId) (txn : Txn) (w : World) : option World :=
  let a := acc w in
  let w :=
    if bool_decide (currentState a = Some acceptorDeleteFromDisk)
    then emit (LogBallotAfterTLCs (txnId a) instanceRMId) w
    else w in
  let '(ba, st, res) :=
    BallotReceived (ballotAccumulator a) (outcomes w) instanceRMId inst vUUId txn in
  let w := withOutcomes st (withAcc (set_ballotAccumulator ba) w) in
  match res with
  | Some o =>
      if negb (outcomeEqual st o (outcome a))
      then nextState (Some acceptorWriteToDisk)
                     (withAcc (set_outcome (Some o)) w)
      else Some w
  | None => Some w
  end.

Definition writeDone (o : option OutcomePtr) (sendToAll : bool) (w : World)
    : option World :=
  if bool_decide (outcome (acc w) = o)
     && bool_decide (currentState (acc w) = Some acceptorWriteToDisk)
  then nextState None
         (withAcc (fun a => set_sendToAllOnDisk sendToAll (set_outcomeOnDisk o a)) w)
  else Some w.

Definition TxnLocallyCompleteReceived (sender : RMId) (w : World) : option World :=
  let w := withAcc (fun a => set_tlcsReceived ({[sender]} ∪ tlcsReceived a) a) w in
  if bool_decide (currentState (acc w) = Some acceptorAwaitLocallyComplete)
  then maybeDelete (withAcc (fun a => set_pendingTLC (pendingTLC a ∖ {[sender]}) a) w)
  else Some w.

Definition TxnSubmissionCompleteReceived (sender : RMId) (w : World) : option World :=
  if negb (tscReceived (acc w))
  then maybeDelete (withAcc (set_tscReceived true) w)
  else Some w.

Definition deletionDone (w : World) : option World :=
  if bool_decide (currentState (acc w) = Some acceptorDeleteFromDisk)
  then
    match nextState None w with
    | Some w =>
        let a := acc w in
        Some (emit (OneShotSender (TxnGloballyComplete (txnId a)) (tgcRecipients a))
                   (emit (AcceptorFinished (txnId a)) w))
    | None => None
    end
  else Some w.

(** *** Construction *)

Definition NewAcceptor (txnId : TxnId) (txn : Txn) : Acceptor :=
  {| txnId := txnId; currentState := None;
     ballotAccumulator := NewBallotAccumulator txnId txn; outcome := None;
     outcomeOnDisk := None; sendToAll := false; sendToAllOnDisk := false;
     pendingTLC := ∅; tlcsReceived := ∅; tgcRecipients := [];
     tscReceived := false; twoBSender := None |}.

Definition AcceptorFromData (txnId : TxnId) (txn : Txn)
    (outcome : option OutcomePtr) (sendToAll : bool) (instances : Instances)
    : Acceptor :=
  let a := NewAcceptor txnId txn in
  let a := set_ballotAccumulator
             (BallotAccumulatorFromData txnId txn outcome instances) a in
  let a := set_outcome outcome a in
  let a := set_sendToAll sendToAll a in
  let a := set_sendToAllOnDisk sendToAll a in
  set_outcomeOnDisk outcome a.

Definition Start (w : World) : option World :=
  match currentState (acc w) with
  | Some _ => Some w
  | None =>
      match outcomeOnDisk (acc w) with
      | None =>
          start acceptorReceiveBallots
                (withAcc (set_currentState (Some acceptorReceiveBallots)) w)
      | Some _ =>
          start acceptorAwaitLocallyComplete
                (withAcc (set_currentState (Some acceptorAwaitLocallyComplete)) w)
      end
  end.

(** The calls the acceptor manager makes on an acceptor. *)
Inductive Event :=
| EvStart
| EvBallotAccepted (instanceRMId : RMId) (inst : instance) (vUUId : VarUUId) (txn : Txn)
| EvWriteDone (o : option OutcomePtr) (sendToAll : bool)
| EvTxnLocallyCompleteReceived (sender : RMId)
| EvTxnSubmissionCompleteReceived (sender : RMId)
| EvDeletionDone.

Definition step (e : Event) (w : World) : option World :=
  match e with
  | EvStart => Start w
  | EvBallotAccepted r i v t => BallotAccepted r i v t w
  | EvWriteDone o f => writeDone o f w
  | EvTxnLocallyCompleteReceived r => TxnLocallyCompleteReceived r w
  | EvTxnSubmissionCompleteReceived r => TxnSubmissionCompleteReceived r w
  | EvDeletionDone => deletionDone w
  end.

Fixpoint run (es : list Event) (w : World) : option World :=
  match es with
  | [] => Some w
  | e :: es =>
      match step e w with
      | Some w' => run es w'
      | None => None
      end
  end.

(** *** Invariant of the state machine *)

(** How an acceptor comes into being: [NewAcceptor] on a first
    ballot, [AcceptorFromData] on restart. *)
Definition Initial (w : World) : Prop :=
  effects w = [] /\
  ((exists t txn, acc w = NewAcceptor t txn) \/
   (exists t txn o f i, acc w = AcceptorFromData t txn o f i)).

(** Outside [acceptorWriteToDisk] the outcome in memory is the one on
    disk; in [acceptorDeleteFromDisk] every awaited TLC and the TSC
    have arrived; past [acceptorWriteToDisk] there is an outcome on
    disk. *)
Definition Inv (w : World) : Prop :=
  let a := acc w in
  (currentState a <> Some acceptorWriteToDisk -> outcome a = outcomeOnDisk a) /\
  (currentState a = Some acceptorDeleteFromDisk ->
     tscReceived a = true /\ pendingTLC a = ∅) /\
  (currentState a = Some acceptorAwaitLocallyComplete \/
   currentState a = Some acceptorDeleteFromDisk -> is_Some (outcomeOnDisk a)).

(** The fields no [start] method writes. *)
Definition frame (a a' : Acceptor) : Prop :=
  txnId a' = txnId a /\ ballotAccumulator a' = ballotAccumulator a /\
  outcome a' = outcome a /\ outcomeOnDisk a' = outcomeOnDisk a /\
  sendToAllOnDisk a' = sendToAllOnDisk a /\
  tlcsReceived a' = tlcsReceived a /\ tscReceived a' = tscReceived a.

(** The recipient lists the loop over the allocations computes. *)
Definition isActive (alloc : Allocation) : bool :=
  negb (bool_decide (Active alloc = 0%N)).

Definition twoBRecipientsOf (sendToAllOnDisk : bool) (allocs : list Allocation)
    : list RMId :=
  map RmId (filter (fun al => sendToAllOnDisk || isActive al = true) allocs).

Definition tgcRecipientsOf (aborted : bool) (allocs : list Allocation)
    : list RMId :=
  map RmId (filter (fun al => negb aborted || isActive al = true) allocs).

(** Whether the answer of the ballot accumulator replaces the outcome
    held (the test of [BallotAccepted]). *)
Definition changesOutcome (st : Store) (res held : option OutcomePtr) : bool :=
  match res with
  | Some o => negb (outcomeEqual st o held)
  | None => false
  end.

(** [w'] has the effects of [w] followed by effects that satisfy [P]. *)
Definition extendsWith (P : Effect -> Prop) (w w' : World) : Prop :=
  exists new, effects w' = effects w ++ new /\ Forall P new.

(** A disk write that carries [sendToAll = true], in the record and in
    the completion it schedules. *)
Definition writesToAll (e : Effect) : Prop :=
  match e with
  | DiskPut _ data k =>
      stateSendToAll data = true /\ exists o, k = writeDoneK o true
  | _ => True
  end.

End Acceptor.

(** *** An accumulator for examples

    It decides at once, for whatever outcome the ballot names: its
    [instance] is the answer [BallotReceived] gives.  Two outcomes are
    equal when they are the same record or hold the same contents. *)
Definition ballotDecides : BallotAccumulatorOps :=
  {| BallotAccumulator := Txn;
     instance := option OutcomePtr;
     Instances := unit;
     baTxn := fun ba => ba;
     BallotReceived := fun ba st _ inst _ _ => (ba, st, inst);
     AddInstancesToSeg := fun _ => tt;
     outcomeEqual := fun st p o =>
       match o with
       | Some q => bool_decide (p = q) || bool_decide (st p = st q)
       | None => false
       end;
     NewBallotAccumulator := fun _ txn => txn;
     BallotAccumulatorFromData := fun _ txn _ _ => txn |}.

(** A transaction over one variable: replicas 1 and 2 active, replica 3
    passive, submitted by replica 9. *)
Definition exampleTxn : Txn :=
  {| Id := 40%N; Retry := false; Submitter := 9%N; SubmitterBootCount := 1%N;
     Actions := [];
     Allocations := [ {| RmId := 1%N; ActionIndices := [0%Z]; Active := 5%N |};
                      {| RmId := 2%N; ActionIndices := [0%Z]; Active := 7%N |};
                      {| RmId := 3%N; ActionIndices := [0%Z]; Active := 0%N |} ];
     FInc := 2%N; TopologyVersion := 1%N |}.

(** Address 1 holds an abort with updates, address 2 a commit, address 3
    an abort with other updates. *)
Definition exampleStore : Store :=
  fun p =>
    if decide (p = 1%N) then Abort (ABORT_RERUN [[1%N; 2%N; 3%N]])
    else if decide (p = 2%N) then Commit [8%N]
    else if decide (p = 3%N) then Abort (ABORT_RERUN [[4%N]])
    else Abort ABORT_RESUBMIT.

Definition exampleWorld : @World ballotDecides :=
  {| acc := @NewAcceptor ballotDecides 40%N exampleTxn;
     outcomes := exampleStore; effects := [] |}.

(** Ballots decide the abort at address 1; it is written; the TSC and
    the TLCs of both active replicas arrive. *)
Definition abortThenComplete : list (@Event ballotDecides) :=
  [ @EvStart ballotDecides;
    @EvBallotAccepted ballotDecides 1%N (Some 1%N) 77%N exampleTxn;
    @EvWriteDone ballotDecides (Some 1%N) false;
    @EvTxnSubmissionCompleteReceived ballotDecides 9%N;
    @EvTxnLocallyCompleteReceived ballotDecides 1%N;
    @EvTxnLocallyCompleteReceived ballotDecides 2%N ].

(** Ballots decide the commit at address 2 and a write starts; before
    it completes, further ballots decide the abort at address 1 and a
    second write starts. *)
Definition commitThenAbort : list (@Event ballotDecides) :=
  [ @EvStart ballotDecides;
    @EvBallotAccepted ballotDecides 1%N (Some 2%N) 77%N exampleTxn;
    @EvBallotAccepted ballotDecides 2%N (Some 1%N) 77%N exampleTxn ].

(** The acceptor of the example as the abort write completes: in
    [acceptorWriteToDisk] with the abort in memory and what is on disk
    just recorded. *)
Definition abortWritten : @World ballotDecides :=
  {| acc := set_currentState (Some acceptorAwaitLocallyComplete)
              (set_outcome (Some 1%N)
                 (set_outcomeOnDisk (Some 1%N)
                    (set_tlcsReceived {[ 2%N ]}
                       (@NewAcceptor ballotDecides 40%N exampleTxn))));
     outcomes := exampleStore; effects := [] |}.

End paxos.

(** ** The transaction submitter (package [client]) *)

Module client.

Import msgs.

Inductive Error :=
| AbortRollError
| ErrorTranslatingActions (e : Error)
| UnknownVar (v : VarUUId)
| CollaboratorError (code : N).

(** [server.Topology] as the submitter reads it. *)
Record Topology := {
  AllRMs : list RMId;
  TopologyFInc : N;
  TwoFInc : nat;
  MaxRMCount : nat;
  Version : N;
  Root : option (VarUUId * Bytes)
}.

(** Consistent hashing, the combination picker, the outcome accumulator
    and the blank topology live in other packages. *)
Class Collaborators := {
  (** [topology.Equal(server.BlankTopology)] *)
  isBlankTopology : Topology -> bool;
  NonEmptyLen : list RMId -> nat;
  Resolver : Type;
  NewResolver : list RMId -> Resolver;
  ConsistentHashCache : Type;
  NewCache : Resolver -> nat -> ConsistentHashCache;
  SetResolverDesiredLen : ConsistentHashCache -> Resolver -> nat -> ConsistentHashCache;
  AddPosition : ConsistentHashCache -> VarUUId -> Bytes -> ConsistentHashCache;
  GetPositions : ConsistentHashCache -> VarUUId -> option Bytes;
  (** hash codes or an error, and the cache afterwards *)
  GetHashCodes :
    ConsistentHashCache -> VarUUId -> ConsistentHashCache * (Error + list RMId);
  (** positions and hash codes (possibly a nil slice) or an error *)
  CreatePositions :
    ConsistentHashCache -> VarUUId -> nat ->
    ConsistentHashCache * (Error + Bytes * option (list RMId));
  CombinationPicker : Type;
  NewCombinationPicker : N -> gset RMId -> CombinationPicker;
  AddPermutation : CombinationPicker -> list RMId -> CombinationPicker;
  (** active and passive replicas, or an error *)
  Choose : CombinationPicker -> Error + list RMId * list RMId;
  OutcomeAccumulator : Type;
  NewOutcomeAccumulator : N -> list RMId -> OutcomeAccumulator;
  BallotOutcomeReceived :
    OutcomeAccumulator -> RMId -> Outcome -> OutcomeAccumulator * option Outcome;
  GetAcceptorsFromTxn : Txn -> list RMId
}.

(** A [TxnCompletionConsumer] is supplied by the caller; it is known
    here only by name. *)
Abbreviation TxnCompletionConsumer := N (only parsing).

Record RepeatingSender := { rsMsg : Message; rsRecipients : list RMId }.

Inductive Effect :=
| AddSender (s : RepeatingSender)
| AddSenderAfter (delay : N) (s : RepeatingSender)
| RemoveSenderAsync (s : RepeatingSender)
| OneShotSender (m : Message) (rms : list RMId)
| Continuation (k : TxnCompletionConsumer) (t : TxnId) (o : option Outcome).

(** The closure [shutdownFun] of [SubmitTransaction] with what it
    captures. *)
Record shutdownFun := {
  sfTxnId : TxnId;
  sfTxnSender : RepeatingSender;
  sfAcceptors : list RMId;
  sfRetry : bool;
  sfActiveRMs : list RMId;
  sfContinuation : TxnCompletionConsumer
}.

(** The closure stored in [bufferedSubmissions]. *)
Record bufferedSubmission := {
  bsTxn : ClientTxn;
  bsContinuation : TxnCompletionConsumer;
  bsDelay : N
}.

Section Submitter.

Context `{Collaborators}.

(** The closure [consumer] of [SubmitTransaction] with what it
    captures; the accumulator is the closure's mutable state. *)
Record txnOutcomeConsumer := {
  cOutcomeAccumulator : OutcomeAccumulator;
  cShutdownFunPtr : N;
  cShutdownFun : shutdownFun;
  cContinuation : TxnCompletionConsumer
}.

Record SimpleTxnSubmitter := {
  rmId : RMId;
  bootCount : N;
  disabledHashCodes : gset RMId;
  (** boot count of each connection; nil until the first
      [TopologyChange] with servers *)
  connections : option (gmap RMId N);
  outcomeConsumers : gmap TxnId txnOutcomeConsumer;
  (** keyed by the address of the closure *)
  onShutdown : gmap N shutdownFun;
  resolver : Resolver;
  hashCache : ConsistentHashCache;
  topology : Topology;
  bufferedSubmissions : option (list bufferedSubmission)
}.

(** A submitter, the next address the allocator hands out for a
    closure, and the collaborator calls made so far (oldest first). *)
Record World := {
  sts : SimpleTxnSubmitter;
  nextAddr : N;
  effects : list Effect
}.

Definition emit (e : Effect) (w : World) : World :=
  {| sts := sts w; nextAddr := nextAddr w; effects := effects w ++ [e] |}.

Definition withSts (f : SimpleTxnSubmitter -> SimpleTxnSubmitter) (w : World) : World :=
  {| sts := f (sts w); nextAddr := nextAddr w; effects := effects w |}.

Definition set_disabledHashCodes (d : gset RMId) (s : SimpleTxnSubmitter) :=
  {| rmId := rmId s; bootCount := bootCount s; disabledHashCodes := d;
     connections := connections s; outcomeConsumers := outcomeConsumers s;
     onShutdown := onShutdown s; resolver := resolver s;
     hashCache := hashCache s; topology := topology s;
     bufferedSubmissions := bufferedSubmissions s |}.

Definition set_connections (c : option (gmap RMId N)) (s : SimpleTxnSubmitter) :=
  {| rmId := rmId s; bootCount := bootCount s;
     disabledHashCodes := disabledHashCodes s;
     connections := c; outcomeConsumers := outcomeConsumers s;
     onShutdown := onShutdown s; resolver := resolver s;
     hashCache := hashCache s; topology := topology s;
     bufferedSubmissions := bufferedSubmissions s |}.

Definition set_outcomeConsumers (m : gmap TxnId txnOutcomeConsumer)
    (s : SimpleTxnSubmitter) :=
  {| rmId := rmId s; bootCount := bootCount s;
     disabledHashCodes := disabledHashCodes s;
     connections := connections s; outcomeConsumers := m;
     onShutdown := onShutdown s; resolver := resolver s;
     hashCache := hashCache s; topology := topology s;
     bufferedSubmissions := bufferedSubmissions s |}.

Definition set_onShutdown (m : gmap N shutdownFun) (s : SimpleTxnSubmitter) :=
  {| rmId := rmId s; bootCount := bootCount s;
     disabledHashCodes := disabledHashCodes s;
     connections := connections s; outcomeConsumers := outcomeConsumers s;
     onShutdown := m; resolver := resolver s;
     hashCache := hashCache s; topology := topology s;
     bufferedSubmissions := bufferedSubmissions s |}.

Definition set_resolver (r : Resolver) (s : SimpleTxnSubmitter) :=
  {| rmId := rmId s; bootCount := bootCount s;
     disabledHashCodes := disabledHashCodes s;
     connections := connections s; outcomeConsumers := outcomeConsumers s;
     onShutdown := onShutdown s; resolver := r;
     hashCache := hashCache s; topology := topology s;
     bufferedSubmissions := bufferedSubmissions s |}.

Definition set_hashCache (c : ConsistentHashCache) (s : SimpleTxnSubmitter) :=
  {| rmId := rmId s; bootCount := bootCount s;
     disabledHashCodes := disabledHashCodes s;
     connections := connections s; outcomeConsumers := outcomeConsumers s;
     onShutdown := onShutdown s; resolver := resolver s;
     hashCache := c; topology := topology s;
     bufferedSubmissions := bufferedSubmissions s |}.

Definition set_topology (t : Topology) (s : SimpleTxnSubmitter) :=
  {| rmId := rmId s; bootCount := bootCount s;
     disabledHashCodes := disabledHashCodes s;
     connections := connections s; outcomeConsumers := outcomeConsumers s;
     onShutdown := onShutdown s; resolver := resolver s;
     hashCache := hashCache s; topology := t;
     bufferedSubmissions := bufferedSubmissions s |}.

Definition set_bufferedSubmissions (b : option (list bufferedSubmission))
    (s : SimpleTxnSubmitter) :=
  {| rmId := rmId s; bootCount := bootCount s;
     disabledHashCodes := disabledHashCodes s;
     connections := connections s; outcomeConsumers := outcomeConsumers s;
     onShutdown := onShutdown s; resolver := resolver s;
     hashCache := hashCache s; topology := topology s;
     bufferedSubmissions := b |}.

(** *** Outcome collection *)

(** A call of the closure [shutdownFun]. *)
Definition callShutdownFun (f : shutdownFun) (shutdown : bool) (w : World) : World :=
  let w := withSts (fun s =>
             set_outcomeConsumers (delete (sfTxnId f) (outcomeConsumers s)) s) w in
  let w := emit (RemoveSenderAsync (sfTxnSender f)) w in
  let w := emit (OneShotSender (TxnSubmissionComplete (sfTxnId f)) (sfAcceptors f)) w in
  if shutdown
  then
    let w :=
      if sfRetry f
      then emit (OneShotSender (TxnSubmissionAbort (sfTxnId f)) (sfActiveRMs f)) w
      else w in
    emit (Continuation (sfContinuation f) (sfTxnId f) None) w
  else w.

(** A call of the closure [consumer], found under [txnId].  The
    accumulator it captured is updated in place. *)
Definition callConsumer (c : txnOutcomeConsumer) (sender : RMId) (txnId : TxnId)
    (outcome : Outcome) (w : World) : World :=
  let '(oa, res) := BallotOutcomeReceived (cOutcomeAccumulator c) sender outcome in
  let c' := {| cOutcomeAccumulator := oa; cShutdownFunPtr := cShutdownFunPtr c;
               cShutdownFun := cShutdownFun c; cContinuation := cContinuation c |} in
  let w := withSts (fun s =>
             set_outcomeConsumers (<[txnId := c']> (outcomeConsumers s)) s) w in
  match res with
  | Some o =>
      let w := withSts (fun s =>
                 set_onShutdown (delete (cShutdownFunPtr c) (onShutdown s)) s) w in
      let w := callShutdownFun (cShutdownFun c) false w in
      emit (Continuation (cContinuation c) txnId (Some o)) w
  | None => w
  end.

Definition SubmissionOutcomeReceived (sender : RMId) (txnId : TxnId)
    (outcome : Outcome) (w : World) : World :=
  match outcomeConsumers (sts w) !! txnId with
  | Some consumer => callConsumer consumer sender txnId outcome w
  | None => emit (OneShotSender (TxnSubmissionComplete txnId) [sender]) w
  end.

Definition SubmitTransaction (txnCap : Txn) (activeRMs : list RMId)
    (continuation : TxnCompletionConsumer) (delay : N) (w : World) : World :=
  let txnId := Id txnCap in
  let txnSender := {| rsMsg := TxnSubmission txnCap; rsRecipients := activeRMs |} in
  let w :=
    if bool_decide (delay = 0%N)
    then emit (AddSender txnSender) w
    else emit (AddSenderAfter delay txnSender) w in
  let acceptors := GetAcceptorsFromTxn txnCap in
  let f := {| sfTxnId := txnId; sfTxnSender := txnSender;
              sfAcceptors := acceptors; sfRetry := Retry txnCap;
              sfActiveRMs := activeRMs; sfContinuation := continuation |} in
  let shutdownFunPtr := nextAddr w in
  let w := {| sts := set_onShutdown (<[shutdownFunPtr := f]> (onShutdown (sts w))) (sts w);
              nextAddr := (shutdownFunPtr + 1)%N;
              effects := effects w |} in
  let consumer :=
    {| cOutcomeAccumulator := NewOutcomeAccumulator (FInc txnCap) acceptors;
       cShutdownFunPtr := shutdownFunPtr; cShutdownFun := f;
       cContinuation := continuation |} in
  withSts (fun s => set_outcomeConsumers (<[txnId := consumer]> (outcomeConsumers s)) s) w.

(** [Shutdown] ranges over the hooks in the order [map_to_list] gives. *)
Definition Shutdown (w : World) : World :=
  fold_left (fun w kf => callShutdownFun kf.2 true w)
            (map_to_list (onShutdown (sts w))) w.

(** *** Translation of a client transaction *)

Definition copyReferences (clientReferences : list VarUUId) : list VarIdPos :=
  map (fun v => {| RefId := v; RefPositions := None |}) clientReferences.

Definition translateRead (version : Bytes) : ActionBody := ARead version.

Definition translateWrite (value : Bytes) (refs : list VarUUId) : ActionBody :=
  AWrite value (copyReferences refs).

Definition translateReadWrite (version value : Bytes) (refs : list VarUUId)
    : ActionBody :=
  AReadwrite version value (copyReferences refs).

Definition translateCreate (s : SimpleTxnSubmitter) (hc : ConsistentHashCache)
    (vUUId : VarUUId) (value : Bytes) (refs : list VarUUId)
    : ConsistentHashCache * (Error + ActionBody * Bytes * option (list RMId)) :=
  match CreatePositions hc vUUId (MaxRMCount (topology s)) with
  | (hc, inl err) => (hc, inl err)
  | (hc, inr (positions, hashCodes)) =>
      (hc, inr (ACreate value positions (copyReferences refs), positions, hashCodes))
  end.

Definition translateRoll (version value : Bytes) (refs : list VarUUId)
    : ActionBody :=
  ARoll version value (copyReferences refs).

Definition isRoll (ca : ClientAction) : bool :=
  match CBody ca with CLIENTACTION_ROLL _ _ _ => true | _ => false end.

(** What the first loop of [translateActions] builds. *)
Record translation := {
  tPicker : CombinationPicker;
  tActions : list Action;
  tIndices : gmap RMId (list Z);
  tCreated : gmap VarUUId Bytes
}.

Definition addIndex (idx : Z) (m : gmap RMId (list Z)) (rmId : RMId)
    : gmap RMId (list Z) :=
  match m !! rmId with
  | Some l => <[rmId := l ++ [idx]]> m
  | None => <[rmId := [idx]]> m
  end.

(** [hashCodes[:n]]: panics when [n] exceeds the slice (taken to have
    no spare capacity). *)
Definition slicePrefix (n : nat) (hashCodes : list RMId) : option (list RMId) :=
  if bool_decide (n <= length hashCodes)%nat then Some (take n hashCodes) else None.

(** One iteration of the first loop of [translateActions]. *)
Definition translateAction (s : SimpleTxnSubmitter) (hc : ConsistentHashCache)
    (idx : Z) (ca : ClientAction) (t : translation)
    : option (ConsistentHashCache * (Error + translation)) :=
  let '(hc, translated) :=
    match CBody ca with
    | CLIENTACTION_READ v => (hc, inr (translateRead v, None, None))
    | CLIENTACTION_WRITE v rs => (hc, inr (translateWrite v rs, None, None))
    | CLIENTACTION_READWRITE ver v rs =>
        (hc, inr (translateReadWrite ver v rs, None, None))
    | CLIENTACTION_CREATE v rs =>
        match translateCreate s hc (CVarId ca) v rs with
        | (hc, inl err) => (hc, inl err)
        | (hc, inr (body, positions, hashCodes)) =>
            (hc, inr (body, Some positions, hashCodes))
        end
    | CLIENTACTION_ROLL ver v rs => (hc, inr (translateRoll ver v rs, None, None))
    end in
  match translated with
  | inl err => Some (hc, inl err)
  | inr (body, created, hashCodes) =>
      let tCreated' :=
        match created with
        | Some positions => <[CVarId ca := positions]> (tCreated t)
        | None => tCreated t
        end in
      let looked : option (ConsistentHashCache * (Error + list RMId)) :=
        match hashCodes with
        | Some hs => Some (hc, inr hs)
        | None =>
            match GetHashCodes hc (CVarId ca) with
            | (hc, inl err) => Some (hc, inl err)
            | (hc, inr hs) =>
                if isRoll ca
                then match hs with
                     | [] => None
                     | h :: _ =>
                         if bool_decide (h ≠ rmId s)
                         then Some (hc, inl AbortRollError)
                         else Some (hc, inr hs)
                     end
                else Some (hc, inr hs)
            end
        end in
      match looked with
      | None => None
      | Some (hc, inl err) => Some (hc, inl err)
      | Some (hc, inr hs) =>
          match slicePrefix (TwoFInc (topology s)) hs with
          | None => None
          | Some hs =>
              Some (hc, inr {| tPicker := AddPermutation (tPicker t) hs;
                               tActions := tActions t ++
                                 [{| ActVarId := CVarId ca; ActBody := body |}];
                               tIndices := fold_left (addIndex idx) hs (tIndices t);
                               tCreated := tCreated' |})
          end
      end
  end.

Fixpoint translateLoop (s : SimpleTxnSubmitter) (hc : ConsistentHashCache)
    (idx : Z) (cas : list ClientAction) (t : translation)
    : option (ConsistentHashCache * (Error + translation)) :=
  match cas with
  | [] => Some (hc, inr t)
  | ca :: cas =>
      match translateAction s hc idx ca t with
      | Some (hc, inr t) => translateLoop s hc (idx + 1)%Z cas t
      | other => other
      end
  end.

(** The second loop of [translateActions]: every reference gets the
    positions of its target, from this transaction's creates first,
    then from the cache. *)
Definition patchReference (created : gmap VarUUId Bytes) (hc : ConsistentHashCache)
    (r : VarIdPos) : Error + VarIdPos :=
  let positions :=
    match created !! RefId r with
    | Some positions => Some positions
    | None => GetPositions hc (RefId r)
    end in
  match positions with
  | None => inl (UnknownVar (RefId r))
  | Some positions => inr {| RefId := RefId r; RefPositions := Some positions |}
  end.

Fixpoint patchReferences (created : gmap VarUUId Bytes) (hc : ConsistentHashCache)
    (rs : list VarIdPos) : Error + list VarIdPos :=
  match rs with
  | [] => inr []
  | r :: rs =>
      match patchReference created hc r with
      | inl err => inl err
      | inr r =>
          match patchReferences created hc rs with
          | inl err => inl err
          | inr rs => inr (r :: rs)
          end
      end
  end.

Definition patchAction (created : gmap VarUUId Bytes) (hc : ConsistentHashCache)
    (a : Action) : Error + Action :=
  let rebuild (k : list VarIdPos -> ActionBody) (rs : list VarIdPos) :=
    match patchReferences created hc rs with
    | inl err => inl err
    | inr rs => inr {| ActVarId := ActVarId a; ActBody := k rs |}
    end in
  match ActBody a with
  | ARead v => inr a
  | AWrite v rs => rebuild (AWrite v) rs
  | AReadwrite ver v rs => rebuild (AReadwrite ver v) rs
  | ACreate v p rs => rebuild (ACreate v p) rs
  | ARoll ver v rs => rebuild (ARoll ver v) rs
  end.

Fixpoint patchActions (created : gmap VarUUId Bytes) (hc : ConsistentHashCache)
    (acts : list Action) : Error + list Action :=
  match acts with
  | [] => inr []
  | a :: acts =>
      match patchAction created hc a with
      | inl err => inl err
      | inr a =>
          match patchActions created hc acts with
          | inl err => inl err
          | inr acts => inr (a :: acts)
          end
      end
  end.

Definition translateActions (s : SimpleTxnSubmitter) (hc : ConsistentHashCache)
    (picker : CombinationPicker) (clientActions : list ClientAction)
    : option (ConsistentHashCache *
              (Error + CombinationPicker * list Action * gmap RMId (list Z))) :=
  match translateLoop s hc 0%Z clientActions
          {| tPicker := picker; tActions := []; tIndices := ∅; tCreated := ∅ |} with
  | None => None
  | Some (hc, inl err) => Some (hc, inl err)
  | Some (hc, inr t) =>
      match patchActions (tCreated t) hc (tActions t) with
      | inl err => Some (hc, inl err)
      | inr acts => Some (hc, inr (tPicker t, acts, tIndices t))
      end
  end.

(** [uint16(v)] *)
Definition uint16 (v : Z) : Z := (v mod 65536)%Z.

(** [sort.Ints] *)
Definition sortInts (l : list Z) : list Z := merge_sort Z.le l.

(** [setAllocations].  A replica without an entry in
    [rmIdToActionIndices], an active replica without a connection and
    an index outside the allocation list make the call panic. *)
Fixpoint setAllocations (s : SimpleTxnSubmitter) (allocIdx : nat)
    (rmIdToActionIndices : gmap RMId (list Z)) (allocations : list Allocation)
    (active : bool) (rmIds : list RMId) : option (list Allocation) :=
  match rmIds with
  | [] => Some allocations
  | rmId :: rmIds =>
      match rmIdToActionIndices !! rmId with
      | None => None
      | Some actionIndices =>
          let actionIndices := sortInts actionIndices in
          if bool_decide (length allocations <= allocIdx)%nat then None
          else
            let actionIndicesCap := map uint16 actionIndices in
            let activeField :=
              if active
              then match connections s with
                   | Some conns => conns !! rmId
                   | None => None
                   end
              else Some 0%N in
            match activeField with
            | None => None
            | Some a =>
                setAllocations s (S allocIdx) rmIdToActionIndices
                  (<[allocIdx := {| RmId := rmId;
                                    ActionIndices := actionIndicesCap;
                                    Active := a |}]> allocations)
                  active rmIds
            end
      end
  end.

Definition NewAllocationList (n : nat) : list Allocation :=
  replicate n {| RmId := 0%N; ActionIndices := []; Active := 0%N |}.

(** [clientToServerTxn]: the cache as the call leaves it, and the
    server transaction with the active and passive replicas, or an
    error. *)
Definition clientToServerTxn (s : SimpleTxnSubmitter) (clientTxnCap : ClientTxn)
    : option (ConsistentHashCache * (Error + Txn * list RMId * list RMId)) :=
  let picker := NewCombinationPicker (TopologyFInc (topology s)) (disabledHashCodes s) in
  match translateActions s (hashCache s) picker (CActions clientTxnCap) with
  | None => None
  | Some (hc, inl err) => Some (hc, inl (ErrorTranslatingActions err))
  | Some (hc, inr (picker, actions, rmIdToActionIndices)) =>
      match Choose picker with
      | inl err => Some (hc, inl err)
      | inr (activeRMs, passiveRMs) =>
          let allocations :=
            NewAllocationList (length activeRMs + length passiveRMs) in
          match setAllocations s 0 rmIdToActionIndices allocations true activeRMs with
          | None => None
          | Some allocations =>
              match setAllocations s (length activeRMs) rmIdToActionIndices
                      allocations false passiveRMs with
              | None => None
              | Some allocations =>
                  Some (hc, inr ({| Id := CId clientTxnCap;
                                    Retry := CRetry clientTxnCap;
                                    Submitter := rmId s;
                                    SubmitterBootCount := bootCount s;
                                    Actions := actions;
                                    Allocations := allocations;
                                    FInc := TopologyFInc (topology s);
                                    TopologyVersion := Version (topology s) |},
                                 activeRMs, passiveRMs))
              end
          end
      end
  end.

(** *** Submission and topology changes *)

(** [SubmitClientTransaction]: the world afterwards and the returned
    error ([None] for a nil error). *)
Definition SubmitClientTransaction (ctxnCap : ClientTxn)
    (continuation : TxnCompletionConsumer) (delay : N) (w : World)
    : option (World * option Error) :=
  if isBlankTopology (topology (sts w))
  then
    let fun_ := {| bsTxn := ctxnCap; bsContinuation := continuation;
                   bsDelay := delay |} in
    Some (withSts (fun s =>
            set_bufferedSubmissions
              (match bufferedSubmissions s with
               | None => Some [fun_]
               | Some l => Some (l ++ [fun_])
               end) s) w, None)
  else
    match clientToServerTxn (sts w) ctxnCap with
    | None => None
    | Some (hc, inl err) => Some (withSts (set_hashCache hc) w, Some err)
    | Some (hc, inr (txnCap, activeRMs, _)) =>
        Some (SubmitTransaction txnCap activeRMs continuation delay
                (withSts (set_hashCache hc) w), None)
    end.

(** Calling the buffered closures in order; what each returns is
    dropped. *)
Fixpoint callBuffered (funcs : list bufferedSubmission) (w : World) : option World :=
  match funcs with
  | [] => Some w
  | fun_ :: funcs =>
      match SubmitClientTransaction (bsTxn fun_) (bsContinuation fun_)
              (bsDelay fun_) w with
      | Some (w, _) => callBuffered funcs w
      | None => None
      end
  end.

(** The first lines of the [topology != nil] branch of
    [TopologyChange]. *)
Definition installTopology (t : Topology) (w : World) : World :=
  withSts (fun s =>
    let s := set_topology t s in
    let s := set_resolver (NewResolver (AllRMs t)) s in
    let s := set_hashCache
               (SetResolverDesiredLen (hashCache s) (resolver s)
                  (NonEmptyLen (AllRMs t))) s in
    match Root t with
    | Some (v, positions) => set_hashCache (AddPosition (hashCache s) v positions) s
    | None => s
    end) w.

(** The [servers != nil] branch of [TopologyChange]. *)
Definition installServers (servers : option (gmap RMId N)) (w : World) : World :=
  match servers with
  | Some servers =>
      withSts (fun s =>
        set_connections (Some servers)
          (set_disabledHashCodes
             (list_to_set (filter (fun rmId => servers !! rmId = None)
                                  (AllRMs (topology s)))) s)) w
  | None => w
  end.

Definition TopologyChange (topology' : option Topology)
    (servers : option (gmap RMId N)) (w : World) : option World :=
  let afterTopology :=
    match topology' with
    | Some t =>
        let w := installTopology t w in
        match bufferedSubmissions (sts w) with
        | Some funcs =>
            if negb (isBlankTopology t)
            then callBuffered funcs (withSts (set_bufferedSubmissions None) w)
            else Some w
        | None => Some w
        end
    | None => Some w
    end in
  match afterTopology with
  | None => None
  | Some w => Some (installServers servers w)
  end.

(** What the continuations of a list of calls see: the calls made one
    after the other, with what each returns. *)
Fixpoint submitEach (calls : list bufferedSubmission) (w : World)
    : option (World * list (option Error)) :=
  match calls with
  | [] => Some (w, [])
  | c :: calls =>
      match SubmitClientTransaction (bsTxn c) (bsContinuation c) (bsDelay c) w with
      | Some (w, r) =>
          match submitEach calls w with
          | Some (w, rs) => Some (w, r :: rs)
          | None => None
          end
      | None => None
      end
  end.

(** Outcomes arriving one after the other. *)
Definition deliverEach (ds : list (RMId * TxnId * Outcome)) (w : World) : World :=
  fold_left (fun w d => SubmissionOutcomeReceived d.1.1 d.1.2 d.2 w) ds w.

(** The closures waiting in the buffer (a nil slice holds none). *)
Definition bufferedCalls (w : World) : list bufferedSubmission :=
  default [] (bufferedSubmissions (sts w)).

(** Every consumer is registered under the id of its own transaction,
    as [SubmitTransaction] registers it. *)
Definition consumersKeyed (w : World) : Prop :=
  forall t c, outcomeConsumers (sts w) !! t = Some c ->
              sfTxnId (cShutdownFun c) = t.

(** An invocation of a continuation for transaction [t]. *)
Definition continues (t : TxnId) (e : Effect) : Prop :=
  match e with
  | Continuation _ t' _ => t' = t
  | _ => False
  end.

(** Every action index collected for a replica lies in [lo, hi). *)
Definition indicesWithin (lo hi : Z) (m : gmap RMId (list Z)) : Prop :=
  forall r l, m !! r = Some l -> Forall (fun i => (lo <= i < hi)%Z) l.

(** The transaction a registered sender submits. *)
Definition submittedId (e : Effect) : option TxnId :=
  match e with
  | AddSender s =>
      match rsMsg s with
      | TxnSubmission t => Some (Id t)
      | _ => None
      end
  | _ => None
  end.

(** The transaction a continuation is called for. *)
Definition continuedId (e : Effect) : option TxnId :=
  match e with
  | Continuation _ t _ => Some t
  | _ => None
  end.

(** What [setAllocations] writes for one replica. *)
Definition allocated (s : SimpleTxnSubmitter) (indices : gmap RMId (list Z))
    (active : bool) (rmId : RMId) (al : Allocation) : Prop :=
  RmId al = rmId /\
  (exists l, indices !! rmId = Some l /\
             ActionIndices al = map uint16 (sortInts l)) /\
  (if active
   then exists conns, connections s = Some conns /\ conns !! rmId = Some (Active al)
   else Active al = 0%N).

Definition NewSimpleTxnSubmitter (rmId : RMId) (bootCount : N) (topology : Topology)
    : SimpleTxnSubmitter :=
  let resolver := NewResolver (AllRMs topology) in
  let cache := NewCache resolver (NonEmptyLen (AllRMs topology)) in
  let cache :=
    match Root topology with
    | Some (v, positions) => AddPosition cache v positions
    | None => cache
    end in
  {| rmId := rmId; bootCount := bootCount;
     disabledHashCodes := list_to_set (AllRMs topology);
     connections := None; outcomeConsumers := ∅; onShutdown := ∅;
     resolver := resolver; hashCache := cache; topology := topology;
     bufferedSubmissions := None |}.

(** [EnsurePositions] ranges over the map in the order [map_to_list]
    gives. *)
Definition EnsurePositions (varPosMap : gmap VarUUId Bytes) (w : World) : World :=
  withSts (fun s =>
    set_hashCache
      (fold_left (fun hc (vp : VarUUId * Bytes) => AddPosition hc vp.1 vp.2)
                 (map_to_list varPosMap) (hashCache s)) s) w.

End Submitter.

(** *** Collaborators for examples *)

(** Modelled from the spec: the outcome accumulator, which is in package
    [paxos] but not in the files embedded here.  It keeps the latest
    outcome of each acceptor named in the transaction and reports an
    outcome once [FInc] of them agree on it. *)
Definition agreeingOutcome (oa : N * list RMId * list (RMId * Outcome))
    (sender : RMId) (outcome : Outcome)
    : (N * list RMId * list (RMId * Outcome)) * option Outcome :=
  let '(fInc, acceptors, seen) := oa in
  if bool_decide (sender ∈ acceptors)
  then
    let seen := (sender, outcome) :: filter (fun so => so.1 ≠ sender) seen in
    let agree := length (filter (fun so => so.2 = outcome) seen) in
    ((fInc, acceptors, seen),
     if bool_decide (N.to_nat fInc <= agree)%nat then Some outcome else None)
  else (oa, None).

(** Every variable hashes to the replicas in the order the topology
    lists them; the picker takes the first [FInc] replicas of the first
    permutation it is given as the active ones; the acceptors of a
    transaction are the replicas of its allocations; a topology without
    replicas is the blank one. *)
Definition exampleCollaborators : Collaborators :=
  {| isBlankTopology := fun t => bool_decide (AllRMs t = []);
     NonEmptyLen := fun rms => length rms;
     Resolver := list RMId;
     NewResolver := fun rms => rms;
     ConsistentHashCache := list RMId * gmap VarUUId Bytes;
     NewCache := fun r _ => (r, ∅);
     SetResolverDesiredLen := fun hc r _ => (r, hc.2);
     AddPosition := fun hc v p => (hc.1, <[v := p]> hc.2);
     GetPositions := fun hc v => hc.2 !! v;
     GetHashCodes := fun hc v => (hc, inr hc.1);
     CreatePositions := fun hc v _ =>
       ((hc.1, <[v := [0%N]]> hc.2), inr ([0%N], Some hc.1));
     CombinationPicker := N * option (list RMId);
     NewCombinationPicker := fun fInc _ => (fInc, None);
     AddPermutation := fun p perm =>
       match p.2 with
       | None => (p.1, Some perm)
       | Some _ => p
       end;
     Choose := fun p =>
       match p.2 with
       | None => inl (CollaboratorError 1%N)
       | Some perm => inr (take (N.to_nat p.1) perm, drop (N.to_nat p.1) perm)
       end;
     OutcomeAccumulator := N * list RMId * list (RMId * Outcome);
     NewOutcomeAccumulator := fun fInc acceptors => (fInc, acceptors, []);
     BallotOutcomeReceived := agreeingOutcome;
     GetAcceptorsFromTxn := fun txn => map RmId (Allocations txn) |}.

Definition blankTopology : Topology :=
  {| AllRMs := []; TopologyFInc := 0%N; TwoFInc := 0%nat; MaxRMCount := 0%nat;
     Version := 0%N; Root := None |}.

(** Three replicas, [FInc = 2], [TwoFInc = 3]. *)
Definition threeReplicas : Topology :=
  {| AllRMs := [1%N; 2%N; 3%N]; TopologyFInc := 2%N; TwoFInc := 3%nat;
     MaxRMCount := 3%nat; Version := 1%N; Root := None |}.

(** One replica, [FInc = 1], [TwoFInc = 1]. *)
Definition oneReplica : Topology :=
  {| AllRMs := [1%N]; TopologyFInc := 1%N; TwoFInc := 1%nat;
     MaxRMCount := 1%nat; Version := 1%N; Root := None |}.

(** Boot counts 5, 7 and 9 seen for replicas 1, 2 and 3. *)
Definition exampleServers : gmap RMId N :=
  {[ 1%N := 5%N; 2%N := 7%N; 3%N := 9%N ]}.

(** A submitter created before the topology is known, then told of its
    connections. *)
Definition blankWorld : @World exampleCollaborators :=
  installServers (Some exampleServers)
    {| sts := @NewSimpleTxnSubmitter exampleCollaborators 9%N 1%N blankTopology;
       nextAddr := 0%N; effects := [] |}.

(** A submitter that knows the three replicas and their connections,
    and one that knows the single replica. *)
Definition readyWorld : @World exampleCollaborators :=
  installServers (Some exampleServers) (installTopology threeReplicas blankWorld).

Definition singleWorld : @World exampleCollaborators :=
  installServers (Some exampleServers) (installTopology oneReplica blankWorld).

Definition writeTxn (id : TxnId) (v : VarUUId) : ClientTxn :=
  {| CId := id; CRetry := false;
     CActions := [ {| CVarId := v; CBody := CLIENTACTION_WRITE [1%N] [] |} ] |}.

Definition readAction : ClientAction :=
  {| CVarId := 100%N; CBody := CLIENTACTION_READ [] |}.

(** What [readAction] translates to. *)
Definition readServerAction : Action :=
  {| ActVarId := 100%N; ActBody := ARead [] |}.

(** A transaction of [n] reads. *)
Definition readsTxn (n : nat) : ClientTxn :=
  {| CId := 13%N; CRetry := false; CActions := replicate n readAction |}.

(** Two calls, for transactions 11 and 12, with continuations 1 and 2. *)
Definition twoCalls : list bufferedSubmission :=
  [ {| bsTxn := writeTxn 11%N 100%N; bsContinuation := 1%N; bsDelay := 0%N |};
    {| bsTxn := writeTxn 12%N 101%N; bsContinuation := 2%N; bsDelay := 0%N |} ].

End client.

(** ** Traces of an acceptor *)

Module acceptor_traces.

Import msgs paxos.

#[global] Instance Allocation_eq_dec : EqDecision Allocation.
Proof. solve_decision. Defined.

#[global] Instance VarIdPos_eq_dec : EqDecision VarIdPos.
Proof. solve_decision. Defined.

#[global] Instance ActionBody_eq_dec : EqDecision ActionBody.
Proof. solve_decision. Defined.

#[global] Instance Action_eq_dec : EqDecision Action.
Proof. solve_decision. Defined.

#[global] Instance Txn_eq_dec : EqDecision Txn.
Proof. solve_decision. Defined.

#[global] Instance Message_eq_dec : EqDecision Message.
Proof. solve_decision. Defined.

#[global] Instance twoBTxnVotesSender_eq_dec : EqDecision twoBTxnVotesSender.
Proof. solve_decision. Defined.

Section Traces.

Context `{BallotAccumulatorOps}.

(** The connection manager as one acceptor's calls drive it: the sender
    it holds for the acceptor, if any.  The result is [None] once the
    calls went wrong: a sender added while another is held, or the
    removal of a sender that is not the one held. *)
Definition senderCall (held : option (option twoBTxnVotesSender)) (e : Effect)
    : option (option twoBTxnVotesSender) :=
  match held with
  | None => None
  | Some cur =>
      match e with
      | AddSender s =>
          match cur with
          | None => Some (Some s)
          | Some _ => None
          end
      | RemoveSenderSync s =>
          if decide (cur = Some s) then Some None else None
      | _ => Some cur
      end
  end.

Definition heldSender (es : list Effect) : option (option twoBTxnVotesSender) :=
  fold_left senderCall es (Some None).

(** The acceptor's own record of its sender agrees with what the
    connection manager holds. *)
Definition senderHeld (w : World) : Prop :=
  heldSender (effects w) = Some (twoBSender (acc w)).

Definition count (f : Effect -> bool) (es : list Effect) : nat :=
  length (List.filter f es).

Definition isDiskDel (e : Effect) : bool :=
  match e with DiskDel _ _ => true | _ => false end.

Definition isAcceptorFinished (e : Effect) : bool :=
  match e with AcceptorFinished _ => true | _ => false end.

(** The calls an acceptor for transaction [t] makes about [t]: the key
    of every disk operation, the transaction it reports as finished and
    the one its one-shot message names. *)
Definition aboutTxn (t : TxnId) (e : Effect) : Prop :=
  match e with
  | LogBallotAfterTLCs t' _ => t' = t
  | DiskPut key _ k => key = t
  | DiskDel key k => key = t /\ k = deletionDoneK
  | RemoveSenderSync _ => True
  | AddSender _ => True
  | AcceptorFinished t' => t' = t
  | OneShotSender m _ => m = TxnGloballyComplete t
  end.

(** In [acceptorWriteToDisk] there is an outcome to write. *)
Definition hasOutcomeToWrite (w : World) : Prop :=
  currentState (acc w) = Some acceptorWriteToDisk -> is_Some (outcome (acc w)).

(** While the acceptor waits in [acceptorAwaitLocallyComplete] its 2B
    sender is registered, it awaits exactly the recipients of that sender
    that have sent no TLC, and something is still outstanding. *)
Definition awaiting (w : World) : Prop :=
  let a := acc w in
  currentState a = Some acceptorAwaitLocallyComplete ->
  exists s, twoBSender a = Some s /\
    pendingTLC a = list_to_set (recipients s) ∖ tlcsReceived a /\
    (pendingTLC a <> ∅ \/ tscReceived a = false).

(** Outside [acceptorWriteToDisk] and [acceptorAwaitLocallyComplete]
    the acceptor has no 2B sender. *)
Definition idleWithoutSender (w : World) : Prop :=
  let a := acc w in
  currentState a <> Some acceptorWriteToDisk ->
  currentState a <> Some acceptorAwaitLocallyComplete ->
  twoBSender a = None.

(** Deletions scheduled, against those reported finished plus the one in
    flight while in [acceptorDeleteFromDisk]. *)
Definition deletionsAccounted (w : World) : Prop :=
  (count isAcceptorFinished (effects w) +
   (if bool_decide (currentState (acc w) = Some acceptorDeleteFromDisk)
    then 1 else 0)
   <= count isDiskDel (effects w))%nat.

(** Everything the acceptor has done so far is about its own
    transaction. *)
Definition ownEffects (t : TxnId) (w : World) : Prop :=
  txnId (acc w) = t /\ Forall (aboutTxn t) (effects w).

(** What holds of an acceptor for transaction [t] along its traces. *)
Definition traced (t : TxnId) (w : World) : Prop :=
  hasOutcomeToWrite w /\ senderHeld w /\ awaiting w /\ idleWithoutSender w /\
  deletionsAccounted w /\ ownEffects t w.

(** Events other than a start and a ballot. *)
Definition isCompletion (e : Event) : bool :=
  match e with
  | EvStart => false
  | EvBallotAccepted _ _ _ _ => false
  | _ => true
  end.

(** The transitions of the state machine: the event that causes each
    and the states it joins. *)
Definition edge (e : Event) (from to : option State) : Prop :=
  match e with
  | EvStart =>
      from = None /\
      (to = Some acceptorReceiveBallots \/ to = Some acceptorAwaitLocallyComplete \/
       to = Some acceptorDeleteFromDisk)
  | EvBallotAccepted _ _ _ _ => to = Some acceptorWriteToDisk
  | EvWriteDone _ _ =>
      from = Some acceptorWriteToDisk /\
      (to = Some acceptorAwaitLocallyComplete \/ to = Some acceptorDeleteFromDisk)
  | EvTxnLocallyCompleteReceived _ =>
      from = Some acceptorAwaitLocallyComplete /\ to = Some acceptorDeleteFromDisk
  | EvTxnSubmissionCompleteReceived _ =>
      from = Some acceptorAwaitLocallyComplete /\ to = Some acceptorDeleteFromDisk
  | EvDeletionDone => from = Some acceptorDeleteFromDisk /\ to = None
  end.

(** A write scheduled for the outcome at address [p]. *)
Definition schedulesWrite (p : OutcomePtr) (e : Effect) : Prop :=
  match e with
  | DiskPut _ _ (writeDoneK (Some q) _) => q = p
  | _ => False
  end.

(** The TLC events of a trace. *)
Definition tlcSenders (es : list Event) : list RMId :=
  omap (fun e => match e with
                 | EvTxnLocallyCompleteReceived r => Some r
                 | _ => None
                 end) es.

End Traces.

(** The acceptor of the example recovered from disk with the abort at
    address 1, not to be sent to all. *)
Definition recoveredWorld : @World ballotDecides :=
  {| acc := @AcceptorFromData ballotDecides 40%N exampleTxn (Some 1%N) false tt;
     outcomes := exampleStore; effects := [] |}.

(** The run of [abortThenComplete], the deletion done, a late ballot for
    the commit at address 2 and a second round to completion. *)
Definition completeTwice : list (@Event ballotDecides) :=
  abortThenComplete ++
  [ @EvDeletionDone ballotDecides;
    @EvDeletionDone ballotDecides;
    @EvBallotAccepted ballotDecides 3%N (Some 2%N) 77%N exampleTxn;
    @EvWriteDone ballotDecides (Some 2%N) true;
    @EvTxnLocallyCompleteReceived ballotDecides 3%N;
    @EvDeletionDone ballotDecides ].

(** The abort at address 1 decided and written: the acceptor waits. *)
Definition abortAwaited : list (@Event ballotDecides) :=
  [ @EvStart ballotDecides;
    @EvTxnLocallyCompleteReceived ballotDecides 2%N;
    @EvBallotAccepted ballotDecides 1%N (Some 1%N) 77%N exampleTxn;
    @EvWriteDone ballotDecides (Some 1%N) false ].

(** A sender to replicas 1 and 2 on behalf of submitter 9. *)
Definition exampleSender : twoBTxnVotesSender :=
  (newTwoBTxnVotesSender exampleStore 1%N 40%N 9%N [1%N; 2%N]).2.

End acceptor_traces.

(** ** Calls on a submitter *)

Module submitter_calls.

Import msgs client.

Section Calls.

Context `{Collaborators}.

(** The calls the rest of the server makes on a submitter. *)
Inductive Call :=
| CallSubmitTransaction (txnCap : Txn) (activeRMs : list RMId)
    (continuation : TxnCompletionConsumer) (delay : N)
| CallSubmitClientTransaction (ctxnCap : ClientTxn)
    (continuation : TxnCompletionConsumer) (delay : N)
| CallSubmissionOutcomeReceived (sender : RMId) (txnId : TxnId) (outcome : Outcome)
| CallTopologyChange (topology : option Topology) (servers : option (gmap RMId N))
| CallEnsurePositions (varPosMap : gmap VarUUId Bytes).

Definition call (c : Call) (w : World) : option World :=
  match c with
  | CallSubmitTransaction txnCap activeRMs k delay =>
      Some (SubmitTransaction txnCap activeRMs k delay w)
  | CallSubmitClientTransaction ctxnCap k delay =>
      fst <$> SubmitClientTransaction ctxnCap k delay w
  | CallSubmissionOutcomeReceived sender txnId outcome =>
      Some (SubmissionOutcomeReceived sender txnId outcome w)
  | CallTopologyChange topology servers => TopologyChange topology servers w
  | CallEnsurePositions varPosMap => Some (EnsurePositions varPosMap w)
  end.

Fixpoint calls (cs : list Call) (w : World) : option World :=
  match cs with
  | [] => Some w
  | c :: cs =>
      match call c w with
      | Some w' => calls cs w'
      | None => None
      end
  end.

(** A submitter as [NewSimpleTxnSubmitter] returns it. *)
Definition created (w : World) : Prop :=
  effects w = [] /\
  exists rmId bootCount topology, sts w = NewSimpleTxnSubmitter rmId bootCount topology.

(** Every consumer is registered under the id of its own transaction,
    calls the continuation its shutdown hook calls, and has that hook
    registered under the hook's own address; no two consumers share a
    hook; the allocator has not yet handed out the addresses beyond
    [nextAddr]. *)
Definition hooked (w : World) : Prop :=
  (forall t c, outcomeConsumers (sts w) !! t = Some c ->
     sfTxnId (cShutdownFun c) = t /\
     sfContinuation (cShutdownFun c) = cContinuation c /\
     onShutdown (sts w) !! cShutdownFunPtr c = Some (cShutdownFun c)) /\
  (forall t1 t2 c1 c2,
     outcomeConsumers (sts w) !! t1 = Some c1 ->
     outcomeConsumers (sts w) !! t2 = Some c2 ->
     cShutdownFunPtr c1 = cShutdownFunPtr c2 -> t1 = t2) /\
  (forall p f, onShutdown (sts w) !! p = Some f -> (p < nextAddr w)%N).

(** A continuation told that there is no outcome. *)
Definition withoutOutcome (e : Effect) : Prop :=
  match e with
  | Continuation _ _ o => o = None
  | _ => True
  end.

(** The transaction a sender, registered at once or after a delay,
    submits. *)
Definition sentId (e : Effect) : option TxnId :=
  match e with
  | AddSender s | AddSenderAfter _ s =>
      match rsMsg s with
      | TxnSubmission t => Some (Id t)
      | _ => None
      end
  | _ => None
  end.

(** Submissions of transaction [t] made, calls of a continuation for it,
    and shutdown hooks held for it. *)
Definition submissions (t : TxnId) (es : list Effect) : nat :=
  length (filter (fun e => sentId e = Some t) es).

Definition continuations (t : TxnId) (es : list Effect) : nat :=
  length (filter (fun e => continuedId e = Some t) es).

Definition hooksFor (t : TxnId) (m : gmap N shutdownFun) : nat :=
  length (filter (fun kf : N * shutdownFun => sfTxnId kf.2 = t) (map_to_list m)).

(** Every submission of [t] has either had its continuation called or
    still has its shutdown hook. *)
Definition accounted (t : TxnId) (w : World) : Prop :=
  (continuations t (effects w) + hooksFor t (onShutdown (sts w)))%nat =
  submissions t (effects w).

(** *** Shape of a translated transaction *)

Definition refsOf (b : ActionBody) : list VarIdPos :=
  match b with
  | ARead _ => []
  | AWrite _ rs => rs
  | AReadwrite _ _ rs => rs
  | ACreate _ _ rs => rs
  | ARoll _ _ rs => rs
  end.

(** The server action has the kind, the version and the value of the
    client action, and references to the same variables in the same
    order. *)
Definition sameKind (cb : ClientActionBody) (b : ActionBody) : Prop :=
  match cb, b with
  | CLIENTACTION_READ ver, ARead ver' => ver' = ver
  | CLIENTACTION_WRITE v rs, AWrite v' rs' => v' = v /\ map RefId rs' = rs
  | CLIENTACTION_READWRITE ver v rs, AReadwrite ver' v' rs' =>
      ver' = ver /\ v' = v /\ map RefId rs' = rs
  | CLIENTACTION_CREATE v rs, ACreate v' _ rs' => v' = v /\ map RefId rs' = rs
  | CLIENTACTION_ROLL ver v rs, ARoll ver' v' rs' =>
      ver' = ver /\ v' = v /\ map RefId rs' = rs
  | _, _ => False
  end.

Definition translated (ca : ClientAction) (a : Action) : Prop :=
  ActVarId a = CVarId ca /\ sameKind (CBody ca) (ActBody a).

(** Action [c] creates variable [x] at positions [P]. *)
Definition creates (x : VarUUId) (P : Bytes) (c : Action) : Prop :=
  ActVarId c = x /\ exists v rs, ActBody c = ACreate v P rs.

(** The action with its references replaced. *)
Definition withRefs (a : Action) (rs : list VarIdPos) : Action :=
  {| ActVarId := ActVarId a;
     ActBody := match ActBody a with
                | ARead ver => ARead ver
                | AWrite v _ => AWrite v rs
                | AReadwrite ver v _ => AReadwrite ver v rs
                | ACreate v P _ => ACreate v P rs
                | ARoll ver v _ => ARoll ver v rs
                end |}.

(** Every list of action indices is non-empty, ascending and bounded by
    [b]. *)
Definition ascending (b : Z) (m : gmap RMId (list Z)) : Prop :=
  forall r l, m !! r = Some l ->
    l <> [] /\ StronglySorted Z.le l /\ Forall (fun i => (i <= b)%Z) l.

(** The replica slots filled in [rmIdToActionIndices]. *)
Definition slots (m : gmap RMId (list Z)) : nat :=
  sum_list_with (fun kl => length kl.2) (map_to_list m).

End Calls.


Definition danglingTxn : ClientTxn :=
  {| CId := 15%N; CRetry := false;
     CActions := [ {| CVarId := 100%N; CBody := CLIENTACTION_WRITE [1%N] [200%N] |} ] |}.

(** Transaction 16 creates variable 200 and writes variable 100 with a
    reference to it; the write comes first. *)
Definition createTxn : ClientTxn :=
  {| CId := 16%N; CRetry := true;
     CActions := [ {| CVarId := 100%N; CBody := CLIENTACTION_WRITE [1%N] [200%N] |};
                   {| CVarId := 200%N; CBody := CLIENTACTION_CREATE [2%N] [] |} ] |}.

(** A submitter created knowing the three replicas, before it is told of
    any connection. *)
Definition unconnectedWorld : @World exampleCollaborators :=
  {| sts := @NewSimpleTxnSubmitter exampleCollaborators 9%N 1%N threeReplicas;
     nextAddr := 0%N; effects := [] |}.

(** The submitter learns of its connections and of the positions of
    variable 100, submits transactions 11 and 16, and hears the commit of transaction 11 from replicas 1
    and 2. *)
Definition exampleCalls : list Call :=
  [ CallTopologyChange None (Some exampleServers);
    CallEnsurePositions {[ 100%N := [0%N] ]};
    CallSubmitClientTransaction (writeTxn 11%N 100%N) 1%N 0%N;
    CallSubmitClientTransaction createTxn 2%N 0%N;
    CallSubmissionOutcomeReceived 1%N 11%N (Commit [8%N]);
    CallSubmissionOutcomeReceived 2%N 11%N (Commit [8%N]) ].

End submitter_calls.

(** * Properties of the acceptor *)

Module AcceptorProofs.

Import msgs paxos.

Section Invariant.
Context `{BallotAccumulatorOps}.
Local Opaque newTwoBTxnVotesSender.

Lemma removeTwoBSender_acc w :
  acc (removeTwoBSender w) = set_twoBSender None (acc w).
Proof.
  unfold removeTwoBSender. destruct (acc w) as [? ? ? ? ? ? ? ? ? ? ? [s|]] eqn:E; simpl; rewrite ?E; done.
Qed.

Lemma removeTwoBSender_outcomes w : outcomes (removeTwoBSender w) = outcomes w.
Proof. unfold removeTwoBSender. by destruct (twoBSender (acc w)). Qed.

Lemma acceptorDeleteFromDisk_start_acc w :
  ∃ w', acceptorDeleteFromDisk_start w = Some w' ∧
        acc w' = set_twoBSender None (acc w) ∧ outcomes w' = outcomes w.
Proof.
  unfold acceptorDeleteFromDisk_start. eexists; split; [done|]. simpl.
  by rewrite removeTwoBSender_acc, removeTwoBSender_outcomes.
Qed.

Lemma maybeDelete_unfold w :
  maybeDelete w =
  if maybeDeleteGuard (acc w)
  then acceptorDeleteFromDisk_start
         (withAcc (set_currentState (Some acceptorDeleteFromDisk)) w)
  else Some w.
Proof.
  unfold maybeDelete, maybeDeleteGuard, nextStateWith.
  destruct (bool_decide_reflect (currentState (acc w) = Some acceptorAwaitLocallyComplete)) as [->|]; simpl; done.
Qed.

Lemma size_zero_empty (s : gset N) : size s = 0%nat ↔ s = ∅.
Proof. rewrite size_empty_iff. apply leibniz_equiv_iff. Qed.

Lemma acceptorAwaitLocallyComplete_start_spec w w' :
  acceptorAwaitLocallyComplete_start w = Some w' →
  ∃ p, outcomeOnDisk (acc w) = Some p ∧
    let r := allocLoop (sendToAllOnDisk (acc w))
               (bool_decide (Which (outcomes w p) = OUTCOME_ABORT))
               (tlcsReceived (acc w))
               (Allocations (baTxn (ballotAccumulator (acc w)))) in
    frame (acc w) (acc w') ∧ sendToAll (acc w') = sendToAll (acc w) ∧
    pendingTLC (acc w') = r.1.2 ∧ tgcRecipients (acc w') = r.2 ∧
    ((currentState (acc w') = Some acceptorDeleteFromDisk ∧
      currentState (acc w) = Some acceptorAwaitLocallyComplete ∧
      tscReceived (acc w) = true ∧ r.1.2 = ∅)
     ∨ currentState (acc w') = currentState (acc w)).
Proof.
  unfold acceptorAwaitLocallyComplete_start.
  rewrite removeTwoBSender_acc, removeTwoBSender_outcomes. simpl.
  destruct (outcomeOnDisk (acc w)) as [p|] eqn:Ep; [|done].
  intros Hs. exists p. split; [done|]. simpl.
  destruct (allocLoop _ _ _ _) as [[twoB pending] tgc] eqn:El. simpl in *.
  destruct (bool_decide_reflect (size pending = 0%nat)) as [Hsz|Hsz]; simpl in Hs.
  - destruct (tscReceived (acc w)) eqn:Etsc; simpl in Hs.
    + rewrite maybeDelete_unfold in Hs. unfold maybeDeleteGuard in Hs. simpl in Hs.
      rewrite removeTwoBSender_acc in Hs. simpl in Hs. rewrite Etsc in Hs.
      rewrite (bool_decide_eq_true_2 _ Hsz) in Hs.
      destruct (bool_decide_reflect (currentState (acc w) = Some acceptorAwaitLocallyComplete)) as [Hc|Hc]; simpl in Hs.
      * unfold acceptorDeleteFromDisk_start in Hs. simplify_eq/=.
        rewrite removeTwoBSender_acc. simpl. rewrite removeTwoBSender_acc. simpl.
        unfold frame; simpl. rewrite Ep, Etsc. split_and!; try done.
        left. split_and!; try done. by apply size_zero_empty.
      * simplify_eq/=. rewrite removeTwoBSender_acc. unfold frame; simpl.
        rewrite Ep, Etsc. split_and!; try done. by right.
    + destruct (newTwoBTxnVotesSender _ _ _ _ _) as [st' sender] eqn:En.
      simplify_eq/=. rewrite removeTwoBSender_acc. unfold frame; simpl.
      rewrite Ep, Etsc. split_and!; try done. by right.
  - destruct (newTwoBTxnVotesSender _ _ _ _ _) as [st' sender] eqn:En.
    simplify_eq/=. rewrite removeTwoBSender_acc. unfold frame; simpl.
    rewrite Ep. split_and!; try done. by right.
Qed.

Lemma acceptorWriteToDisk_start_spec w w' :
  acceptorWriteToDisk_start w = Some w' →
  ∃ p, outcome (acc w) = Some p ∧
    let f := sendToAll (acc w) || bool_decide (Which (outcomes w p) = OUTCOME_COMMIT) in
    acc w' = set_sendToAll f (acc w) ∧ outcomes w' = outcomes w ∧
    effects w' = effects w ++
      [DiskPut (txnId (acc w))
         {| stateTxn := baTxn (ballotAccumulator (acc w));
            stateOutcome := outcomes w p; stateSendToAll := f;
            stateInstances := AddInstancesToSeg (ballotAccumulator (acc w)) |}
         (writeDoneK (Some p) f)].
Proof.
  unfold acceptorWriteToDisk_start. destruct (outcome (acc w)) as [p|]; [|done].
  intros [= <-]. by exists p.
Qed.

Lemma Inv_after_AwaitLocallyComplete_start w w' :
  acceptorAwaitLocallyComplete_start w = Some w' →
  currentState (acc w) = Some acceptorAwaitLocallyComplete →
  outcome (acc w) = outcomeOnDisk (acc w) → Inv w'.
Proof.
  intros Hs Hc Ho.
  destruct (acceptorAwaitLocallyComplete_start_spec _ _ Hs)
    as (p & Hp & (_ & _ & Ho' & Hd' & _ & _ & Htsc) & _ & Hpend & _ & Hst).
  unfold Inv. rewrite Ho', Hd', Htsc, Hpend. split_and!.
  - by intros _.
  - intros Hd. destruct Hst as [(_ & _ & ? & ?)|Hst]; [done|congruence].
  - intros _. by rewrite Hp.
Qed.

Lemma Inv_after_maybeDelete w w' :
  maybeDelete w = Some w' → Inv w → Inv w'.
Proof.
  rewrite maybeDelete_unfold. unfold maybeDeleteGuard.
  destruct (bool_decide_reflect (currentState (acc w) = Some acceptorAwaitLocallyComplete)) as [Hc|Hc];
    simpl; [|by intros [= <-]].
  destruct (tscReceived (acc w)) eqn:Etsc; simpl; [|by intros [= <-]].
  destruct (bool_decide_reflect (size (pendingTLC (acc w)) = 0%nat)) as [Hsz|Hsz];
    simpl; [|by intros [= <-]].
  unfold acceptorDeleteFromDisk_start. intros [= <-] (I1 & I2 & I3).
  unfold Inv. simpl. rewrite removeTwoBSender_acc. simpl. split_and!.
  - intros _. apply I1. congruence.
  - intros _. split; [done|]. by apply size_zero_empty.
  - intros _. apply I3. by left.
Qed.

Lemma step_Inv e w w' : step e w = Some w' → Inv w → Inv w'.
Proof.
  destruct e as [|r i v t|o f|r|r|]; simpl.
  - (* Start *)
    unfold Start. intros Hs HI.
    destruct (currentState (acc w)) eqn:Ec; [by simplify_eq|].
    destruct HI as (I1 & I2 & I3).
    destruct (outcomeOnDisk (acc w)) eqn:Ed.
    + eapply Inv_after_AwaitLocallyComplete_start; [exact Hs|done|].
      simpl. rewrite Ed. apply I1. by rewrite Ec.
    + simpl in Hs. unfold acceptorReceiveBallots_start in Hs. simplify_eq.
      unfold Inv; simpl. split_and!; [|done|intros [?|?]; done].
      intros _. rewrite Ed. apply I1. by rewrite Ec.
  - (* BallotAccepted *)
    unfold BallotAccepted. intros Hs (I1 & I2 & I3).
    set (w1 := if bool_decide _ then _ else _) in Hs.
    assert (acc w1 = acc w) as Ha by (subst w1; by case_bool_decide).
    destruct (BallotReceived _ _ _ _ _ _) as [[ba st] res].
    assert (Inv (withOutcomes st (withAcc (set_ballotAccumulator ba) w1))) as HI.
    { unfold Inv; simpl. by rewrite Ha. }
    destruct res as [o|]; [|by simplify_eq].
    destruct (outcomeEqual st o (outcome (acc w))); simpl in Hs; [by simplify_eq|].
    unfold nextState, nextStateWith in Hs. simpl in Hs.
    apply acceptorWriteToDisk_start_spec in Hs as (p & _ & Hacc & _). simpl in Hacc.
    unfold Inv. rewrite Hacc. simpl. split_and!; [done|done|intros [?|?]; done].
  - (* writeDone *)
    unfold writeDone. intros Hs HI.
    destruct (bool_decide_reflect (outcome (acc w) = o)) as [Ho|Ho]; simpl in Hs; [|by simplify_eq].
    destruct (bool_decide_reflect (currentState (acc w) = Some acceptorWriteToDisk)) as [Hc|Hc];
      simpl in Hs; [|by simplify_eq].
    unfold nextState, nextStateWith in Hs. simpl in Hs. rewrite Hc in Hs. simpl in Hs.
    eapply Inv_after_AwaitLocallyComplete_start; [exact Hs|done|done].
  - (* TLC *)
    unfold TxnLocallyCompleteReceived. simpl. intros Hs HI.
    case_bool_decide as Hc.
    + eapply Inv_after_maybeDelete; [exact Hs|].
      destruct HI as (I1 & I2 & I3). unfold Inv; simpl.
      split_and!; [done| |done]. intros Hd. congruence.
    + simplify_eq. done.
  - (* TSC *)
    unfold TxnSubmissionCompleteReceived. intros Hs HI.
    destruct (tscReceived (acc w)) eqn:Etsc; simpl in Hs; [by simplify_eq|].
    eapply Inv_after_maybeDelete; [exact Hs|].
    destruct HI as (I1 & I2 & I3). unfold Inv; simpl.
    split_and!; [done| |done]. intros Hd. destruct (I2 Hd). congruence.
  - (* deletionDone *)
    unfold deletionDone. intros Hs (I1 & I2 & I3).
    case_bool_decide as Hc; [|by simplify_eq].
    unfold nextState, nextStateWith in Hs. rewrite Hc in Hs. simplify_eq/=.
    unfold Inv; simpl. split_and!; [|done|intros [?|?]; done].
    intros _. apply I1. by rewrite Hc.
Qed.

Lemma run_Inv es w w' : run es w = Some w' → Inv w → Inv w'.
Proof.
  revert w. induction es as [|e es IH]; intros w; simpl.
  - by intros [= <-].
  - destruct (step e w) as [w1|] eqn:Es; [|done].
    intros Hr HI. eapply IH; [exact Hr|]. by eapply step_Inv.
Qed.

Lemma Inv_NewAcceptor t txn st : Inv {| acc := NewAcceptor t txn; outcomes := st; effects := [] |}.
Proof. unfold Inv; simpl. split_and!; [done|done|intros [?|?]; done]. Qed.

Lemma Inv_AcceptorFromData t txn o f i st :
  Inv {| acc := AcceptorFromData t txn o f i; outcomes := st; effects := [] |}.
Proof. unfold Inv; simpl. split_and!; [done|done|intros [?|?]; done]. Qed.

Lemma Initial_Inv w : Initial w → Inv w.
Proof.
  intros [_ [(t & txn & Ha)|(t & txn & o & f & i & Ha)]];
    unfold Inv; rewrite Ha; simpl; (split_and!; [done|done|intros [?|?]; done]).
Qed.

(** C1. Along every run of an acceptor, from either way of constructing
    it, whenever the acceptor is in DeleteFromDisk its pendingTLC is
    empty, tscReceived is set, and the outcome on disk is the outcome in
    memory (and there is one).  The state is entered with these values:
    [acceptorDeleteFromDisk.start] touches none of them. *)
Theorem DeleteFromDisk_only_when_complete w0 es w :
  Initial w0 → run es w0 = Some w →
  currentState (acc w) = Some acceptorDeleteFromDisk →
  pendingTLC (acc w) = ∅ ∧ tscReceived (acc w) = true ∧
  outcomeOnDisk (acc w) = outcome (acc w) ∧ is_Some (outcomeOnDisk (acc w)).
Proof.
  intros Hi Hr Hd. apply Initial_Inv in Hi.
  destruct (run_Inv _ _ _ Hr Hi) as (I1 & I2 & I3).
  destruct (I2 Hd) as [Htsc Hp]. split_and!; [done|done| |by apply I3; right].
  symmetry. apply I1. by rewrite Hd.
Qed.

End Invariant.

(** The acceptor of the example, taken through an abort, the TSC and both
    TLCs, is in DeleteFromDisk with nothing pending. *)
Lemma DeleteFromDisk_only_when_complete_witness :
  ∃ w, @run ballotDecides abortThenComplete exampleWorld = Some w ∧
       pendingTLC (acc w) = ∅ ∧ tscReceived (acc w) = true ∧
       outcomeOnDisk (acc w) = outcome (acc w) ∧ is_Some (outcomeOnDisk (acc w)).
Proof.
  destruct (@run ballotDecides abortThenComplete exampleWorld) as [w|] eqn:E;
    [|by vm_compute in E].
  exists w. split; [done|].
  apply (@DeleteFromDisk_only_when_complete ballotDecides exampleWorld abortThenComplete w).
  - split; [done|]. left. by exists 40%N, exampleTxn.
  - exact E.
  - vm_compute in E. by injection E as <-.
Defined.

Section Ballots.
Context `{BallotAccumulatorOps}.
Local Opaque newTwoBTxnVotesSender.

(** [maybeDelete] calls [nextState(nil)]: the dispatcher it was defined
    over agrees with the full one wherever [maybeDelete] uses it. *)
Lemma maybeDelete_nextState w :
  maybeDelete w = if maybeDeleteGuard (acc w) then nextState None w else Some w.
Proof.
  unfold maybeDelete, maybeDeleteGuard, nextState, nextStateWith.
  destruct (bool_decide_reflect (currentState (acc w) = Some acceptorAwaitLocallyComplete))
    as [->|]; done.
Qed.

(** C2 (as the code has it). A ballot received in DeleteFromDisk is logged
    as an error and then handled as in every other state: it goes to the
    ballot accumulator; when the accumulator answers with an outcome that
    differs from the one held, that outcome is stored and the acceptor
    re-enters WriteToDisk and schedules a write; otherwise nothing but
    the accumulator (and the outcome heap it owns) changes. *)
Theorem BallotAccepted_in_DeleteFromDisk w instanceRMId inst vUUId txn :
  currentState (acc w) = Some acceptorDeleteFromDisk →
  ∃ w', BallotAccepted instanceRMId inst vUUId txn w = Some w' ∧
    let '(ba, st, res) :=
      BallotReceived (ballotAccumulator (acc w)) (outcomes w)
                     instanceRMId inst vUUId txn in
    ballotAccumulator (acc w') = ba ∧
    if changesOutcome st res (outcome (acc w))
    then currentState (acc w') = Some acceptorWriteToDisk ∧
         outcome (acc w') = res ∧
         ∃ data k, effects w' = effects w ++
           [LogBallotAfterTLCs (txnId (acc w)) instanceRMId;
            DiskPut (txnId (acc w)) data k]
    else acc w' = set_ballotAccumulator ba (acc w) ∧ outcomes w' = st ∧
         effects w' = effects w ++ [LogBallotAfterTLCs (txnId (acc w)) instanceRMId].
Proof.
  intros Hd. unfold BallotAccepted. rewrite Hd.
  rewrite bool_decide_eq_true_2 by done. simpl.
  destruct (BallotReceived _ _ _ _ _ _) as [[ba st] res].
  destruct res as [o|]; simpl.
  - destruct (outcomeEqual st o (outcome (acc w))); simpl.
    + eexists; split; [done|]. simpl. done.
    + unfold nextState, nextStateWith, start, leafStart, acceptorWriteToDisk_start. simpl.
      eexists; split; [done|]. simpl. split; [done|]. split; [done|]. split; [done|].
      eexists _, _. by rewrite <-app_assoc.
  - eexists; split; [done|]. simpl. done.
Qed.

End Ballots.

(** C2 (as the spec has it) fails.  The acceptor of the example reaches
    DeleteFromDisk; a ballot that decides the commit at address 2 then
    replaces the outcome and takes the acceptor back to WriteToDisk. *)
Lemma ballot_in_DeleteFromDisk_is_acted_on :
  ∃ w w',
    @run ballotDecides abortThenComplete exampleWorld = Some w ∧
    currentState (acc w) = Some acceptorDeleteFromDisk ∧
    @BallotAccepted ballotDecides 3%N (Some 2%N) 77%N exampleTxn w = Some w' ∧
    currentState (acc w') = Some acceptorWriteToDisk ∧
    outcome (acc w) = Some 1%N ∧ outcome (acc w') = Some 2%N ∧
    acc w' ≠ acc w.
Proof.
  destruct (@run ballotDecides abortThenComplete exampleWorld) as [w|] eqn:E;
    [|by vm_compute in E].
  vm_compute in E. injection E as <-.
  eexists _, _. split; [reflexivity|]. split; [reflexivity|].
  split; [vm_compute; reflexivity|].
  split; [reflexivity|]. split; [reflexivity|]. split; [reflexivity|].
  intros Heq. apply (f_equal currentState) in Heq. discriminate Heq.
Qed.

(** The same run, seen through the theorem: the ballot takes the acceptor
    of the example from DeleteFromDisk back to WriteToDisk. *)
Lemma BallotAccepted_in_DeleteFromDisk_witness :
  ∃ w, @run ballotDecides abortThenComplete exampleWorld = Some w ∧
  ∃ w', @BallotAccepted ballotDecides 3%N (Some 2%N) 77%N exampleTxn w = Some w' ∧
        currentState (acc w') = Some acceptorWriteToDisk.
Proof.
  destruct (@run ballotDecides abortThenComplete exampleWorld) as [w|] eqn:E;
    [|by vm_compute in E].
  exists w. split; [done|].
  vm_compute in E. injection E as <-.
  match goal with
  | |- ∃ w', BallotAccepted _ _ _ _ ?w = _ ∧ _ =>
      destruct (@BallotAccepted_in_DeleteFromDisk ballotDecides w 3%N (Some 2%N)
                  77%N exampleTxn eq_refl) as (w' & Hb & Hrest)
  end.
  exists w'. split; [exact Hb|].
  vm_compute in Hrest. tauto.
Defined.

Section Sender.
Context `{BallotAccumulatorOps}.

(** ** The 2B sender *)

(** C3 (as the code has it). A 2B sender constructed with an Abort outcome
    pre-encodes the submitter-directed SubmissionOutcome from the outcome
    as it was passed in, update payloads included; the outcome record is
    then rewritten to Resubmit, and the TwoBTxnVotes message for the
    recipients carries that rewritten record, without update payloads. *)
Theorem newTwoBTxnVotesSender_abort (st : Store) (p : OutcomePtr) (t : TxnId)
    (sub : RMId) (rs : list RMId) :
  Which (st p) = OUTCOME_ABORT →
  let '(st', s) := newTwoBTxnVotesSender st p t sub rs in
  submitterMsg s = SubmissionOutcome (st p) ∧
  msg s = TwoBTxnVotes (Abort ABORT_RESUBMIT) ∧
  st' p = Abort ABORT_RESUBMIT ∧ (∀ q, q ≠ p → st' q = st q) ∧
  recipients s = rs ∧ submitter s = sub.
Proof.
  intros Hw. unfold newTwoBTxnVotesSender. rewrite decide_True by done. simpl.
  unfold storeSet. rewrite decide_True by done.
  destruct (st p) as [c|a]; [done|]. simpl. split_and!; try done.
  intros q Hq. by rewrite decide_False.
Qed.

Lemma newTwoBTxnVotesSender_commit (st : Store) (p : OutcomePtr) (t : TxnId)
    (sub : RMId) (rs : list RMId) :
  Which (st p) = OUTCOME_COMMIT →
  newTwoBTxnVotesSender st p t sub rs =
  (st, {| msg := TwoBTxnVotes (st p); recipients := rs;
          submitterMsg := SubmissionOutcome (st p); submitter := sub |}).
Proof.
  intros Hw. unfold newTwoBTxnVotesSender. rewrite decide_False; [done|].
  rewrite Hw. done.
Qed.

Lemma newTwoBTxnVotesSender_recipients (st : Store) p t sub rs :
  recipients (newTwoBTxnVotesSender st p t sub rs).2 = rs ∧
  submitter (newTwoBTxnVotesSender st p t sub rs).2 = sub.
Proof. done. Qed.

End Sender.

(** The sender built for the abort with updates at address 1. *)
Lemma newTwoBTxnVotesSender_abort_witness :
  let '(st', s) := newTwoBTxnVotesSender exampleStore 1%N 40%N 9%N [1%N; 2%N] in
  submitterMsg s = SubmissionOutcome (Abort (ABORT_RERUN [[1%N; 2%N; 3%N]])) ∧
  msg s = TwoBTxnVotes (Abort ABORT_RESUBMIT).
Proof.
  pose proof (newTwoBTxnVotesSender_abort exampleStore 1%N 40%N 9%N [1%N; 2%N] eq_refl) as Hs.
  destruct (newTwoBTxnVotesSender exampleStore 1%N 40%N 9%N [1%N; 2%N]) as [st' s].
  destruct Hs as (Hsub & Hmsg & _). split; [exact Hsub | exact Hmsg].
Defined.

(** C3 (as the spec has it) fails.  For the abort with updates at address
    1 the submitter-directed message keeps the updates, and the message
    to the recipients is not the outcome that was passed in. *)
Lemma submitter_message_keeps_updates :
  let s := (newTwoBTxnVotesSender exampleStore 1%N 40%N 9%N [1%N; 2%N]).2 in
  Which (exampleStore 1%N) = OUTCOME_ABORT ∧
  submitterMsg s ≠ SubmissionOutcome (SetResubmit (exampleStore 1%N)) ∧
  (∃ o, submitterMsg s = SubmissionOutcome o ∧ updatesOf o = [[1%N; 2%N; 3%N]]) ∧
  msg s ≠ TwoBTxnVotes (exampleStore 1%N).
Proof.
  simpl. split; [reflexivity|]. split; [discriminate|].
  split; [eexists; split; reflexivity|]. discriminate.
Qed.

Section Allocations.
Context `{BallotAccumulatorOps}.
Local Opaque newTwoBTxnVotesSender.

(** ** The loop over the allocations *)

Lemma triple_eq {A B C} (a a' : A) (b b' : B) (c c' : C) :
  a = a' → b = b' → c = c' → (a, b, c) = (a', b', c').
Proof. by intros -> -> ->. Qed.

Lemma allocLoop_from (s ab : bool) (tlcs : gset RMId) (allocs : list Allocation)
    (t : list RMId) (p : gset RMId) (g : list RMId) :
  fold_left (allocStep s ab tlcs) allocs (t, p, g) =
  (t ++ twoBRecipientsOf s allocs,
   p ∪ (list_to_set (twoBRecipientsOf s allocs) ∖ tlcs),
   g ++ tgcRecipientsOf ab allocs).
Proof.
  revert t p g. induction allocs as [|al allocs IH]; intros t p g.
  - simpl. unfold twoBRecipientsOf, tgcRecipientsOf. simpl.
    rewrite !app_nil_r. apply triple_eq; [done| |done]. set_solver.
  - cbn [fold_left]. unfold allocStep. fold (isActive al).
    unfold twoBRecipientsOf, tgcRecipientsOf in *. rewrite !filter_cons.
    destruct (s || isActive al) eqn:E1; destruct (negb ab || isActive al) eqn:E2;
      rewrite IH; simpl; rewrite <-?app_assoc; simpl;
      (apply triple_eq; [done| |done]);
      first [done | case_bool_decide; set_solver].
Qed.

Lemma allocLoop_spec (s ab : bool) (tlcs : gset RMId) (allocs : list Allocation) :
  allocLoop s ab tlcs allocs =
  (twoBRecipientsOf s allocs,
   list_to_set (twoBRecipientsOf s allocs) ∖ tlcs,
   tgcRecipientsOf ab allocs).
Proof.
  unfold allocLoop. rewrite allocLoop_from. simpl.
  apply triple_eq; [done| |done]. set_solver.
Qed.

Lemma elem_of_twoBRecipientsOf (s : bool) (allocs : list Allocation) (r : RMId) :
  r ∈ twoBRecipientsOf s allocs ↔
  ∃ al, al ∈ allocs ∧ RmId al = r ∧ (s = true ∨ Active al ≠ 0%N).
Proof.
  unfold twoBRecipientsOf. rewrite list_elem_of_fmap. split.
  - intros (al & -> & Hal). apply list_elem_of_filter in Hal as [HP Hin].
    exists al. split_and!; [done|done|]. unfold isActive in HP.
    destruct s; [by left|right]. simpl in HP. by case_bool_decide.
  - intros (al & Hin & <- & HP). exists al. split; [done|].
    apply list_elem_of_filter. split; [|done]. unfold isActive.
    destruct HP as [->|HP]; [done|]. rewrite bool_decide_eq_false_2 by done.
    by destruct s.
Qed.

Lemma elem_of_tgcRecipientsOf (ab : bool) (allocs : list Allocation) (r : RMId) :
  r ∈ tgcRecipientsOf ab allocs ↔
  ∃ al, al ∈ allocs ∧ RmId al = r ∧ (ab = false ∨ Active al ≠ 0%N).
Proof.
  unfold tgcRecipientsOf. rewrite list_elem_of_fmap. split.
  - intros (al & -> & Hal). apply list_elem_of_filter in Hal as [HP Hin].
    exists al. split_and!; [done|done|]. unfold isActive in HP.
    destruct ab; [right|by left]. simpl in HP. by case_bool_decide.
  - intros (al & Hin & <- & HP). exists al. split; [done|].
    apply list_elem_of_filter. split; [|done]. unfold isActive.
    destruct HP as [->|HP]; [done|]. rewrite bool_decide_eq_false_2 by done.
    by destruct ab.
Qed.


End Allocations.

Section AwaitLocallyComplete.
Context `{BallotAccumulatorOps}.
Local Opaque newTwoBTxnVotesSender.

(** ** Effects of the [start] methods *)

Lemma extendsWith_refl P w : extendsWith P w w.
Proof. exists []. by rewrite app_nil_r. Qed.

Lemma extendsWith_trans P w1 w2 w3 :
  extendsWith P w1 w2 → extendsWith P w2 w3 → extendsWith P w1 w3.
Proof.
  intros (n1 & E1 & F1) (n2 & E2 & F2). exists (n1 ++ n2).
  rewrite E2, E1, app_assoc. split; [done|]. by apply Forall_app.
Qed.

Lemma extendsWith_emit P e w : P e → extendsWith P w (emit e w).
Proof. intros He. exists [e]. split; [done|]. by constructor. Qed.

Lemma extendsWith_same P w w' : effects w' = effects w → extendsWith P w w'.
Proof. intros E. exists []. by rewrite app_nil_r. Qed.

Lemma removeTwoBSender_extends w : extendsWith writesToAll w (removeTwoBSender w).
Proof.
  unfold removeTwoBSender. destruct (twoBSender (acc w)); [|apply extendsWith_refl].
  exists [RemoveSenderSync t]. split; [done|]. by constructor.
Qed.

Lemma acceptorDeleteFromDisk_start_extends w w' :
  acceptorDeleteFromDisk_start w = Some w' → extendsWith writesToAll w w'.
Proof.
  unfold acceptorDeleteFromDisk_start. intros [= <-].
  eapply extendsWith_trans; [apply removeTwoBSender_extends|].
  by apply extendsWith_emit.
Qed.

Lemma maybeDelete_extends w w' :
  maybeDelete w = Some w' →
  extendsWith writesToAll w w' ∧ sendToAll (acc w') = sendToAll (acc w) ∧
  outcomes w' = outcomes w.
Proof.
  rewrite maybeDelete_unfold. destruct (maybeDeleteGuard (acc w)).
  - intros Hs. split.
    + apply acceptorDeleteFromDisk_start_extends in Hs.
      destruct Hs as (new & E & F). by exists new.
    + unfold acceptorDeleteFromDisk_start in Hs. simplify_eq/=.
      by rewrite removeTwoBSender_acc, removeTwoBSender_outcomes.
  - intros [= <-]. split; [apply extendsWith_refl|done].
Qed.

(** What [acceptorAwaitLocallyComplete.start] leaves behind, with the
    loop over the allocations in closed form. *)
Lemma acceptorAwaitLocallyComplete_start_result w w' :
  acceptorAwaitLocallyComplete_start w = Some w' →
  ∃ p, outcomeOnDisk (acc w) = Some p ∧
    let allocs := Allocations (baTxn (ballotAccumulator (acc w))) in
    let twoB := twoBRecipientsOf (sendToAllOnDisk (acc w)) allocs in
    pendingTLC (acc w') = list_to_set twoB ∖ tlcsReceived (acc w) ∧
    tgcRecipients (acc w') =
      tgcRecipientsOf (bool_decide (Which (outcomes w p) = OUTCOME_ABORT)) allocs ∧
    extendsWith writesToAll w w' ∧
    ((twoBSender (acc w') = None ∧ outcomes w' = outcomes w) ∨
     (twoBSender (acc w') =
        Some (newTwoBTxnVotesSender (outcomes w) p (txnId (acc w))
                (Submitter (baTxn (ballotAccumulator (acc w)))) twoB).2 ∧
      outcomes w' =
        (newTwoBTxnVotesSender (outcomes w) p (txnId (acc w))
                (Submitter (baTxn (ballotAccumulator (acc w)))) twoB).1 ∧
      currentState (acc w') = currentState (acc w))).
Proof.
  intros Hs.
  destruct (acceptorAwaitLocallyComplete_start_spec _ _ Hs) as (p & Hp & Hspec).
  exists p. split; [done|]. rewrite allocLoop_spec in Hspec. simpl in Hspec.
  destruct Hspec as (_ & _ & Hpend & Htgc & _). simpl.
  split; [done|]. split; [done|].
  revert Hs. unfold acceptorAwaitLocallyComplete_start.
  rewrite removeTwoBSender_acc, removeTwoBSender_outcomes. simpl. rewrite Hp.
  rewrite allocLoop_spec.
  set (w1 := withAcc _ (removeTwoBSender w)).
  assert (extendsWith writesToAll w w1) as Hw1.
  { eapply extendsWith_trans; [apply removeTwoBSender_extends|].
    by apply extendsWith_same. }
  assert (twoBSender (acc w1) = None) as Hnone.
  { subst w1. simpl. by rewrite removeTwoBSender_acc. }
  assert (outcomes w1 = outcomes w) as Hout.
  { subst w1. simpl. by rewrite removeTwoBSender_outcomes. }
  destruct (_ && _).
  - intros Hm. pose proof (maybeDelete_extends _ _ Hm) as (He & _ & Ho).
    split; [by eapply extendsWith_trans|]. left.
    rewrite maybeDelete_unfold in Hm. destruct (maybeDeleteGuard (acc w1)).
    + unfold acceptorDeleteFromDisk_start in Hm. simplify_eq/=.
      rewrite !removeTwoBSender_acc, !removeTwoBSender_outcomes. simpl.
      by rewrite removeTwoBSender_outcomes.
    + simplify_eq. by rewrite Hnone, Hout.
  - destruct (newTwoBTxnVotesSender _ _ _ _ _) as [st' s] eqn:En.
    intros [= <-]. simpl. split.
    + eapply extendsWith_trans; [exact Hw1|].
      destruct Hw1 as (new & E & F). exists [AddSender s]. split; [done|].
      by constructor.
    + right. rewrite removeTwoBSender_outcomes in En. rewrite En.
      by rewrite removeTwoBSender_acc.
Qed.

(** C5. On entry to AwaitLocallyComplete, with [allocs] the allocations
    of the transaction: a replica is a 2B recipient iff it has an
    allocation that is active or sendToAllOnDisk is set; it is in
    pendingTLC iff it is a 2B recipient from which no TLC has been
    received; it is a TGC recipient iff it has an allocation that is
    active or the outcome on disk is a commit.  The sender installed, if
    any, is addressed to exactly the 2B recipients; pendingTLC is
    included in the 2B recipients and these in the allocation replicas. *)
Theorem AwaitLocallyComplete_start_recipients w w' :
  acceptorAwaitLocallyComplete_start w = Some w' →
  ∃ p twoBRecipients,
    outcomeOnDisk (acc w) = Some p ∧
    let allocs := Allocations (baTxn (ballotAccumulator (acc w))) in
    (∀ r, r ∈ twoBRecipients ↔
          ∃ al, al ∈ allocs ∧ RmId al = r ∧
                (sendToAllOnDisk (acc w) = true ∨ Active al ≠ 0%N)) ∧
    (∀ r, r ∈ pendingTLC (acc w') ↔
          r ∈ twoBRecipients ∧ r ∉ tlcsReceived (acc w)) ∧
    (∀ r, r ∈ tgcRecipients (acc w') ↔
          ∃ al, al ∈ allocs ∧ RmId al = r ∧
                (Which (outcomes w p) = OUTCOME_COMMIT ∨ Active al ≠ 0%N)) ∧
    (∀ s, twoBSender (acc w') = Some s → recipients s = twoBRecipients) ∧
    (∀ r, r ∈ pendingTLC (acc w') → r ∈ twoBRecipients) ∧
    (∀ r, r ∈ twoBRecipients → r ∈ map RmId allocs).
Proof.
  intros Hs.
  destruct (acceptorAwaitLocallyComplete_start_result _ _ Hs)
    as (p & Hp & Hpend & Htgc & _ & Hsender).
  exists p, (twoBRecipientsOf (sendToAllOnDisk (acc w))
               (Allocations (baTxn (ballotAccumulator (acc w))))).
  split; [done|]. simpl. split_and!.
  - intros r. apply elem_of_twoBRecipientsOf.
  - intros r. rewrite Hpend. set_solver.
  - intros r. rewrite Htgc, elem_of_tgcRecipientsOf.
    split; intros (al & Hin & Hr & Hc); exists al; (split_and!; [done|done|]).
    + destruct Hc as [Hc|Hc]; [left|by right].
      apply bool_decide_eq_false in Hc. by destruct (outcomes w p).
    + destruct Hc as [Hc|Hc]; [left|by right].
      apply bool_decide_eq_false. by rewrite Hc.
  - intros s Hs'. destruct Hsender as [[Hn _]|(Hsome & _)]; [congruence|].
    rewrite Hsome in Hs'. injection Hs' as <-.
    apply newTwoBTxnVotesSender_recipients.
  - intros r. rewrite Hpend. set_solver.
  - intros r. rewrite elem_of_twoBRecipientsOf. intros (al & Hin & <- & _).
    apply list_elem_of_fmap. by exists al.
Qed.

End AwaitLocallyComplete.

Section WriteToDisk.
Context `{BallotAccumulatorOps}.
Local Opaque newTwoBTxnVotesSender.

Lemma acceptorAwaitLocallyComplete_start_total w p :
  outcomeOnDisk (acc w) = Some p →
  ∃ w', acceptorAwaitLocallyComplete_start w = Some w'.
Proof.
  intros Hp. unfold acceptorAwaitLocallyComplete_start.
  rewrite removeTwoBSender_acc. simpl. rewrite Hp.
  destruct (allocLoop _ _ _ _) as [[twoB pending] tgc].
  destruct (_ && _).
  - rewrite maybeDelete_unfold. destruct (maybeDeleteGuard _); by eexists.
  - destruct (newTwoBTxnVotesSender _ _ _ _ _). by eexists.
Qed.

(** C4. The completion of a disk write started for outcome [X] with flag
    [flag]: when the outcome in memory is still [X] and the state is
    still WriteToDisk, the acceptor records [X] and [flag] as what is on
    disk and enters AwaitLocallyComplete (whose start may take it
    straight on to DeleteFromDisk); in every other case the completion
    changes nothing at all.  So the completion acts iff the guard holds. *)
Theorem writeDone_guarded w (X : OutcomePtr) (flag : bool) :
  if bool_decide (outcome (acc w) = Some X)
     && bool_decide (currentState (acc w) = Some acceptorWriteToDisk)
  then ∃ w', writeDone (Some X) flag w = Some w' ∧
         writeDone (Some X) flag w =
           acceptorAwaitLocallyComplete_start
             (withAcc (set_currentState (Some acceptorAwaitLocallyComplete))
                (withAcc (λ a, set_sendToAllOnDisk flag (set_outcomeOnDisk (Some X) a)) w)) ∧
         outcomeOnDisk (acc w') = Some X ∧ sendToAllOnDisk (acc w') = flag ∧
         outcome (acc w') = Some X ∧
         (currentState (acc w') = Some acceptorAwaitLocallyComplete ∨
          currentState (acc w') = Some acceptorDeleteFromDisk) ∧
         w' ≠ w
  else writeDone (Some X) flag w = Some w.
Proof.
  unfold writeDone.
  destruct (bool_decide_reflect (outcome (acc w) = Some X)) as [Ho|Ho]; simpl; [|done].
  destruct (bool_decide_reflect (currentState (acc w) = Some acceptorWriteToDisk))
    as [Hc|Hc]; simpl; [|done].
  unfold nextState, nextStateWith. simpl. rewrite Hc. simpl.
  set (w1 := withAcc (set_currentState _) _).
  destruct (acceptorAwaitLocallyComplete_start_total w1 X eq_refl) as [w' Hs].
  exists w'. split; [done|]. split; [done|].
  destruct (acceptorAwaitLocallyComplete_start_spec _ _ Hs)
    as (p & Hp & (_ & _ & Ho' & Hd' & Hf' & _) & _ & _ & _ & Hst).
  simpl in *. split_and!; [done|done|congruence| |].
  - destruct Hst as [[-> _] | ->]; [by right|by left].
  - intros ->. destruct Hst as [(Hst & _)|Hst]; congruence.
Qed.

Lemma acceptorWriteToDisk_start_total w p :
  outcome (acc w) = Some p → ∃ w', acceptorWriteToDisk_start w = Some w'.
Proof. intros Hp. unfold acceptorWriteToDisk_start. rewrite Hp. by eexists. Qed.



End WriteToDisk.

Section SendToAll.
Context `{BallotAccumulatorOps}.
Local Opaque newTwoBTxnVotesSender.


End SendToAll.

(** Entering AwaitLocallyComplete with the abort at address 1 on disk and
    a TLC from replica 2 already received. *)
Lemma AwaitLocallyComplete_start_recipients_witness :
  ∃ w', @acceptorAwaitLocallyComplete_start ballotDecides abortWritten = Some w' ∧
    (∀ r, r ∈ pendingTLC (acc w') → r ∈ map RmId (Allocations exampleTxn)) ∧
    (∀ r, r ∈ tgcRecipients (acc w') ↔
          ∃ al, al ∈ Allocations exampleTxn ∧ RmId al = r ∧
                (Which (exampleStore 1%N) = OUTCOME_COMMIT ∨ Active al ≠ 0%N)).
Proof.
  destruct (@acceptorAwaitLocallyComplete_start ballotDecides abortWritten)
    as [w'|] eqn:E; [|by vm_compute in E].
  exists w'.
  destruct (@AwaitLocallyComplete_start_recipients ballotDecides abortWritten w' E)
    as (p & twoB & Hp & _ & _ & Htgc & _ & Hpend & Hall).
  injection Hp as <-. split; [done|]. split; [|exact Htgc].
  intros r Hr. apply Hall, Hpend, Hr.
Defined.

(** The commit write is superseded by the abort write before it
    completes: its completion changes nothing, the completion of the
    abort write is the one that acts. *)
Lemma writeDone_guarded_witness :
  ∃ w, @run ballotDecides commitThenAbort exampleWorld = Some w ∧
    @writeDone ballotDecides (Some 2%N) true w = Some w ∧
    ∃ w', @writeDone ballotDecides (Some 1%N) true w = Some w' ∧
          outcomeOnDisk (acc w') = Some 1%N ∧ sendToAllOnDisk (acc w') = true.
Proof.
  destruct (@run ballotDecides commitThenAbort exampleWorld) as [w|] eqn:E;
    [|by vm_compute in E].
  exists w. split; [done|].
  assert (outcome (acc w) = Some 1%N ∧
          currentState (acc w) = Some acceptorWriteToDisk) as [Ho Hc].
  { vm_compute in E. by injection E as <-. }
  pose proof (@writeDone_guarded ballotDecides w 2%N true) as Hold.
  pose proof (@writeDone_guarded ballotDecides w 1%N true) as Hnew.
  rewrite Ho, Hc in Hold, Hnew. simpl in Hold, Hnew.
  split; [exact Hold|].
  destruct Hnew as (w' & Hw & _ & Hd & Hf & _). by exists w'.
Defined.


End AcceptorProofs.

(** * Properties of the transaction submitter *)

Module SubmitterProofs.

Import msgs client.

Section Buffering.
Context `{Collaborators}.

Lemma SubmitClientTransaction_blank ctxn k d w :
  isBlankTopology (topology (sts w)) = true →
  SubmitClientTransaction ctxn k d w =
  Some (withSts (set_bufferedSubmissions
                   (Some (bufferedCalls w ++
                          [{| bsTxn := ctxn; bsContinuation := k; bsDelay := d |}]))) w,
        None).
Proof.
  intros Hb. unfold SubmitClientTransaction, bufferedCalls. rewrite Hb.
  unfold withSts. by destruct (bufferedSubmissions (sts w)).
Qed.

Lemma submitEach_blank cs w :
  isBlankTopology (topology (sts w)) = true → cs ≠ [] →
  submitEach cs w =
  Some (withSts (set_bufferedSubmissions (Some (bufferedCalls w ++ cs))) w,
        replicate (length cs) None).
Proof.
  revert w. induction cs as [|c cs IH]; intros w Hb Hne; [done|].
  simpl. destruct c as [ctxn k d]. simpl.
  rewrite SubmitClientTransaction_blank by done.
  destruct cs as [|c' cs'].
  - simpl. done.
  - rewrite IH; [|done|done]. unfold bufferedCalls, withSts. simpl.
    by rewrite <-app_assoc.
Qed.

Lemma callBuffered_submitEach cs w :
  callBuffered cs w = fst <$> submitEach cs w.
Proof.
  revert w. induction cs as [|c cs IH]; intros w; [done|]. simpl.
  destruct (SubmitClientTransaction _ _ _ w) as [[w1 r]|]; [|done].
  rewrite IH. by destruct (submitEach cs w1) as [[w2 rs]|].
Qed.

Lemma installTopology_buffered t b w :
  withSts (set_bufferedSubmissions None)
          (installTopology t (withSts (set_bufferedSubmissions b) w)) =
  withSts (set_bufferedSubmissions None) (installTopology t w).
Proof.
  unfold installTopology, withSts. simpl. by destruct (Root t) as [[v p]|].
Qed.

Lemma installTopology_bufferedSubmissions t w :
  bufferedSubmissions (sts (installTopology t w)) = bufferedSubmissions (sts w).
Proof. unfold installTopology. simpl. by destruct (Root t) as [[v p]|]. Qed.

(** C6. While the topology is the blank one, calls of
    SubmitClientTransaction return nil and change nothing but the buffer,
    to which they are appended in order: nothing is translated, no sender
    is registered, no effect happens.  A TopologyChange that then installs
    a topology other than the blank one empties the buffer and makes the
    buffered calls, oldest first: the outcome is that of installing the
    topology and then making those calls one after the other in the order
    they were submitted. *)
Theorem buffered_until_topology w cs t servers :
  isBlankTopology (topology (sts w)) = true →
  isBlankTopology t = false →
  cs ≠ [] →
  ∃ wb,
    submitEach cs w = Some (wb, replicate (length cs) None) ∧
    sts wb = set_bufferedSubmissions (Some (bufferedCalls w ++ cs)) (sts w) ∧
    effects wb = effects w ∧ nextAddr wb = nextAddr w ∧
    TopologyChange (Some t) servers wb =
      (λ r, installServers servers r.1) <$>
        submitEach (bufferedCalls w ++ cs)
          (withSts (set_bufferedSubmissions None) (installTopology t w)).
Proof.
  intros Hb Ht Hne. eexists. split; [by apply submitEach_blank|].
  split; [done|]. split; [done|]. split; [done|].
  unfold TopologyChange. rewrite installTopology_bufferedSubmissions. simpl.
  rewrite Ht. simpl. rewrite installTopology_buffered, callBuffered_submitEach.
  by destruct (submitEach _ _) as [[w' rs]|].
Qed.

End Buffering.

(** Two calls made under the blank topology are buffered; installing the
    three replicas submits transaction 11, then transaction 12. *)
Lemma buffered_until_topology_witness :
  ∃ wb,
    @submitEach exampleCollaborators twoCalls blankWorld = Some (wb, [None; None]) ∧
    effects wb = effects blankWorld ∧
    ∃ w', @TopologyChange exampleCollaborators (Some threeReplicas) None wb = Some w' ∧
          map submittedId (effects w') = [Some 11%N; Some 12%N].
Proof.
  destruct (@buffered_until_topology exampleCollaborators blankWorld twoCalls
              threeReplicas None) as (wb & Hs & _ & He & _ & Ht);
    [vm_compute; reflexivity | vm_compute; reflexivity | done |].
  exists wb. split; [exact Hs|]. split; [exact He|]. rewrite Ht.
  assert (from_option
            (λ r, map submittedId (effects (@installServers exampleCollaborators None r.1)))
            []
            (@submitEach exampleCollaborators
               (@bufferedCalls exampleCollaborators blankWorld ++ twoCalls)
               (withSts (set_bufferedSubmissions None)
                  (@installTopology exampleCollaborators threeReplicas blankWorld)))
          = [Some 11%N; Some 12%N]) as Hsent by (vm_compute; reflexivity).
  clear Hs Ht.
  destruct (@submitEach exampleCollaborators _ _) as [[w' rs]|];
    [|simpl in Hsent; discriminate Hsent].
  eexists. split; [reflexivity|]. exact Hsent.
Defined.

Section Outcomes.
Context `{Collaborators}.

Lemma SubmissionOutcomeReceived_unknown sender t outcome w :
  outcomeConsumers (sts w) !! t = None →
  SubmissionOutcomeReceived sender t outcome w =
  emit (OneShotSender (TxnSubmissionComplete t) [sender]) w.
Proof. intros Hn. unfold SubmissionOutcomeReceived. by rewrite Hn. Qed.

(** One delivery, to whatever transaction, leaves a transaction without a
    consumer without one and calls no continuation for it. *)
Lemma delivery_elsewhere sender t' outcome t w :
  outcomeConsumers (sts w) !! t = None →
  let w' := SubmissionOutcomeReceived sender t' outcome w in
  outcomeConsumers (sts w') !! t = None ∧
  ∃ new, effects w' = effects w ++ new ∧ Forall (λ e, ¬ continues t e) new ∧
         (t' = t → new = [OneShotSender (TxnSubmissionComplete t) [sender]]).
Proof.
  intros Hn. simpl. unfold SubmissionOutcomeReceived.
  destruct (outcomeConsumers (sts w) !! t') as [c|] eqn:Ec.
  - assert (t' ≠ t) as Hne by congruence.
    unfold callConsumer.
    destruct (BallotOutcomeReceived _ _ _) as [oa [o|]]; simpl.
    + split.
      * rewrite lookup_delete_None. right. by rewrite lookup_insert_ne.
      * eexists [_; _; _]. rewrite <-!app_assoc. split; [done|].
        split; [|done]. repeat constructor; simpl; tauto.
    + split; [by rewrite lookup_insert_ne|].
      exists []. rewrite app_nil_r. split; [done|]. split; [constructor|done].
  - simpl. split; [done|]. eexists [_]. split; [done|].
    split; [repeat constructor; simpl; tauto|]. by intros ->.
Qed.

Lemma deliverEach_unknown ds t w :
  outcomeConsumers (sts w) !! t = None →
  let w' := deliverEach ds w in
  outcomeConsumers (sts w') !! t = None ∧
  ∃ new, effects w' = effects w ++ new ∧ Forall (λ e, ¬ continues t e) new ∧
    ∀ sender o, (sender, t, o) ∈ ds →
                OneShotSender (TxnSubmissionComplete t) [sender] ∈ new.
Proof.
  revert w. induction ds as [|[[sender t'] o] ds IH]; intros w Hn; simpl.
  - split; [done|]. exists []. rewrite app_nil_r. split; [done|].
    split; [constructor|]. intros ?? Hin. by apply elem_of_nil in Hin.
  - destruct (delivery_elsewhere sender t' o t w Hn) as (Hn1 & new1 & E1 & F1 & T1).
    destruct (IH _ Hn1) as (Hn2 & new2 & E2 & F2 & T2).
    split; [exact Hn2|]. exists (new1 ++ new2).
    unfold deliverEach in *. simpl in *. rewrite E2, E1, app_assoc. split; [done|].
    split; [by apply Forall_app|].
    intros s o' Hin. apply elem_of_cons in Hin as [Heq|Hin].
    + injection Heq as -> -> ->. apply elem_of_app. left.
      rewrite T1 by done. apply list_elem_of_singleton. done.
    + apply elem_of_app. right. by eapply T2.
Qed.

Lemma SubmitTransaction_keyed txn active k delay w :
  consumersKeyed w → consumersKeyed (SubmitTransaction txn active k delay w).
Proof.
  intros Hk t c. unfold SubmitTransaction. simpl.
  assert (∀ v, outcomeConsumers (sts (if bool_decide (delay = 0%N)
            then emit (AddSender v) w else emit (AddSenderAfter delay v) w))
          = outcomeConsumers (sts w)) as Hsame by (intros; by case_bool_decide).
  rewrite Hsame. destruct (decide (Id txn = t)) as [<-|Hne].
  - rewrite lookup_insert_eq. by intros [= <-].
  - rewrite lookup_insert_ne by done. apply Hk.
Qed.

Lemma SubmissionOutcomeReceived_keyed sender t outcome w :
  consumersKeyed w → consumersKeyed (SubmissionOutcomeReceived sender t outcome w).
Proof.
  intros Hk t' c'. unfold SubmissionOutcomeReceived.
  destruct (outcomeConsumers (sts w) !! t) as [c|] eqn:Ec; [|apply Hk].
  unfold callConsumer. pose proof (Hk _ _ Ec) as Hc.
  assert (∀ oa, <[t := {| cOutcomeAccumulator := oa;
                          cShutdownFunPtr := cShutdownFunPtr c;
                          cShutdownFun := cShutdownFun c;
                          cContinuation := cContinuation c |}]>
                  (outcomeConsumers (sts w)) !! t' = Some c' →
                sfTxnId (cShutdownFun c') = t') as Hins.
  { intros oa. destruct (decide (t = t')) as [<-|Hne].
    - rewrite lookup_insert_eq. by intros [= <-].
    - rewrite lookup_insert_ne by done. apply Hk. }
  destruct (BallotOutcomeReceived _ _ _) as [oa [o|]]; simpl.
  - intros Hl. apply lookup_delete_Some in Hl as [_ Hl]. by eapply Hins.
  - apply Hins.
Qed.

Lemma continues_continuedId t e : continues t e ↔ continuedId e = Some t.
Proof. destruct e; simpl; naive_solver. Qed.

Lemma no_continuation_filter t es :
  Forall (λ e, ¬ continues t e) es →
  filter (λ e, continuedId e = Some t) es = [].
Proof.
  induction 1 as [|e es He _ IH]; [done|].
  rewrite filter_cons_False; [done|]. by rewrite <-continues_continuedId.
Qed.

(** One delivery calls the continuation of a transaction at most once, and
    when it does the transaction has no consumer any more. *)
Lemma delivery_continues_once sender t' outcome t w :
  consumersKeyed w →
  let w' := SubmissionOutcomeReceived sender t' outcome w in
  ∃ new, effects w' = effects w ++ new ∧
    (filter (λ e, continuedId e = Some t) new = [] ∨
     (length (filter (λ e, continuedId e = Some t) new) = 1%nat ∧
      outcomeConsumers (sts w') !! t = None)).
Proof.
  intros Hk. simpl. unfold SubmissionOutcomeReceived.
  destruct (outcomeConsumers (sts w) !! t') as [c|] eqn:Ec.
  - pose proof (Hk _ _ Ec) as Hc. unfold callConsumer.
    destruct (BallotOutcomeReceived _ _ _) as [oa [o|]]; simpl.
    + eexists [_; _; _]. rewrite <-!app_assoc. split; [done|].
      rewrite !filter_cons. simpl.
      destruct (decide (t' = t)) as [->|Hne].
      * right. rewrite decide_True by done. split; [done|].
        rewrite Hc. apply lookup_delete_eq.
      * left. rewrite decide_False; [done|]. congruence.
    + exists []. rewrite app_nil_r. split; [done|]. by left.
  - simpl. eexists [_]. split; [done|]. by left.
Qed.

Lemma deliverEach_continues_once ds t : ∀ w,
  consumersKeyed w →
  ∃ new, effects (deliverEach ds w) = effects w ++ new ∧
         (length (filter (λ e, continuedId e = Some t) new) ≤ 1)%nat.
Proof.
  induction ds as [|[[sender t'] o] ds IH]; intros w Hk.
  - exists []. rewrite app_nil_r. split; [done|]. simpl. lia.
  - destruct (delivery_continues_once sender t' o t w Hk) as (new1 & E1 & Hcase).
    pose proof (SubmissionOutcomeReceived_keyed sender t' o w Hk) as Hk1.
    unfold deliverEach in *. simpl in *.
    destruct Hcase as [Hnone|[Hone Hgone]].
    + destruct (IH _ Hk1) as (new2 & E2 & Hle).
      exists (new1 ++ new2). rewrite E2, E1, app_assoc. split; [done|].
      by rewrite filter_app, Hnone.
    + destruct (deliverEach_unknown ds t _ Hgone) as (_ & new2 & E2 & Hno & _).
      unfold deliverEach in E2. exists (new1 ++ new2).
      rewrite E2, E1, app_assoc. split; [done|].
      rewrite filter_app, length_app, (no_continuation_filter _ _ Hno). simpl. lia.
Qed.

(** C8. A transaction submitted with SubmitTransaction gets a consumer
    under its id, over a fresh outcome accumulator for the acceptors named
    in the transaction, and a shutdown hook.  While the accumulator
    reports no outcome an arriving outcome only feeds it.  When it reports
    one, the submitter removes the shutdown hook, deregisters the
    consumer and the repeating sender, sends TxnSubmissionComplete to the
    acceptors and calls the continuation with that outcome, once.  From
    then on every outcome arriving for that transaction is answered with
    a TxnSubmissionComplete to its sender and the continuation is not
    called for it again: over any sequence of arriving outcomes the
    continuation of a transaction is called at most once. *)
Theorem outcome_delivered_once :
  (∀ w txn active k delay,
     let w' := SubmitTransaction txn active k delay w in
     let acceptors := GetAcceptorsFromTxn txn in
     let sender := {| rsMsg := TxnSubmission txn; rsRecipients := active |} in
     let f := {| sfTxnId := Id txn; sfTxnSender := sender; sfAcceptors := acceptors;
                 sfRetry := Retry txn; sfActiveRMs := active; sfContinuation := k |} in
     outcomeConsumers (sts w') !! Id txn =
       Some {| cOutcomeAccumulator := NewOutcomeAccumulator (FInc txn) acceptors;
               cShutdownFunPtr := nextAddr w; cShutdownFun := f;
               cContinuation := k |} ∧
     onShutdown (sts w') !! nextAddr w = Some f) ∧
  (∀ w sender t outcome c oa,
     outcomeConsumers (sts w) !! t = Some c →
     BallotOutcomeReceived (cOutcomeAccumulator c) sender outcome = (oa, None) →
     SubmissionOutcomeReceived sender t outcome w =
     withSts (λ s, set_outcomeConsumers
                (<[t := {| cOutcomeAccumulator := oa;
                           cShutdownFunPtr := cShutdownFunPtr c;
                           cShutdownFun := cShutdownFun c;
                           cContinuation := cContinuation c |}]>
                   (outcomeConsumers s)) s) w) ∧
  (∀ w sender t outcome c oa o,
     outcomeConsumers (sts w) !! t = Some c →
     sfTxnId (cShutdownFun c) = t →
     BallotOutcomeReceived (cOutcomeAccumulator c) sender outcome = (oa, Some o) →
     let w' := SubmissionOutcomeReceived sender t outcome w in
     effects w' = effects w ++
       [RemoveSenderAsync (sfTxnSender (cShutdownFun c));
        OneShotSender (TxnSubmissionComplete t) (sfAcceptors (cShutdownFun c));
        Continuation (cContinuation c) t (Some o)] ∧
     outcomeConsumers (sts w') !! t = None ∧
     onShutdown (sts w') !! cShutdownFunPtr c = None) ∧
  (∀ w t ds,
     outcomeConsumers (sts w) !! t = None →
     let w' := deliverEach ds w in
     outcomeConsumers (sts w') !! t = None ∧
     ∃ new, effects w' = effects w ++ new ∧
            Forall (λ e, ¬ continues t e) new ∧
            ∀ sender o, (sender, t, o) ∈ ds →
                        OneShotSender (TxnSubmissionComplete t) [sender] ∈ new) ∧
  (∀ w t ds,
     consumersKeyed w →
     ∃ new, effects (deliverEach ds w) = effects w ++ new ∧
            (length (filter (λ e, continuedId e = Some t) new) ≤ 1)%nat) ∧
  (∀ w txn active k delay,
     consumersKeyed w → consumersKeyed (SubmitTransaction txn active k delay w)).
Proof.
  split_and!.
  - intros w txn active k delay. simpl. unfold SubmitTransaction. simpl.
    rewrite lookup_insert_eq. split; [by case_bool_decide|].
    case_bool_decide; simpl; by rewrite lookup_insert_eq.
  - intros w sender t outcome c oa Hc Hb.
    unfold SubmissionOutcomeReceived. rewrite Hc. unfold callConsumer. by rewrite Hb.
  - intros w sender t outcome c oa o Hc Ht Hb. simpl.
    unfold SubmissionOutcomeReceived. rewrite Hc. unfold callConsumer. rewrite Hb.
    simpl. rewrite <-!app_assoc, Ht. split; [done|].
    split; [apply lookup_delete_eq|apply lookup_delete_eq].
  - intros w t ds Hn. by apply deliverEach_unknown.
  - intros w t ds Hk. by apply deliverEach_continues_once.
  - intros w txn active k delay Hk. by apply SubmitTransaction_keyed.
Qed.

End Outcomes.

Section Translation.
Context `{Collaborators}.

(** ** Action indices collected by the first loop of [translateActions] *)

Lemma indicesWithin_mono lo hi hi' m :
  (hi ≤ hi')%Z → indicesWithin lo hi m → indicesWithin lo hi' m.
Proof.
  intros Hle Hm r l Hl. eapply Forall_impl; [by eapply Hm|]. simpl. lia.
Qed.

Lemma addIndex_within lo idx m r :
  (lo ≤ idx)%Z → indicesWithin lo (idx + 1) m →
  indicesWithin lo (idx + 1) (addIndex idx m r).
Proof.
  intros Hlo Hm r' l'. unfold addIndex.
  destruct (m !! r) as [l|] eqn:El.
  - destruct (decide (r = r')) as [<-|Hne].
    + rewrite lookup_insert_eq. intros [= <-]. apply Forall_app. split; [by eapply Hm|].
      constructor; [lia|constructor].
    + rewrite lookup_insert_ne by done. apply Hm.
  - destruct (decide (r = r')) as [<-|Hne].
    + rewrite lookup_insert_eq. intros [= <-]. constructor; [lia|constructor].
    + rewrite lookup_insert_ne by done. apply Hm.
Qed.

Lemma addIndex_fold_within lo idx hs m :
  (lo ≤ idx)%Z → indicesWithin lo (idx + 1) m →
  indicesWithin lo (idx + 1) (fold_left (addIndex idx) hs m).
Proof.
  intros Hlo. revert m. induction hs as [|h hs IH]; intros m Hm; [done|].
  simpl. apply IH. by apply addIndex_within.
Qed.

Lemma translateAction_indices s hc idx ca t hc' t' :
  translateAction s hc idx ca t = Some (hc', inr t') →
  ∃ hs, tIndices t' = fold_left (addIndex idx) hs (tIndices t).
Proof.
  unfold translateAction. intros Ht.
  repeat (case_match; simplify_eq/=); by eexists.
Qed.

Lemma translateLoop_within s cas : ∀ hc idx t hc' t' lo,
  translateLoop s hc idx cas t = Some (hc', inr t') →
  (lo ≤ idx)%Z → indicesWithin lo idx (tIndices t) →
  indicesWithin lo (idx + Z.of_nat (length cas)) (tIndices t').
Proof.
  induction cas as [|ca cas IH]; intros hc idx t hc' t' lo Ht Hlo Hm; simpl in Ht.
  - simplify_eq. simpl. by rewrite Z.add_0_r.
  - destruct (translateAction s hc idx ca t) as [[hc1 [e|t1]]|] eqn:Ea; [done| |done].
    destruct (translateAction_indices _ _ _ _ _ _ _ Ea) as [hs Hhs].
    replace (idx + Z.of_nat (length (ca :: cas)))%Z with ((idx + 1) + Z.of_nat (length cas))%Z
      by (simpl length; lia).
    eapply IH; [exact Ht|lia|]. rewrite Hhs.
    apply addIndex_fold_within; [done|].
    eapply indicesWithin_mono; [|exact Hm]. lia.
Qed.

Lemma translateActions_within s hc picker cas hc' picker' acts indices :
  translateActions s hc picker cas = Some (hc', inr (picker', acts, indices)) →
  indicesWithin 0 (Z.of_nat (length cas)) indices.
Proof.
  unfold translateActions. intros Ht.
  destruct (translateLoop _ _ _ _ _) as [[hc1 [e|t1]]|] eqn:El; [done| |done].
  destruct (patchActions _ _ _) as [e|acts']; [done|]. simplify_eq.
  change (Z.of_nat (length cas)) with (0 + Z.of_nat (length cas))%Z.
  eapply translateLoop_within; [exact El|done|]. intros r l. simpl.
  by rewrite lookup_empty.
Qed.

(** ** [setAllocations] *)

Lemma setAllocations_spec s indices active rmIds : ∀ k allocs res,
  setAllocations s k indices allocs active rmIds = Some res →
  ∃ news, Forall2 (allocated s indices active) rmIds news ∧
          res = take k allocs ++ news ++ drop (k + length rmIds) allocs.
Proof.
  induction rmIds as [|r rmIds IH]; intros k allocs res; simpl.
  - intros [= <-]. exists []. split; [constructor|]. simpl.
    by rewrite Nat.add_0_r, take_drop.
  - destruct (indices !! r) as [l|] eqn:El; [|done].
    case_bool_decide as Hlen; [done|].
    set (field := if active then _ else _).
    destruct field as [a|] eqn:Ef; [|done]. intros Hs.
    destruct (IH _ _ _ Hs) as (news & HF & ->).
    exists ({| RmId := r; ActionIndices := map uint16 (sortInts l); Active := a |} :: news).
    split.
    + constructor; [|done]. unfold allocated. simpl. split; [done|].
      split; [by exists l|]. subst field. destruct active; [|by simplify_eq].
      destruct (connections s) as [conns|]; [|done]. by exists conns.
    + rewrite (take_S_r (<[k:=_]> allocs) k
                 {| RmId := r; ActionIndices := map uint16 (sortInts l); Active := a |})
        by (apply list_lookup_insert_eq; lia).
      rewrite take_insert_ge by lia. rewrite drop_insert_lt by lia.
      rewrite <-app_assoc. simpl. by rewrite Nat.add_succ_r.
Qed.

Lemma clientToServerTxn_structure s ctxn hc txn activeRMs passiveRMs :
  clientToServerTxn s ctxn = Some (hc, inr (txn, activeRMs, passiveRMs)) →
  ∃ picker acts indices actives passives,
    translateActions s (hashCache s)
      (NewCombinationPicker (TopologyFInc (topology s)) (disabledHashCodes s))
      (CActions ctxn) = Some (hc, inr (picker, acts, indices)) ∧
    Choose picker = inr (activeRMs, passiveRMs) ∧
    Allocations txn = actives ++ passives ∧
    Forall2 (allocated s indices true) activeRMs actives ∧
    Forall2 (allocated s indices false) passiveRMs passives.
Proof.
  unfold clientToServerTxn. intros Hc.
  destruct (translateActions _ _ _ _) as [[hc1 [e|[[picker acts] indices]]]|] eqn:Et;
    [done| |done].
  destruct (Choose picker) as [e|[act pas]] eqn:Ech; [done|].
  destruct (setAllocations s 0 _ _ true act) as [res1|] eqn:E1; [|done].
  destruct (setAllocations s (length act) _ _ false pas) as [res2|] eqn:E2; [|done].
  simplify_eq/=.
  destruct (setAllocations_spec _ _ _ _ _ _ _ E1) as (news1 & HF1 & ->).
  destruct (setAllocations_spec _ _ _ _ _ _ _ E2) as (news2 & HF2 & ->).
  exists picker, acts, indices, news1, news2. split_and!; try done.
  pose proof (Forall2_length _ _ _ HF1) as Hl1.
  pose proof (Forall2_length _ _ _ HF2) as Hl2.
  simpl. rewrite take_app_length' by done.
  rewrite drop_ge; [by rewrite app_nil_r|].
  rewrite length_app, length_drop. unfold NewAllocationList.
  rewrite length_replicate. lia.
Qed.

Lemma uint16_range v : (0 ≤ uint16 v < 65536)%Z.
Proof. unfold uint16. apply Z.mod_pos_bound. lia. Qed.

Lemma uint16_small l :
  Forall (λ v, (0 ≤ v < 65536)%Z) l → map uint16 l = l.
Proof.
  induction 1 as [|v l Hv _ IH]; [done|]. simpl. rewrite IH. f_equal.
  unfold uint16. by apply Z.mod_small.
Qed.

Lemma sortInts_sorted l : Sorted Z.le (sortInts l).
Proof. apply (Sorted_merge_sort Z.le). Qed.

Lemma sortInts_perm l : sortInts l ≡ₚ l.
Proof. apply (merge_sort_Permutation Z.le). Qed.

(** C7 (as the code has it). In a server transaction built by
    clientToServerTxn the allocations are those of the active replicas, in
    the picker's order, followed by those of the passive replicas.  The
    allocation of a replica names it, holds the indices of its actions
    sorted ascending and then narrowed to 16 bits, and carries the boot
    count of the submitter's connection to it when active, zero when
    passive.  When the transaction has at most 65536 actions the narrowing
    changes nothing and the list written is itself ascending. *)
Theorem clientToServerTxn_allocations s ctxn hc txn activeRMs passiveRMs :
  clientToServerTxn s ctxn = Some (hc, inr (txn, activeRMs, passiveRMs)) →
  ∃ indices actives passives,
    indicesWithin 0 (Z.of_nat (length (CActions ctxn))) indices ∧
    Allocations txn = actives ++ passives ∧
    Forall2 (allocated s indices true) activeRMs actives ∧
    Forall2 (allocated s indices false) passiveRMs passives ∧
    (∀ al, al ∈ Allocations txn →
           Forall (λ v, (0 ≤ v < 65536)%Z) (ActionIndices al)) ∧
    ((Z.of_nat (length (CActions ctxn)) ≤ 65536)%Z →
     ∀ al, al ∈ Allocations txn →
           Sorted Z.le (ActionIndices al) ∧
           ∃ l, indices !! RmId al = Some l ∧ ActionIndices al ≡ₚ l).
Proof.
  intros Hc.
  destruct (clientToServerTxn_structure _ _ _ _ _ _ Hc)
    as (picker & acts & indices & actives & passives & Ht & _ & Ha & HF1 & HF2).
  pose proof (translateActions_within _ _ _ _ _ _ _ _ Ht) as Hin.
  exists indices, actives, passives. split_and!; try done.
  - assert (∀ b rs als, Forall2 (allocated s indices b) rs als →
              ∀ al, al ∈ als → Forall (λ v, (0 ≤ v < 65536)%Z) (ActionIndices al)) as Hr.
    { intros b rs als HF al Hal.
      apply list_elem_of_lookup in Hal as [i Hi].
      destruct (Forall2_lookup_r _ _ _ _ _ HF Hi) as (r & _ & _ & (l & _ & Heq) & _).
      rewrite Heq. apply Forall_forall. intros v Hv. apply list_elem_of_fmap in Hv as (u & -> & _).
      apply uint16_range. }
    intros al Hal. rewrite Ha in Hal. apply elem_of_app in Hal as [Hal|Hal];
      [by apply (Hr _ _ _ HF1)|by apply (Hr _ _ _ HF2)].
  - intros Hn.
    assert (∀ b rs als, Forall2 (allocated s indices b) rs als →
              ∀ al, al ∈ als →
                Sorted Z.le (ActionIndices al) ∧
                ∃ l, indices !! RmId al = Some l ∧ ActionIndices al ≡ₚ l) as Hr.
    { intros b rs als HF al Hal.
      apply list_elem_of_lookup in Hal as [i Hi].
      destruct (Forall2_lookup_r _ _ _ _ _ HF Hi) as (r & _ & Hr & (l & Hl & Heq) & _).
      assert (Forall (λ v, (0 ≤ v < 65536)%Z) (sortInts l)) as Hsmall.
      { rewrite sortInts_perm. eapply Forall_impl; [by eapply Hin|]. simpl. intros v. lia. }
      rewrite Heq, (uint16_small _ Hsmall). split; [apply sortInts_sorted|].
      exists l. rewrite Hr. split; [done|apply sortInts_perm]. }
    intros al Hal. rewrite Ha in Hal. apply elem_of_app in Hal as [Hal|Hal];
      [by apply (Hr _ _ _ HF1)|by apply (Hr _ _ _ HF2)].
Qed.

End Translation.

(** ** A transaction of more than 65536 reads *)

Section ManyReads.

Variable s : @SimpleTxnSubmitter exampleCollaborators.
Hypothesis Htwo : TwoFInc (topology s) = 1%nat.
Hypothesis Hf : TopologyFInc (topology s) = 1%N.
Hypothesis Hhash : (hashCache s).1 = [1%N].
Hypothesis Hconn : connections s = Some exampleServers.

Lemma reads_translateAction hc idx t :
  hc.1 = [1%N] →
  @translateAction exampleCollaborators s hc idx readAction t =
  Some (hc, inr {| tPicker := @AddPermutation exampleCollaborators (tPicker t) [1%N];
                   tActions := tActions t ++ [readServerAction];
                   tIndices := <[1%N := default [] (tIndices t !! 1%N) ++ [idx]]> (tIndices t);
                   tCreated := tCreated t |}).
Proof.
  intros Hhc. unfold translateAction. simpl. rewrite Hhc.
  unfold slicePrefix. rewrite Htwo. simpl. unfold addIndex.
  by destruct (tIndices t !! 1%N).
Qed.

Lemma reads_translateLoop n : ∀ hc idx t,
  hc.1 = [1%N] →
  @translateLoop exampleCollaborators s hc idx (replicate (S n) readAction) t =
  Some (hc, inr {| tPicker := @AddPermutation exampleCollaborators (tPicker t) [1%N];
                   tActions := tActions t ++ replicate (S n) readServerAction;
                   tIndices := <[1%N := default [] (tIndices t !! 1%N) ++
                                        seqZ idx (Z.of_nat (S n))]> (tIndices t);
                   tCreated := tCreated t |}).
Proof.
  induction n as [|n IH]; intros hc idx t Hhc.
  - simpl. by rewrite reads_translateAction.
  - change (replicate (S (S n)) readAction) with (readAction :: replicate (S n) readAction).
    cbn [translateLoop]. rewrite reads_translateAction by done.
    rewrite IH by done. cbn [tPicker tActions tIndices tCreated].
    rewrite lookup_insert_eq, insert_insert_eq. cbn [default].
    rewrite <-!app_assoc.
    rewrite (seqZ_cons idx (Z.of_nat (S (S n)))) by lia.
    replace (Z.pred (Z.of_nat (S (S n)))) with (Z.of_nat (S n)) by lia.
    replace (Z.succ idx) with (idx + 1)%Z by lia.
    unfold id. rewrite <-(app_assoc _ [idx]).
    assert (@AddPermutation exampleCollaborators
              (@AddPermutation exampleCollaborators (tPicker t) [1%N]) [1%N] =
            @AddPermutation exampleCollaborators (tPicker t) [1%N]) as ->
      by (by destruct (tPicker t) as [f [p|]]).
    reflexivity.
Qed.

Lemma reads_patchActions created hc n :
  @patchActions exampleCollaborators created hc (replicate n readServerAction) =
  inr (replicate n readServerAction).
Proof. induction n as [|n IH]; [done|]. simpl. by rewrite IH. Qed.

Lemma reads_clientToServerTxn n :
  ∃ txn, @clientToServerTxn exampleCollaborators s (readsTxn (S n)) =
           Some (hashCache s, inr (txn, [1%N], [])) ∧
         Allocations txn =
           [ {| RmId := 1%N;
                ActionIndices := map uint16 (sortInts (seqZ 0 (Z.of_nat (S n))));
                Active := 5%N |} ].
Proof.
  unfold clientToServerTxn, translateActions. cbn [readsTxn CActions].
  rewrite reads_translateLoop by done. cbn [tCreated tActions tPicker tIndices].
  rewrite app_nil_l, reads_patchActions. rewrite Hf.
  cbn [Choose exampleCollaborators NewCombinationPicker AddPermutation snd fst
       N.to_nat Pos.to_nat Pos.iter_op Nat.add take drop length NewAllocationList replicate].
  change (N.to_nat 1) with 1%nat.
  cbn [take drop length Nat.add NewAllocationList replicate].
  rewrite lookup_empty. cbn [default app].
  cbn [setAllocations]. rewrite lookup_insert_eq, Hconn.
  rewrite bool_decide_eq_false_2 by (cbn; lia).
  replace (exampleServers !! 1%N) with (Some 5%N) by (by vm_compute).
  eexists. split; [reflexivity|]. reflexivity.
Qed.

End ManyReads.

Lemma Sorted_seqZ k : ∀ m, Sorted Z.le (seqZ m (Z.of_nat k)).
Proof.
  induction k as [|k IH]; intros m; [constructor|].
  rewrite seqZ_cons by lia.
  replace (Z.pred (Z.of_nat (S k))) with (Z.of_nat k) by lia.
  constructor; [apply IH|].
  destruct k as [|k]; [constructor|].
  rewrite seqZ_cons by lia. constructor. lia.
Qed.

(** C7 (as the spec has it) fails.  For a transaction of 65537 reads of
    one variable the single replica is responsible for the actions
    0 .. 65536; index 65536 is written as 0, after 65535. *)
Lemma narrowed_indices_not_ascending :
  ∃ hc txn al,
    @clientToServerTxn exampleCollaborators (sts singleWorld)
      (readsTxn (S (Z.to_nat 65536))) = Some (hc, inr (txn, [1%N], [])) ∧
    al ∈ Allocations txn ∧ ¬ Sorted Z.le (ActionIndices al).
Proof.
  destruct (reads_clientToServerTxn (sts singleWorld)) with (n := Z.to_nat 65536)
    as (txn & Hc & Ha); [by vm_compute..|].
  eexists _, txn, _. split; [exact Hc|]. rewrite Ha.
  split; [apply list_elem_of_singleton; reflexivity|].
  cbn [ActionIndices]. intros Hs.
  assert (sortInts (seqZ 0 (Z.of_nat (S (Z.to_nat 65536)))) =
          seqZ 0 (Z.of_nat (S (Z.to_nat 65536)))) as Heq.
  { apply (Sorted_unique Z.le);
      [apply sortInts_sorted|apply Sorted_seqZ|apply sortInts_perm]. }
  rewrite Heq in Hs.
  replace (Z.of_nat (S (Z.to_nat 65536))) with (65535 + 2)%Z in Hs by lia.
  rewrite seqZ_app, map_app in Hs by lia.
  apply (Sorted_StronglySorted Z.le) in Hs.
  apply StronglySorted_app in Hs as (_ & _ & Hs).
  replace (map uint16 (seqZ (0 + 65535) 2)) with [65535%Z; 0%Z] in Hs
    by (by vm_compute).
  apply StronglySorted_cons in Hs as [Hle _].
  apply Forall_cons in Hle as [Hle _]. lia.
Qed.

(** A write of one variable under the three replicas: replicas 1 and 2
    are active, replica 3 passive. *)
Lemma clientToServerTxn_allocations_witness :
  ∃ hc txn,
    @clientToServerTxn exampleCollaborators (sts readyWorld) (writeTxn 11%N 100%N) =
      Some (hc, inr (txn, [1%N; 2%N], [3%N])) ∧
    map RmId (Allocations txn) = [1%N; 2%N; 3%N] ∧
    ∀ al, al ∈ Allocations txn → Sorted Z.le (ActionIndices al).
Proof.
  assert (from_option
            (λ r, match r.2 with
                  | inr (txn, a, p) => Some (a, p, map RmId (Allocations txn))
                  | inl _ => None
                  end) None
            (@clientToServerTxn exampleCollaborators (sts readyWorld)
               (writeTxn 11%N 100%N))
          = Some ([1%N; 2%N], [3%N], [1%N; 2%N; 3%N])) as Hres
    by (vm_compute; reflexivity).
  destruct (@clientToServerTxn exampleCollaborators (sts readyWorld)
              (writeTxn 11%N 100%N)) as [[hc [e|[[txn a] p]]]|] eqn:E;
    [simpl in Hres; discriminate Hres| |simpl in Hres; discriminate Hres].
  simpl in Hres. injection Hres as -> -> Hr.
  exists hc, txn. split; [reflexivity|]. split; [exact Hr|].
  destruct (@clientToServerTxn_allocations exampleCollaborators _ _ _ _ _ _ E)
    as (indices & actives & passives & _ & _ & _ & _ & _ & Hsorted).
  intros al Hal. apply Hsorted; [|exact Hal]. simpl. lia.
Defined.

(** Transaction 11 is submitted; the commits of replicas 1 and 2 make the
    quorum and the continuation is called; what arrives afterwards is
    answered with TxnSubmissionComplete only. *)
Lemma outcome_delivered_once_witness :
  ∃ w1,
    @SubmitClientTransaction exampleCollaborators (writeTxn 11%N 100%N) 1%N 0%N
      readyWorld = Some (w1, None) ∧
    let w2 := @deliverEach exampleCollaborators
                [(1%N, 11%N, Commit [8%N]); (2%N, 11%N, Commit [8%N])] w1 in
    map continuedId (effects w2) = [None; None; None; Some 11%N] ∧
    let w3 := @deliverEach exampleCollaborators
                [(3%N, 11%N, Commit [8%N]); (1%N, 11%N, Commit [8%N])] w2 in
    outcomeConsumers (sts w3) !! 11%N = None ∧
    ∃ new, effects w3 = effects w2 ++ new ∧
           Forall (λ e, ¬ continues 11%N e) new ∧
           OneShotSender (TxnSubmissionComplete 11%N) [3%N] ∈ new.
Proof.
  assert (from_option
            (λ r, Some (r.2,
                        map continuedId
                          (effects (@deliverEach exampleCollaborators
                             [(1%N, 11%N, Commit [8%N]); (2%N, 11%N, Commit [8%N])] r.1)),
                        from_option (λ _, true) false
                          (outcomeConsumers
                             (sts (@deliverEach exampleCollaborators
                                [(1%N, 11%N, Commit [8%N]); (2%N, 11%N, Commit [8%N])]
                                r.1)) !! 11%N)))
            None
            (@SubmitClientTransaction exampleCollaborators (writeTxn 11%N 100%N)
               1%N 0%N readyWorld)
          = Some (None, [None; None; None; Some 11%N], false)) as Hres
    by (vm_compute; reflexivity).
  destruct (@SubmitClientTransaction exampleCollaborators (writeTxn 11%N 100%N)
              1%N 0%N readyWorld) as [[w1 r]|]; [|simpl in Hres; discriminate Hres].
  simpl in Hres. injection Hres as -> Hcont Hgone.
  exists w1. split; [reflexivity|]. intros w2. split; [exact Hcont|].
  assert (outcomeConsumers (sts w2) !! 11%N = None) as Hnone.
  { subst w2. by destruct (outcomeConsumers _ !! 11%N). }
  destruct (@outcome_delivered_once exampleCollaborators) as (_ & _ & _ & Hre & _).
  destruct (Hre w2 11%N [(3%N, 11%N, Commit [8%N]); (1%N, 11%N, Commit [8%N])] Hnone)
    as (Hn & new & He & Hf & Ht).
  intros w3. split; [exact Hn|]. exists new. split; [exact He|]. split; [exact Hf|].
  apply (Ht 3%N (Commit [8%N])). apply list_elem_of_here.
Defined.

End SubmitterProofs.

(** * Properties of the acceptor along its traces *)

Module AcceptorTraceProofs.

Import msgs paxos acceptor_traces AcceptorProofs.

Section Steps.
Context `{BallotAccumulatorOps}.
Local Opaque newTwoBTxnVotesSender.

Lemma removeTwoBSender_none w :
  twoBSender (acc w) = None → removeTwoBSender w = w.
Proof. unfold removeTwoBSender. by intros ->. Qed.

Lemma removeTwoBSender_effects w :
  effects (removeTwoBSender w) =
  effects w ++ match twoBSender (acc w) with
               | Some s => [RemoveSenderSync s]
               | None => []
               end.
Proof.
  unfold removeTwoBSender. destruct (twoBSender (acc w)); simpl; [done|].
  by rewrite app_nil_r.
Qed.

(** [acceptorAwaitLocallyComplete.start] as [nextState] and [Start] call
    it, with the state already set. *)
Lemma acceptorAwaitLocallyComplete_start_eq w p :
  outcomeOnDisk (acc w) = Some p →
  currentState (acc w) = Some acceptorAwaitLocallyComplete →
  acceptorAwaitLocallyComplete_start w =
  let w1 := removeTwoBSender w in
  let a := acc w in
  let allocs := Allocations (baTxn (ballotAccumulator a)) in
  let twoB := twoBRecipientsOf (sendToAllOnDisk a) allocs in
  let pending := list_to_set twoB ∖ tlcsReceived a in
  let tgc := tgcRecipientsOf (bool_decide (Which (outcomes w p) = OUTCOME_ABORT)) allocs in
  let w2 := withAcc (λ a, set_tgcRecipients tgc (set_pendingTLC pending a)) w1 in
  if bool_decide (pending = ∅) && tscReceived a
  then Some (emit (DiskDel (txnId a) deletionDoneK)
               (withAcc (set_currentState (Some acceptorDeleteFromDisk)) w2))
  else
    let r := newTwoBTxnVotesSender (outcomes w) p (txnId a)
               (Submitter (baTxn (ballotAccumulator a))) twoB in
    Some (emit (AddSender r.2)
            (withAcc (set_twoBSender (Some r.2)) (withOutcomes r.1 w2))).
Proof.
  intros Hp Hc. unfold acceptorAwaitLocallyComplete_start.
  rewrite removeTwoBSender_acc, removeTwoBSender_outcomes. simpl. rewrite Hp.
  rewrite allocLoop_spec. simpl.
  set (pending := list_to_set _ ∖ _).
  rewrite (bool_decide_ext (size pending = 0%nat) (pending = ∅))
    by apply size_zero_empty.
  destruct (bool_decide_reflect (pending = ∅)) as [He|He]; simpl.
  - destruct (tscReceived (acc w)) eqn:Etsc; simpl.
    + rewrite maybeDelete_unfold. unfold maybeDeleteGuard. simpl.
      rewrite removeTwoBSender_acc. simpl. rewrite Hc, Etsc.
      rewrite bool_decide_eq_true_2 by done. simpl.
      rewrite bool_decide_eq_true_2 by (by apply size_zero_empty).
      unfold acceptorDeleteFromDisk_start.
      rewrite removeTwoBSender_none
        by (simpl; by rewrite removeTwoBSender_acc).
      simpl. by rewrite removeTwoBSender_acc.
    + rewrite removeTwoBSender_outcomes.
      by destruct (newTwoBTxnVotesSender _ _ _ _ _).
  - rewrite removeTwoBSender_outcomes.
    by destruct (newTwoBTxnVotesSender _ _ _ _ _).
Qed.

Lemma heldSender_app es es' :
  heldSender (es ++ es') = fold_left senderCall es' (heldSender es).
Proof. unfold heldSender. apply fold_left_app. Qed.

Lemma count_app f es es' : count f (es ++ es') = (count f es + count f es')%nat.
Proof. unfold count. by rewrite List.filter_app, length_app. Qed.

Lemma senderHeld_removed w :
  senderHeld w → heldSender (effects (removeTwoBSender w)) = Some None.
Proof.
  unfold senderHeld. intros Hh. rewrite removeTwoBSender_effects, heldSender_app, Hh.
  destruct (twoBSender (acc w)); simpl; [|done]. by rewrite decide_True.
Qed.

Lemma count_removed f w :
  (∀ s, f (RemoveSenderSync s) = false) →
  count f (effects (removeTwoBSender w)) = count f (effects w).
Proof.
  intros Hf. rewrite removeTwoBSender_effects, count_app.
  destruct (twoBSender (acc w)); unfold count; simpl; [rewrite Hf; simpl|]; lia.
Qed.

Lemma aboutTxn_removed t w :
  Forall (aboutTxn t) (effects w) → Forall (aboutTxn t) (effects (removeTwoBSender w)).
Proof.
  intros Hf. rewrite removeTwoBSender_effects. apply Forall_app. split; [done|].
  destruct (twoBSender (acc w)); repeat constructor.
Qed.

Lemma withAcc_same w :
  withAcc (λ a, set_sendToAllOnDisk (sendToAllOnDisk (acc w))
                  (set_outcomeOnDisk (outcomeOnDisk (acc w)) a)) w = w.
Proof. destruct w as [[] ? ?]. done. Qed.

(** The deletion scheduled on entry to [acceptorDeleteFromDisk]. *)
Lemma traced_deleting t v :
  currentState (acc v) = Some acceptorDeleteFromDisk →
  twoBSender (acc v) = None → heldSender (effects v) = Some None →
  ownEffects t v →
  (count isAcceptorFinished (effects v) ≤ count isDiskDel (effects v))%nat →
  traced t (emit (DiskDel t deletionDoneK) v).
Proof.
  intros Hc Hn Hh [Ht Hf] Hle. unfold traced. split_and!.
  - unfold hasOutcomeToWrite. simpl. by rewrite Hc.
  - unfold senderHeld. simpl. by rewrite heldSender_app, Hh, Hn.
  - unfold awaiting. simpl. by rewrite Hc.
  - unfold idleWithoutSender. simpl. done.
  - unfold deletionsAccounted. simpl. rewrite Hc.
    rewrite bool_decide_eq_true_2 by done. rewrite !count_app.
    unfold count at 2 4. simpl. lia.
  - unfold ownEffects. simpl. split; [done|]. apply Forall_app. split; [done|].
    repeat constructor; simpl; done.
Qed.

Lemma traced_maybeDelete t w w' :
  maybeDelete w = Some w' →
  hasOutcomeToWrite w → senderHeld w → idleWithoutSender w →
  deletionsAccounted w → ownEffects t w →
  (currentState (acc w) = Some acceptorAwaitLocallyComplete →
   ∃ s, twoBSender (acc w) = Some s ∧
        pendingTLC (acc w) = list_to_set (recipients s) ∖ tlcsReceived (acc w)) →
  traced t w'.
Proof.
  rewrite maybeDelete_unfold. unfold maybeDeleteGuard.
  intros Hs Ho Hh Hi Hd [Ht Hf] Ha.
  destruct (bool_decide_reflect (currentState (acc w) = Some acceptorAwaitLocallyComplete))
    as [Hc|Hc]; simpl in Hs.
  - destruct (tscReceived (acc w)) eqn:Etsc; simpl in Hs.
    + destruct (bool_decide_reflect (size (pendingTLC (acc w)) = 0%nat)) as [Hz|Hz];
        simpl in Hs.
      * unfold acceptorDeleteFromDisk_start in Hs. injection Hs as <-.
        rewrite removeTwoBSender_acc. simpl. rewrite Ht.
        apply traced_deleting.
        -- by rewrite removeTwoBSender_acc.
        -- by rewrite removeTwoBSender_acc.
        -- by apply (senderHeld_removed (withAcc _ w)).
        -- split; [by rewrite removeTwoBSender_acc|].
           by apply (aboutTxn_removed t (withAcc _ w)).
        -- rewrite !count_removed by done. simpl.
           unfold deletionsAccounted in Hd. lia.
      * injection Hs as <-. unfold traced. split_and!; try done.
        intros _. destruct (Ha Hc) as (s & Hs1 & Hs2). exists s.
        split_and!; [done|done|]. left. by rewrite <-size_zero_empty.
    + injection Hs as <-. unfold traced. split_and!; try done.
      intros _. destruct (Ha Hc) as (s & Hs1 & Hs2). exists s.
      split_and!; [done|done|]. by right.
  - injection Hs as <-. unfold traced. split_and!; try done. by intros ?.
Qed.

(** Entering [acceptorAwaitLocallyComplete], from [Start] or from
    [writeDone]. *)
Lemma traced_await t w o f w' :
  traced t w → currentState (acc w) ≠ Some acceptorDeleteFromDisk →
  acceptorAwaitLocallyComplete_start
    (withAcc (set_currentState (Some acceptorAwaitLocallyComplete))
       (withAcc (λ a, set_sendToAllOnDisk f (set_outcomeOnDisk o a)) w)) = Some w' →
  traced t w'.
Proof.
  intros (Ho & Hh & Ha & Hi & Hd & Ht & Hf) Hnd Hs.
  destruct o as [p|]; [|by unfold acceptorAwaitLocallyComplete_start in Hs;
                          rewrite removeTwoBSender_acc in Hs].
  rewrite (acceptorAwaitLocallyComplete_start_eq _ p) in Hs by done.
  cbv zeta in Hs.
  set (w0 := withAcc (set_currentState (Some acceptorAwaitLocallyComplete)) _) in Hs.
  assert (heldSender (effects (removeTwoBSender w0)) = Some None) as Hh0
    by (by apply senderHeld_removed).
  assert (Forall (aboutTxn t) (effects (removeTwoBSender w0))) as Hf0
    by (by apply aboutTxn_removed).
  assert (count isAcceptorFinished (effects (removeTwoBSender w0)) ≤
          count isDiskDel (effects (removeTwoBSender w0)))%nat as Hle.
  { rewrite !count_removed by done. simpl. unfold deletionsAccounted in Hd. lia. }
  destruct (_ && _) eqn:Econd; injection Hs as <-.
  - rewrite Ht.
    apply (traced_deleting t (withAcc _ (withAcc _ (removeTwoBSender w0)))).
    + done.
    + simpl. by rewrite removeTwoBSender_acc.
    + done.
    + split; [|done]. simpl. by rewrite removeTwoBSender_acc.
    + done.
  - unfold traced. split_and!.
    + unfold hasOutcomeToWrite. simpl. by rewrite removeTwoBSender_acc.
    + unfold senderHeld. simpl. by rewrite heldSender_app, Hh0.
    + unfold awaiting. simpl. rewrite removeTwoBSender_acc. simpl. intros _.
      eexists. split; [done|].
      rewrite (proj1 (newTwoBTxnVotesSender_recipients _ _ _ _ _)).
      split; [done|]. apply andb_false_iff in Econd as [Hne|Htsc]; [|by right].
      left. by apply bool_decide_eq_false in Hne.
    + unfold idleWithoutSender. simpl. rewrite removeTwoBSender_acc. simpl. done.
    + unfold deletionsAccounted. simpl. rewrite removeTwoBSender_acc. simpl.
      rewrite !count_app. unfold count at 2 4. simpl. lia.
    + unfold ownEffects. simpl. rewrite removeTwoBSender_acc. simpl.
      split; [done|]. apply Forall_app. split; [done|]. repeat constructor.
Qed.

Lemma step_traced t e w w' : step e w = Some w' → traced t w → traced t w'.
Proof.
  destruct e as [|r i v txn|o f|r|r|]; simpl.
  - (* Start *)
    unfold Start. intros Hs HT.
    destruct (currentState (acc w)) eqn:Ec; [by simplify_eq|].
    destruct (outcomeOnDisk (acc w)) as [p|] eqn:Ed.
    + simpl in Hs. rewrite <-(withAcc_same w) in Hs.
      eapply traced_await; [exact HT| |exact Hs]. by rewrite Ec.
    + simpl in Hs. unfold acceptorReceiveBallots_start in Hs. injection Hs as <-.
      destruct HT as (Ho & Hh & Ha & Hi & Hd & Ht & Hf). unfold traced. split_and!.
      * by intros ?.
      * done.
      * by intros ?.
      * intros _ _. simpl. apply Hi; by rewrite Ec.
      * unfold deletionsAccounted in *. simpl. rewrite Ec in Hd. simpl in Hd. done.
      * done.
  - (* BallotAccepted *)
    unfold BallotAccepted. intros Hs (Ho & Hh & Ha & Hi & Hd & Ht & Hf).
    set (w1 := if bool_decide _ then _ else _) in Hs.
    assert (acc w1 = acc w) as Hacc by (subst w1; by case_bool_decide).
    assert (senderHeld w1) as Hh1.
    { subst w1. unfold senderHeld in *. case_bool_decide; [|done]. simpl.
      by rewrite heldSender_app, Hh. }
    assert (Forall (aboutTxn t) (effects w1)) as Hf1.
    { subst w1. case_bool_decide; [|done]. simpl. apply Forall_app. split; [done|].
      repeat constructor. done. }
    assert (count isAcceptorFinished (effects w1) = count isAcceptorFinished (effects w) ∧
            count isDiskDel (effects w1) = count isDiskDel (effects w)) as [Hc1 Hc2].
    { subst w1. case_bool_decide; [|done]. simpl. rewrite !count_app.
      unfold count at 2 5. simpl. lia. }
    destruct (BallotReceived _ _ _ _ _ _) as [[ba st] res].
    assert (traced t (withOutcomes st (withAcc (set_ballotAccumulator ba) w1))) as HT1.
    { unfold traced, hasOutcomeToWrite, senderHeld, awaiting, idleWithoutSender,
        deletionsAccounted, ownEffects in *. simpl. rewrite !Hacc, Hc1, Hc2.
      rewrite Hacc in Hh1. split_and!; done. }
    destruct res as [o|]; [|by simplify_eq].
    destruct (outcomeEqual st o (outcome (acc w))); simpl in Hs; [by simplify_eq|].
    unfold nextState, nextStateWith in Hs. simpl in Hs.
    unfold acceptorWriteToDisk_start in Hs. simpl in Hs. injection Hs as <-.
    unfold traced, hasOutcomeToWrite, senderHeld, awaiting, idleWithoutSender,
      deletionsAccounted, ownEffects in *. simpl. rewrite !Hacc.
    rewrite !count_app, Hc1, Hc2, heldSender_app, Hh1, Hacc. simpl.
    split_and!; try done.
    + unfold count at 2 4. simpl. lia.
    + apply Forall_app. split; [done|]. repeat constructor. done.
  - (* writeDone *)
    unfold writeDone. intros Hs HT.
    destruct (bool_decide_reflect (outcome (acc w) = o)) as [Houtc|Houtc];
      simpl in Hs; [|by simplify_eq].
    destruct (bool_decide_reflect (currentState (acc w) = Some acceptorWriteToDisk))
      as [Hc|Hc]; simpl in Hs; [|by simplify_eq].
    unfold nextState, nextStateWith in Hs. simpl in Hs. rewrite Hc in Hs. simpl in Hs.
    eapply traced_await; [exact HT| |exact Hs]. by rewrite Hc.
  - (* TLC *)
    unfold TxnLocallyCompleteReceived. simpl. intros Hs (Ho & Hh & Ha & Hi & Hd & Ht & Hf).
    case_bool_decide as Hc.
    + eapply traced_maybeDelete; [exact Hs|done..|]. simpl. intros _.
      destruct (Ha Hc) as (s & Hs1 & Hs2 & _). exists s. split; [done|].
      rewrite Hs2. set_solver.
    + injection Hs as <-. unfold traced. split_and!; try done. by intros ?.
  - (* TSC *)
    unfold TxnSubmissionCompleteReceived. intros Hs (Ho & Hh & Ha & Hi & Hd & Ht & Hf).
    destruct (tscReceived (acc w)) eqn:Etsc; simpl in Hs.
    + injection Hs as <-. done.
    + eapply traced_maybeDelete; [exact Hs|done..|]. simpl. intros Hc.
      destruct (Ha Hc) as (s & Hs1 & Hs2 & _). by exists s.
  - (* deletionDone *)
    unfold deletionDone. intros Hs (Ho & Hh & Ha & Hi & Hd & Ht & Hf).
    case_bool_decide as Hc; [|by simplify_eq].
    unfold nextState, nextStateWith in Hs. rewrite Hc in Hs. injection Hs as <-.
    unfold traced, hasOutcomeToWrite, senderHeld, awaiting, idleWithoutSender,
      deletionsAccounted, ownEffects in *. simpl.
    rewrite !count_app, !heldSender_app, Hh. simpl.
    rewrite Hc in Hd. rewrite bool_decide_eq_true_2 in Hd by done.
    split_and!; try done.
    + intros _ _. apply Hi; by rewrite Hc.
    + unfold count at 2 3 5 6. simpl. lia.
    + rewrite <-app_assoc. apply Forall_app. split; [done|].
      repeat constructor; simpl; by rewrite Ht.
Qed.

Lemma run_traced t es : ∀ w w', run es w = Some w' → traced t w → traced t w'.
Proof.
  induction es as [|e es IH]; intros w w'; simpl.
  - by intros [= <-].
  - destruct (step e w) as [w1|] eqn:Es; [|done].
    intros Hr HT. eapply IH; [exact Hr|]. by eapply step_traced.
Qed.

Lemma Initial_traced w : Initial w → traced (txnId (acc w)) w.
Proof.
  intros [He [(t & txn & Ha)|(t & txn & o & f & i & Ha)]];
    unfold traced, hasOutcomeToWrite, senderHeld, awaiting, idleWithoutSender,
      deletionsAccounted, ownEffects; rewrite He, Ha; simpl;
    split_and!; try done; unfold count; simpl; lia.
Qed.

(** Every event finds the acceptor able to handle it. *)
Lemma step_total e w : hasOutcomeToWrite w → ∃ w', step e w = Some w'.
Proof.
  intros Ho. destruct e as [|r i v txn|o f|r|r|]; simpl.
  - unfold Start. destruct (currentState (acc w)); [by eexists|].
    destruct (outcomeOnDisk (acc w)) as [p|] eqn:Ed; [|by eexists].
    simpl. by apply (acceptorAwaitLocallyComplete_start_total _ p).
  - unfold BallotAccepted.
    destruct (BallotReceived _ _ _ _ _ _) as [[ba st] res].
    destruct res as [o|]; [|by eexists].
    destruct (outcomeEqual st o (outcome (acc w))); simpl; [by eexists|].
    unfold nextState, nextStateWith. simpl.
    by apply (acceptorWriteToDisk_start_total _ o).
  - unfold writeDone.
    destruct (bool_decide_reflect (outcome (acc w) = o)) as [Houtc|Houtc];
      simpl; [|by eexists].
    destruct (bool_decide_reflect (currentState (acc w) = Some acceptorWriteToDisk))
      as [Hc|Hc]; simpl; [|by eexists].
    unfold nextState, nextStateWith. simpl. rewrite Hc. simpl.
    destruct (Ho Hc) as [p Hp]. rewrite Hp in Houtc. subst o.
    by apply (acceptorAwaitLocallyComplete_start_total _ p).
  - unfold TxnLocallyCompleteReceived. simpl. case_bool_decide; [|by eexists].
    rewrite maybeDelete_unfold. destruct (maybeDeleteGuard _); by eexists.
  - unfold TxnSubmissionCompleteReceived. destruct (negb _); [|by eexists].
    rewrite maybeDelete_unfold. destruct (maybeDeleteGuard _); by eexists.
  - unfold deletionDone. case_bool_decide as Hc; [|by eexists].
    unfold nextState, nextStateWith. rewrite Hc. by eexists.
Qed.

Lemma run_total t es : ∀ w, traced t w → ∃ w', run es w = Some w'.
Proof.
  induction es as [|e es IH]; intros w HT; simpl; [by eexists|].
  destruct (step_total e w) as [w1 Hs]; [apply HT|]. rewrite Hs.
  apply IH. by eapply step_traced.
Qed.

(** The TLCs an acceptor has recorded are those it has been sent. *)
Lemma maybeDelete_tlcsReceived w w' :
  maybeDelete w = Some w' → tlcsReceived (acc w') = tlcsReceived (acc w).
Proof.
  rewrite maybeDelete_unfold. destruct (maybeDeleteGuard (acc w)).
  - unfold acceptorDeleteFromDisk_start. intros [= <-]. simpl.
    by rewrite removeTwoBSender_acc.
  - by intros [= <-].
Qed.

Lemma acceptorAwaitLocallyComplete_start_tlcsReceived w w' :
  acceptorAwaitLocallyComplete_start w = Some w' →
  tlcsReceived (acc w') = tlcsReceived (acc w).
Proof.
  intros Hs. destruct (acceptorAwaitLocallyComplete_start_spec _ _ Hs)
    as (p & _ & Hfr & _). by destruct Hfr as (_ & _ & _ & _ & _ & ? & _).
Qed.

Lemma step_tlcsReceived e w w' :
  step e w = Some w' →
  tlcsReceived (acc w') = list_to_set (tlcSenders [e]) ∪ tlcsReceived (acc w).
Proof.
  assert (∀ X : gset N, X = list_to_set [] ∪ X) as Hnil by set_solver.
  destruct e as [|r i v txn|o f|r|r|]; simpl; intros Hs.
  - unfold Start in Hs. destruct (currentState (acc w)); [simplify_eq; apply Hnil|].
    destruct (outcomeOnDisk (acc w)); simpl in Hs.
    + apply acceptorAwaitLocallyComplete_start_tlcsReceived in Hs. rewrite Hs.
      apply Hnil.
    + unfold acceptorReceiveBallots_start in Hs. simplify_eq. apply Hnil.
  - unfold BallotAccepted in Hs.
    set (w1 := if bool_decide _ then _ else _) in Hs.
    assert (acc w1 = acc w) as Hacc by (subst w1; by case_bool_decide).
    destruct (BallotReceived _ _ _ _ _ _) as [[ba st] res].
    destruct res as [o|]; [|simplify_eq; simpl; rewrite Hacc; apply Hnil].
    destruct (outcomeEqual st o (outcome (acc w))); simpl in Hs;
      [simplify_eq; simpl; rewrite Hacc; apply Hnil|].
    unfold nextState, nextStateWith in Hs. simpl in Hs.
    apply acceptorWriteToDisk_start_spec in Hs as (p & _ & -> & _). simpl.
    rewrite Hacc. apply Hnil.
  - unfold writeDone in Hs. destruct (_ && _); [|simplify_eq; apply Hnil].
    unfold nextState, nextStateWith in Hs. simpl in Hs.
    destruct (currentState (acc w)) as [[]|]; simpl in Hs; try done.
    + apply acceptorWriteToDisk_start_spec in Hs as (p & _ & -> & _). apply Hnil.
    + apply acceptorAwaitLocallyComplete_start_tlcsReceived in Hs. rewrite Hs.
      apply Hnil.
    + unfold acceptorDeleteFromDisk_start in Hs. simplify_eq/=.
      rewrite removeTwoBSender_acc. apply Hnil.
    + simplify_eq. apply Hnil.
  - unfold TxnLocallyCompleteReceived in Hs. simpl in Hs. case_bool_decide.
    + apply maybeDelete_tlcsReceived in Hs. rewrite Hs. simpl. set_solver.
    + simplify_eq. simpl. set_solver.
  - unfold TxnSubmissionCompleteReceived in Hs. destruct (negb _).
    + apply maybeDelete_tlcsReceived in Hs. rewrite Hs. apply Hnil.
    + simplify_eq. apply Hnil.
  - unfold deletionDone in Hs. case_bool_decide as Hc; [|simplify_eq; apply Hnil].
    unfold nextState, nextStateWith in Hs. rewrite Hc in Hs. simplify_eq/=.
    apply Hnil.
Qed.

Lemma tlcSenders_cons e es : tlcSenders (e :: es) = tlcSenders [e] ++ tlcSenders es.
Proof. unfold tlcSenders. simpl. by destruct e. Qed.

Lemma run_tlcsReceived es : ∀ w w',
  run es w = Some w' →
  tlcsReceived (acc w') = list_to_set (tlcSenders es) ∪ tlcsReceived (acc w).
Proof.
  induction es as [|e es IH]; intros w w'; cbn [run].
  - intros [= <-]. set_solver.
  - destruct (step e w) as [w1|] eqn:Es; [|done]. intros Hr.
    rewrite (IH _ _ Hr), (step_tlcsReceived _ _ _ Es), (tlcSenders_cons e es).
    rewrite list_to_set_app_L. clear. set_solver.
Qed.

(** ** Along every trace *)

(** X1. No sequence of events makes an acceptor panic: from either way
    of constructing it, every call the acceptor manager can make (start,
    ballot, completion of a write or of a deletion, TLC, TSC), in any
    order and with any arguments, returns.  In particular [nextState] is
    never asked to advance from the nil state, and no [start] method
    dereferences a nil outcome. *)
Theorem run_never_panics w0 es : Initial w0 → ∃ w, run es w0 = Some w.
Proof. intros Hi. eapply run_total. by apply Initial_traced. Qed.

(** X2. The calls an acceptor makes on the connection manager are
    balanced.  Replaying them, a sender is only ever added while none is
    held and only the held one is ever removed; the sender the connection
    manager holds is at every moment the acceptor's [twoBSender]; and
    outside WriteToDisk and AwaitLocallyComplete there is none. *)
Theorem sender_calls_balanced w0 es w :
  Initial w0 → run es w0 = Some w →
  heldSender (effects w) = Some (twoBSender (acc w)) ∧
  (currentState (acc w) ≠ Some acceptorWriteToDisk →
   currentState (acc w) ≠ Some acceptorAwaitLocallyComplete →
   twoBSender (acc w) = None).
Proof.
  intros Hi Hr.
  destruct (run_traced _ _ _ _ Hr (Initial_traced _ Hi)) as (_ & Hh & _ & Hidle & _).
  split; [exact Hh|exact Hidle].
Qed.

(** X3. While an acceptor rests in AwaitLocallyComplete it has a 2B
    sender registered, the replicas it awaits a TLC from are exactly the
    recipients of that sender that have not sent one, and something is
    still outstanding: a TLC or the TSC. *)
Theorem awaits_silent_recipients w0 es w :
  Initial w0 → run es w0 = Some w →
  currentState (acc w) = Some acceptorAwaitLocallyComplete →
  ∃ s, twoBSender (acc w) = Some s ∧
    pendingTLC (acc w) = list_to_set (recipients s) ∖ tlcsReceived (acc w) ∧
    (pendingTLC (acc w) ≠ ∅ ∨ tscReceived (acc w) = false).
Proof.
  intros Hi Hr Hc.
  destruct (run_traced _ _ _ _ Hr (Initial_traced _ Hi)) as (_ & _ & Ha & _).
  by apply Ha.
Qed.

(** X4. A TLC is never forgotten.  The TLCs an acceptor has recorded are
    exactly those sent to it since it was constructed, in whatever state
    they arrived and whatever happened since; a replica that has sent
    one is not awaited while the acceptor is in AwaitLocallyComplete,
    also after the outcome has changed and been written again. *)
Theorem tlcs_never_forgotten w0 es w :
  Initial w0 → run es w0 = Some w →
  tlcsReceived (acc w) = list_to_set (tlcSenders es) ∧
  (currentState (acc w) = Some acceptorAwaitLocallyComplete →
   ∀ r, r ∈ tlcSenders es → r ∉ pendingTLC (acc w)).
Proof.
  intros Hi Hr.
  assert (tlcsReceived (acc w) = list_to_set (tlcSenders es)) as Htl.
  { rewrite (run_tlcsReceived _ _ _ Hr).
    destruct Hi as [_ [(t & txn & ->)|(t & txn & o & f & i & ->)]]; simpl; set_solver. }
  split; [exact Htl|]. intros Hc r Hin.
  destruct (run_traced _ _ _ _ Hr (Initial_traced _ Hi)) as (_ & _ & Ha & _).
  destruct (Ha Hc) as (s & _ & -> & _). rewrite Htl. set_solver.
Qed.


(** X6. An acceptor only ever acts on its own transaction: its
    transaction id never changes, every disk write and deletion is keyed
    by it, every deletion schedules [deletionDone], and the finished
    report, the error log and the one-shot message (a
    TxnGloballyComplete) all name it. *)
Theorem effects_about_own_txn w0 es w :
  Initial w0 → run es w0 = Some w →
  txnId (acc w) = txnId (acc w0) ∧
  Forall (aboutTxn (txnId (acc w0))) (effects w).
Proof.
  intros Hi Hr.
  by destruct (run_traced _ _ _ _ Hr (Initial_traced _ Hi)) as (_ & _ & _ & _ & _ & Ho).
Qed.

(** ** [Start], recovery and completion *)

(** X7. [Start] is idempotent: a call that returns leaves the acceptor in
    a state in which a further call changes nothing. *)
Theorem Start_idempotent w w' : Start w = Some w' → Start w' = Some w'.
Proof.
  unfold Start at 1. intros Hs.
  destruct (currentState (acc w)) eqn:Ec.
  - injection Hs as <-. unfold Start. by rewrite Ec.
  - assert (is_Some (currentState (acc w'))) as [s' Hs'].
    { destruct (outcomeOnDisk (acc w)); simpl in Hs.
      - destruct (acceptorAwaitLocallyComplete_start_spec _ _ Hs)
          as (p & _ & _ & _ & _ & _ & [(-> & _)| ->]); by eexists.
      - unfold acceptorReceiveBallots_start in Hs. injection Hs as <-. by eexists. }
    unfold Start. by rewrite Hs'.
Qed.

(** X8. Recovery.  An acceptor rebuilt from its disk record with outcome
    [p] and then started goes straight to AwaitLocallyComplete without
    writing to disk: the one thing it does is register a 2B sender for
    the recorded outcome, addressed to the active replicas, or to every
    allocation replica when the record says sendToAll; it awaits a TLC
    from each of them. *)
Theorem Start_recovered t txn p f i st :
  let ba := BallotAccumulatorFromData t txn (Some p) i in
  let allocs := Allocations (baTxn ba) in
  let twoB := twoBRecipientsOf f allocs in
  let r := newTwoBTxnVotesSender st p t (Submitter (baTxn ba)) twoB in
  ∃ w', Start {| acc := AcceptorFromData t txn (Some p) f i;
                 outcomes := st; effects := [] |} = Some w' ∧
    currentState (acc w') = Some acceptorAwaitLocallyComplete ∧
    effects w' = [AddSender r.2] ∧ twoBSender (acc w') = Some r.2 ∧
    recipients r.2 = twoB ∧ outcomes w' = r.1 ∧
    pendingTLC (acc w') = list_to_set twoB ∧
    tgcRecipients (acc w') =
      tgcRecipientsOf (bool_decide (Which (st p) = OUTCOME_ABORT)) allocs ∧
    outcomeOnDisk (acc w') = Some p ∧ outcome (acc w') = Some p.
Proof.
  simpl. unfold Start. simpl.
  rewrite (acceptorAwaitLocallyComplete_start_eq _ p) by done. simpl.
  rewrite andb_false_r. eexists. split; [done|]. simpl.
  split_and!; try done. set_solver.
Qed.

(** X9. Completion.  When the deletion completes while the acceptor is in
    DeleteFromDisk, the acceptor reports itself finished, sends
    TxnGloballyComplete to the TGC recipients and becomes stateless.  A
    stateless acceptor handles every completion, TLC and TSC without
    calling any collaborator and stays stateless. *)
Theorem deletionDone_finishes w :
  currentState (acc w) = Some acceptorDeleteFromDisk →
  ∃ w', deletionDone w = Some w' ∧ currentState (acc w') = None ∧
    effects w' = effects w ++
      [AcceptorFinished (txnId (acc w));
       OneShotSender (TxnGloballyComplete (txnId (acc w))) (tgcRecipients (acc w))] ∧
    ∀ es v, Forall (λ e, isCompletion e = true) es →
            currentState (acc v) = None →
            ∃ v', run es v = Some v' ∧ effects v' = effects v ∧
                  currentState (acc v') = None.
Proof.
  intros Hc. unfold deletionDone. rewrite Hc. rewrite bool_decide_eq_true_2 by done.
  unfold nextState, nextStateWith. rewrite Hc. eexists. split; [done|]. simpl.
  split; [done|]. split; [by rewrite <-app_assoc|].
  intros es. induction es as [|e es IH]; intros v Hes Hv; simpl; [by eexists|].
  apply Forall_cons in Hes as [He Hes].
  assert (∃ v1, step e v = Some v1 ∧ effects v1 = effects v ∧
                currentState (acc v1) = None) as (v1 & Hs & He1 & Hc1).
  { destruct e as [|r i u txn|o f|r|r|]; simpl in *; try done.
    - unfold writeDone. rewrite Hv. rewrite andb_false_r. by eexists.
    - unfold TxnLocallyCompleteReceived. simpl. rewrite Hv.
      rewrite bool_decide_eq_false_2 by done. by eexists.
    - unfold TxnSubmissionCompleteReceived. destruct (negb _); [|by eexists].
      rewrite maybeDelete_unfold. unfold maybeDeleteGuard. simpl. rewrite Hv.
      simpl. by eexists.
    - unfold deletionDone. rewrite Hv. rewrite bool_decide_eq_false_2 by done.
      by eexists. }
  rewrite Hs. destruct (IH v1 Hes Hc1) as (v' & Hr & He' & Hc').
  exists v'. split; [done|]. split; [congruence|done].
Qed.

Lemma withAcc_fixed (f : Acceptor → Acceptor) w : f (acc w) = acc w → withAcc f w = w.
Proof. destruct w as [a st es]. unfold withAcc. simpl. by intros ->. Qed.

Lemma set_tlcsReceived_fixed X a : tlcsReceived a = X → set_tlcsReceived X a = a.
Proof. destruct a. simpl. by intros ->. Qed.

Lemma set_pendingTLC_fixed X a : pendingTLC a = X → set_pendingTLC X a = a.
Proof. destruct a. simpl. by intros ->. Qed.

(** X22. Deliveries are idempotent.  The completion of a write, the
    completion of a deletion, a TLC and a TSC may each reach the acceptor
    twice in a row: the second delivery changes nothing, neither the
    acceptor nor what it has asked of its collaborators. *)
Theorem deliveries_idempotent e w w' :
  isCompletion e = true → step e w = Some w' → step e w' = Some w'.
Proof.
  destruct e as [|r i v txn|o f|r|r|]; simpl; try done; intros _.
  - (* writeDone *)
    unfold writeDone at 1.
    destruct (bool_decide_reflect (outcome (acc w) = o)) as [Ho|Ho];
      simpl; [|by intros [= <-]; unfold writeDone; rewrite bool_decide_eq_false_2].
    destruct (bool_decide_reflect (currentState (acc w) = Some acceptorWriteToDisk))
      as [Hc|Hc]; simpl;
      [|by intros [= <-]; unfold writeDone;
           rewrite (bool_decide_eq_false_2 (currentState _ = _)), andb_false_r].
    unfold nextState, nextStateWith. simpl. rewrite Hc. simpl. intros Hs.
    destruct (acceptorAwaitLocallyComplete_start_spec _ _ Hs)
      as (p & _ & _ & _ & _ & _ & Hst).
    unfold writeDone. rewrite (bool_decide_eq_false_2 (currentState _ = _)), andb_false_r;
      [done|]. destruct Hst as [(-> & _)| ->]; done.
  - (* TLC *)
    unfold TxnLocallyCompleteReceived at 1. simpl.
    destruct (bool_decide_reflect (currentState (acc w) = Some acceptorAwaitLocallyComplete))
      as [Hc|Hc].
    + rewrite maybeDelete_unfold. unfold maybeDeleteGuard. simpl. rewrite Hc.
      rewrite bool_decide_eq_true_2 by done. simpl.
      destruct (_ && _) eqn:Eg.
      * unfold acceptorDeleteFromDisk_start. intros [= <-].
        unfold TxnLocallyCompleteReceived. simpl. rewrite removeTwoBSender_acc. simpl.
        f_equal. apply withAcc_fixed. apply set_tlcsReceived_fixed.
        simpl. rewrite removeTwoBSender_acc. simpl. set_solver.
      * intros [= <-]. unfold TxnLocallyCompleteReceived. simpl. rewrite Hc.
        rewrite bool_decide_eq_true_2 by done.
        assert (∀ v v' : World, v = v' → maybeDelete v' = Some v' → maybeDelete v = Some v')
          as Hsame by (by intros ?? ->).
        apply Hsame.
        -- rewrite (withAcc_fixed _ (withAcc _ (withAcc _ w))).
           ++ apply withAcc_fixed. apply set_pendingTLC_fixed. simpl. set_solver.
           ++ apply set_tlcsReceived_fixed. simpl. set_solver.
        -- rewrite maybeDelete_unfold. unfold maybeDeleteGuard. simpl. rewrite Hc.
           rewrite bool_decide_eq_true_2 by done. simpl. by rewrite Eg.
    + intros [= <-]. unfold TxnLocallyCompleteReceived. simpl.
      rewrite bool_decide_eq_false_2 by done. f_equal.
      apply withAcc_fixed. apply set_tlcsReceived_fixed. simpl. set_solver.
  - (* TSC *)
    unfold TxnSubmissionCompleteReceived at 1.
    destruct (tscReceived (acc w)) eqn:Etsc; simpl.
    + intros [= <-]. unfold TxnSubmissionCompleteReceived. by rewrite Etsc.
    + intros Hs. assert (tscReceived (acc w') = true) as Et.
      { rewrite maybeDelete_unfold in Hs. destruct (maybeDeleteGuard _).
        - unfold acceptorDeleteFromDisk_start in Hs. injection Hs as <-. simpl.
          by rewrite removeTwoBSender_acc.
        - by injection Hs as <-. }
      unfold TxnSubmissionCompleteReceived. by rewrite Et.
  - (* deletionDone *)
    unfold deletionDone at 1. case_bool_decide as Hc.
    + unfold nextState, nextStateWith. rewrite Hc. intros [= <-].
      unfold deletionDone. simpl. done.
    + intros [= <-]. unfold deletionDone. by rewrite bool_decide_eq_false_2.
Qed.

Lemma maybeDelete_outcomes w w' :
  maybeDelete w = Some w' →
  outcome (acc w') = outcome (acc w) ∧ outcomeOnDisk (acc w') = outcomeOnDisk (acc w) ∧
  ∃ new, effects w' = effects w ++ new.
Proof.
  intros Hs. destruct (maybeDelete_extends _ _ Hs) as ((new & He & _) & _).
  split_and!; [| |by exists new]; rewrite maybeDelete_unfold in Hs;
    destruct (maybeDeleteGuard _); unfold acceptorDeleteFromDisk_start in Hs;
    simplify_eq/=; by rewrite ?removeTwoBSender_acc.
Qed.

Lemma acceptorAwaitLocallyComplete_start_outcomes w w' :
  acceptorAwaitLocallyComplete_start w = Some w' →
  outcome (acc w') = outcome (acc w) ∧ outcomeOnDisk (acc w') = outcomeOnDisk (acc w) ∧
  ∃ new, effects w' = effects w ++ new.
Proof.
  intros Hs.
  destruct (acceptorAwaitLocallyComplete_start_spec _ _ Hs)
    as (p & _ & (_ & _ & Ho & Hd & _) & _).
  destruct (acceptorAwaitLocallyComplete_start_result _ _ Hs)
    as (p' & _ & _ & _ & (new & He & _) & _).
  split_and!; [done|done|by exists new].
Qed.

(** What one event does to the outcome held, to the outcome recorded
    as on disk and to the writes scheduled. *)
Lemma step_schedules e w w' :
  step e w = Some w' →
  ∃ new, effects w' = effects w ++ new ∧
    (∀ p, outcome (acc w') = Some p →
          outcome (acc w) = Some p ∨ Exists (schedulesWrite p) new) ∧
    (∀ p, outcomeOnDisk (acc w') = Some p →
          outcomeOnDisk (acc w) = Some p ∨ outcome (acc w) = Some p).
Proof.
  assert (∀ v v', outcome (acc v') = outcome (acc v) →
            outcomeOnDisk (acc v') = outcomeOnDisk (acc v) →
            (∃ new, effects v' = effects v ++ new) →
            ∃ new, effects v' = effects v ++ new ∧
              (∀ p, outcome (acc v') = Some p →
                    outcome (acc v) = Some p ∨ Exists (schedulesWrite p) new) ∧
              (∀ p, outcomeOnDisk (acc v') = Some p →
                    outcomeOnDisk (acc v) = Some p ∨ outcome (acc v) = Some p)) as Hkeep.
  { intros v v' -> -> (new & He). exists new. split; [done|]. split; intros p Hp; by left. }
  assert (∀ v, ∃ new, effects v = effects v ++ new) as Hnil
    by (intros v; exists []; by rewrite app_nil_r).
  destruct e as [|r i v txn|o f|r|r|]; simpl; intros Hs.
  - unfold Start in Hs. destruct (currentState (acc w)); [simplify_eq; apply Hkeep; [done|done|first [done|by (exists []; simpl; rewrite app_nil_r)]]|].
    destruct (outcomeOnDisk (acc w)) eqn:Ed; simpl in Hs; rewrite <-Ed.
    + destruct (acceptorAwaitLocallyComplete_start_outcomes _ _ Hs) as (Ho & Hd & Hn).
      apply Hkeep; [done|done|first [done|by (exists []; simpl; rewrite app_nil_r)]].
    + unfold acceptorReceiveBallots_start in Hs. simplify_eq. apply Hkeep; [done|done|first [done|by (exists []; simpl; rewrite app_nil_r)]].
  - unfold BallotAccepted in Hs.
    set (w1 := if bool_decide _ then _ else _) in Hs.
    assert (acc w1 = acc w ∧ ∃ new, effects w1 = effects w ++ new) as [Hacc [new1 He1]].
    { subst w1. case_bool_decide; [|done]. split; [done|]. by eexists [_]. }
    destruct (BallotReceived _ _ _ _ _ _) as [[ba st] res].
    destruct res as [o|];
      [|simplify_eq; apply Hkeep; simpl; rewrite ?Hacc; [done|done|by exists new1]].
    destruct (outcomeEqual st o (outcome (acc w))); simpl in Hs;
      [simplify_eq; apply Hkeep; simpl; rewrite ?Hacc; [done|done|by exists new1]|].
    unfold nextState, nextStateWith in Hs. simpl in Hs.
    apply acceptorWriteToDisk_start_spec in Hs as (p & Hp & Ha & _ & He).
    simpl in Hp, Ha, He. injection Hp as <-.
    eexists (new1 ++ [_]). rewrite He, He1, <-app_assoc. split; [done|].
    rewrite Ha. simpl. rewrite Hacc. split.
    + intros p [= <-]. right. apply Exists_app. right. by constructor.
    + intros p Hp. by left.
  - unfold writeDone in Hs.
    destruct (bool_decide_reflect (outcome (acc w) = o)) as [Ho|Ho]; simpl in Hs;
      [|simplify_eq; apply Hkeep; [done|done|first [done|by (exists []; simpl; rewrite app_nil_r)]]].
    destruct (bool_decide_reflect (currentState (acc w) = Some acceptorWriteToDisk))
      as [Hc|Hc]; simpl in Hs; [|simplify_eq; apply Hkeep; [done|done|first [done|by (exists []; simpl; rewrite app_nil_r)]]].
    unfold nextState, nextStateWith in Hs. simpl in Hs. rewrite Hc in Hs. simpl in Hs.
    destruct (acceptorAwaitLocallyComplete_start_outcomes _ _ Hs) as (Ho' & Hd' & new & He).
    simpl in *. exists new. split; [done|]. rewrite Ho', Hd'. split.
    + intros p Hp. by left.
    + intros p Hp. right. congruence.
  - unfold TxnLocallyCompleteReceived in Hs. simpl in Hs. case_bool_decide.
    + destruct (maybeDelete_outcomes _ _ Hs) as (Ho & Hd & Hn). apply Hkeep; [done|done|first [done|by (exists []; simpl; rewrite app_nil_r)]].
    + simplify_eq. apply Hkeep; [done|done|first [done|by (exists []; simpl; rewrite app_nil_r)]].
  - unfold TxnSubmissionCompleteReceived in Hs. destruct (negb _).
    + destruct (maybeDelete_outcomes _ _ Hs) as (Ho & Hd & Hn). apply Hkeep; [done|done|first [done|by (exists []; simpl; rewrite app_nil_r)]].
    + simplify_eq. apply Hkeep; [done|done|first [done|by (exists []; simpl; rewrite app_nil_r)]].
  - unfold deletionDone in Hs. case_bool_decide as Hc; [|simplify_eq; apply Hkeep; [done|done|first [done|by (exists []; simpl; rewrite app_nil_r)]]].
    unfold nextState, nextStateWith in Hs. rewrite Hc in Hs. injection Hs as <-.
    eexists [_; _]. simpl. rewrite <-app_assoc. split; [done|].
    split; intros p Hp; by left.
Qed.

Lemma run_schedules es : ∀ w w',
  run es w = Some w' →
  ∃ new, effects w' = effects w ++ new ∧
    ∀ p, outcome (acc w') = Some p ∨ outcomeOnDisk (acc w') = Some p →
         outcome (acc w) = Some p ∨ outcomeOnDisk (acc w) = Some p ∨
         Exists (schedulesWrite p) new.
Proof.
  induction es as [|e es IH]; intros w w'; cbn [run].
  - intros [= <-]. exists []. rewrite app_nil_r. split; [done|]. tauto.
  - destruct (step e w) as [w1|] eqn:Es; [|done]. intros Hr.
    destruct (step_schedules _ _ _ Es) as (new1 & He1 & Ho1 & Hd1).
    destruct (IH _ _ Hr) as (new2 & He2 & H2).
    exists (new1 ++ new2). rewrite He2, He1, app_assoc. split; [done|].
    intros p Hp. destruct (H2 p Hp) as [Ho|[Hd|Hex]].
    + destruct (Ho1 p Ho) as [?|Hex]; [by left|].
      right; right. apply Exists_app. by left.
    + destruct (Hd1 p Hd) as [?|?]; [right; by left|by left].
    + right; right. apply Exists_app. by right.
Qed.

(** X24. What an acceptor takes to be on disk, it has asked to be
    written.  Along every trace, the outcome recorded as on disk is the
    one the acceptor was rebuilt with from its disk record, or one for
    which it has scheduled a disk write whose completion names that very
    outcome; the same holds of the outcome it holds in memory. *)
Theorem on_disk_was_scheduled w0 es w p :
  Initial w0 → run es w0 = Some w →
  outcomeOnDisk (acc w) = Some p ∨ outcome (acc w) = Some p →
  outcomeOnDisk (acc w0) = Some p ∨ Exists (schedulesWrite p) (effects w).
Proof.
  intros Hi Hr Hp. destruct (run_schedules _ _ _ Hr) as (new & He & Hall).
  destruct Hi as [He0 Hcons]. rewrite He, He0. simpl.
  destruct (Hall p) as [Ho|[Hd|Hex]]; [tauto| | |by right].
  - left. destruct Hcons as [(t & txn & Ha)|(t & txn & o & f & i & Ha)];
      rewrite Ha in *; simpl in *; done.
  - by left.
Qed.

(** X25. The transitions of the state machine.  An event either leaves
    the state as it is or moves the acceptor along one of these edges:
    [Start] from no state to ReceiveBallots, AwaitLocallyComplete or
    DeleteFromDisk; a ballot from any state to WriteToDisk; the
    completion of a write from WriteToDisk to AwaitLocallyComplete or
    DeleteFromDisk; a TLC or the TSC from AwaitLocallyComplete to
    DeleteFromDisk; the completion of a deletion from DeleteFromDisk to no
    state. *)
Theorem state_machine_edges e w w' :
  step e w = Some w' →
  currentState (acc w') = currentState (acc w) ∨
  edge e (currentState (acc w)) (currentState (acc w')).
Proof.
  assert (∀ v v', maybeDelete v = Some v' →
            currentState (acc v') = currentState (acc v) ∨
            (currentState (acc v) = Some acceptorAwaitLocallyComplete ∧
             currentState (acc v') = Some acceptorDeleteFromDisk)) as HM.
  { intros v v'. rewrite maybeDelete_unfold. unfold maybeDeleteGuard.
    destruct (bool_decide_reflect (currentState (acc v) = Some acceptorAwaitLocallyComplete))
      as [Hc|Hc]; simpl; [|intros [= <-]; by left].
    destruct (_ && _); [|intros [= <-]; by left].
    unfold acceptorDeleteFromDisk_start. intros [= <-]. right. split; [done|].
    simpl. by rewrite removeTwoBSender_acc. }
  destruct e as [|r i v txn|o f|r|r|]; simpl; intros Hs.
  - unfold Start in Hs. destruct (currentState (acc w)) eqn:Ec; [simplify_eq; by left|].
    right. split; [done|].
    destruct (outcomeOnDisk (acc w)); simpl in Hs.
    + destruct (acceptorAwaitLocallyComplete_start_spec _ _ Hs)
        as (p & _ & _ & _ & _ & _ & [(-> & _)| ->]); tauto.
    + unfold acceptorReceiveBallots_start in Hs. simplify_eq. by left.
  - unfold BallotAccepted in Hs.
    set (w1 := if bool_decide _ then _ else _) in Hs.
    assert (acc w1 = acc w) as Hacc by (subst w1; by case_bool_decide).
    destruct (BallotReceived _ _ _ _ _ _) as [[ba st] res].
    destruct res as [o|]; [|simplify_eq; left; simpl; by rewrite Hacc].
    destruct (outcomeEqual st o (outcome (acc w))); simpl in Hs;
      [simplify_eq; left; simpl; by rewrite Hacc|].
    unfold nextState, nextStateWith in Hs. simpl in Hs.
    apply acceptorWriteToDisk_start_spec in Hs as (p & _ & -> & _). by right.
  - unfold writeDone in Hs.
    destruct (bool_decide_reflect (outcome (acc w) = o)) as [Ho|Ho]; simpl in Hs;
      [|simplify_eq; by left].
    destruct (bool_decide_reflect (currentState (acc w) = Some acceptorWriteToDisk))
      as [Hc|Hc]; simpl in Hs; [|simplify_eq; by left].
    unfold nextState, nextStateWith in Hs. simpl in Hs. rewrite Hc in Hs. simpl in Hs.
    right. split; [done|].
    destruct (acceptorAwaitLocallyComplete_start_spec _ _ Hs)
      as (p & _ & _ & _ & _ & _ & [(-> & _)| ->]); tauto.
  - unfold TxnLocallyCompleteReceived in Hs. simpl in Hs. case_bool_decide.
    + destruct (HM _ _ Hs) as [->|[? ->]]; [by left|by right].
    + simplify_eq. by left.
  - unfold TxnSubmissionCompleteReceived in Hs. destruct (negb _).
    + destruct (HM _ _ Hs) as [->|[? ->]]; [by left|by right].
    + simplify_eq. by left.
  - unfold deletionDone in Hs. case_bool_decide as Hc; [|simplify_eq; by left].
    unfold nextState, nextStateWith in Hs. rewrite Hc in Hs. simplify_eq/=.
    by right.
Qed.

End Steps.

(** ** The 2B sender *)

Section Senders.

Lemma sendToFirst_spec rmId m rs :
  sendToFirst rmId m rs = if decide (rmId ∈ rs) then [(rmId, m)] else [].
Proof.
  induction rs as [|r rs IH]; cbn [sendToFirst].
  - rewrite decide_False; [done|]. apply not_elem_of_nil.
  - destruct (decide (r = rmId)) as [->|Hne].
    + rewrite decide_True; [done|]. apply list_elem_of_here.
    + rewrite IH. destruct (decide (rmId ∈ rs)) as [Hin|Hin].
      * rewrite decide_True; [done|]. by apply list_elem_of_further.
      * rewrite decide_False; [done|]. intros Hin'.
        apply elem_of_cons in Hin' as [?|?]; congruence.
Qed.

(** X10. What [ConnectedRMs] sends.  Every message goes to a replica
    that has a connection; the submitter gets the submitter message;
    each recipient gets the 2B message; nobody gets anything else, and
    without connections nothing is sent. *)
Theorem ConnectedRMs_sends s conns r m :
  (r, m) ∈ ConnectedRMs s conns ↔
  r ∈ conns ∧ ((r = submitter s ∧ m = submitterMsg s) ∨
               (r ∈ recipients s ∧ m = msg s)).
Proof.
  unfold ConnectedRMs. rewrite elem_of_app, list_elem_of_omap. split.
  - intros [Hsub|(r' & Hin & Hsome)].
    + destruct (decide (submitter s ∈ conns)) as [Hc|Hc];
        [|by apply elem_of_nil in Hsub].
      apply list_elem_of_singleton in Hsub. injection Hsub as -> ->.
      split; [done|]. by left.
    + destruct (decide (r' ∈ conns)) as [Hc|Hc]; [|done].
      injection Hsome as -> ->. split; [done|]. by right.
  - intros (Hc & [[-> ->]|[Hin ->]]).
    + left. rewrite decide_True by done. apply list_elem_of_here.
    + right. exists r. split; [done|]. by rewrite decide_True.
Qed.

Lemma omap_connected_single rmId (m : Message) rs :
  NoDup rs →
  omap (λ r : N, if decide (r ∈ ({[rmId]} : gset N)) then Some (r, m) else None) rs =
  if decide (rmId ∈ rs) then [(rmId, m)] else [].
Proof.
  induction 1 as [|r rs Hnotin Hnd IH]; cbn [omap list_omap].
  - rewrite decide_False; [done|]. apply not_elem_of_nil.
  - rewrite IH. destruct (decide (r ∈ ({[rmId]} : gset N))) as [Hr|Hr].
    + apply elem_of_singleton in Hr as ->.
      rewrite (decide_True (P := rmId ∈ rmId :: rs)) by apply list_elem_of_here.
      by rewrite decide_False.
    + assert (r ≠ rmId) as Hne by set_solver.
      destruct (decide (rmId ∈ rs)) as [Hin|Hin].
      * rewrite decide_True; [done|]. by apply list_elem_of_further.
      * rewrite decide_False; [done|]. intros Hin'.
        apply elem_of_cons in Hin' as [?|?]; congruence.
Qed.

(** X11. What [ConnectionEstablished] sends to a replica that has just
    connected: the submitter message when it is the submitter, then the
    2B message when it is listed among the recipients, once, however
    often it is listed.  When no recipient is listed twice this is what
    [ConnectedRMs] sends when that replica is the only one connected. *)
Theorem ConnectionEstablished_sends s rmId :
  ConnectionEstablished s rmId =
    (if decide (submitter s = rmId) then [(rmId, submitterMsg s)] else []) ++
    (if decide (rmId ∈ recipients s) then [(rmId, msg s)] else []) ∧
  (NoDup (recipients s) → ConnectionEstablished s rmId = ConnectedRMs s {[rmId]}).
Proof.
  unfold ConnectionEstablished. rewrite sendToFirst_spec. split; [done|].
  intros Hnd. unfold ConnectedRMs. rewrite omap_connected_single by done. f_equal.
  destruct (decide (submitter s = rmId)) as [->|Hne].
  - rewrite decide_True; [done|]. set_solver.
  - rewrite decide_False; [done|]. set_solver.
Qed.

(** X12. Building a sender consumes the updates of an abort.  The
    outcome record is shared with the acceptor and rewritten in place, so
    a second sender built from the same record has nothing left to send
    the submitter but the bare resubmit: its submitter message carries no
    updates, its 2B message is that of the first sender, and the record
    is left as the first call left it. *)
Theorem newTwoBTxnVotesSender_twice (st : Store) (p : OutcomePtr)
    (t t' : TxnId) (sub sub' : RMId) (rs rs' : list RMId) :
  Which (st p) = OUTCOME_ABORT →
  let r1 := newTwoBTxnVotesSender st p t sub rs in
  let r2 := newTwoBTxnVotesSender r1.1 p t' sub' rs' in
  submitterMsg r1.2 = SubmissionOutcome (st p) ∧
  submitterMsg r2.2 = SubmissionOutcome (Abort ABORT_RESUBMIT) ∧
  msg r2.2 = msg r1.2 ∧ (∀ q, r2.1 q = r1.1 q) ∧ updatesOf (r1.1 p) = [].
Proof.
  intros Hw. unfold newTwoBTxnVotesSender. cbn [fst snd submitterMsg msg].
  rewrite (decide_True (P := Which (st p) = OUTCOME_ABORT)) by done.
  assert (storeSet st p (SetResubmit (st p)) p = Abort ABORT_RESUBMIT) as E1.
  { unfold storeSet. rewrite decide_True by done. by destruct (st p). }
  rewrite !E1. cbn [Which SetResubmit updatesOf].
  rewrite (decide_True (P := OUTCOME_ABORT = OUTCOME_ABORT)) by done.
  assert (∀ q, storeSet (storeSet st p (SetResubmit (st p))) p (Abort ABORT_RESUBMIT) q =
               storeSet st p (SetResubmit (st p)) q) as E2.
  { intros q. unfold storeSet. destruct (decide (q = p)) as [->|]; [|done].
    by destruct (st p). }
  rewrite E2, E1. split_and!; done.
Qed.

End Senders.

(** ** Examples *)

(** The example's acceptor goes to completion twice, with a late ballot
    in between. *)
Lemma run_never_panics_witness :
  ∃ w, @run ballotDecides completeTwice exampleWorld = Some w.
Proof.
  apply (@run_never_panics ballotDecides exampleWorld completeTwice).
  split; [reflexivity|]. left. by exists 40%N, exampleTxn.
Defined.

Lemma exampleWorld_Initial : @Initial ballotDecides exampleWorld.
Proof. split; [reflexivity|]. left. by exists 40%N, exampleTxn. Qed.

(** After the two rounds the connection manager holds no sender of the
    example's acceptor, and the acceptor knows of none. *)
Lemma sender_calls_balanced_witness :
  ∃ w, @run ballotDecides completeTwice exampleWorld = Some w ∧
       heldSender (effects w) = Some None ∧ twoBSender (acc w) = None.
Proof.
  assert (from_option (λ w : @World ballotDecides, Some (currentState (acc w))) None
            (@run ballotDecides completeTwice exampleWorld) = Some None) as Hres
    by (vm_compute; reflexivity).
  destruct (@run ballotDecides completeTwice exampleWorld) as [w|] eqn:E;
    [|simpl in Hres; discriminate Hres].
  simpl in Hres. injection Hres as Hc. exists w. split; [done|].
  destruct (@sender_calls_balanced ballotDecides exampleWorld completeTwice w
              exampleWorld_Initial E) as [Hh Hn].
  rewrite Hn in Hh by (by rewrite Hc). split; [exact Hh|]. apply Hn; by rewrite Hc.
Defined.

(** With the abort written and a TLC from replica 2 received early, the
    example's acceptor awaits replica 1 only. *)
Lemma awaits_silent_recipients_witness :
  ∃ w s, @run ballotDecides abortAwaited exampleWorld = Some w ∧
         twoBSender (acc w) = Some s ∧ recipients s = [1%N; 2%N] ∧
         pendingTLC (acc w) = list_to_set (recipients s) ∖ tlcsReceived (acc w).
Proof.
  assert (from_option
            (λ w : @World ballotDecides,
               Some (currentState (acc w), recipients <$> twoBSender (acc w))) None
            (@run ballotDecides abortAwaited exampleWorld)
          = Some (Some acceptorAwaitLocallyComplete, Some [1%N; 2%N])) as Hres
    by (vm_compute; reflexivity).
  destruct (@run ballotDecides abortAwaited exampleWorld) as [w|] eqn:E;
    [|simpl in Hres; discriminate Hres].
  simpl in Hres. injection Hres as Hc Hr.
  destruct (@awaits_silent_recipients ballotDecides exampleWorld abortAwaited w
              exampleWorld_Initial E Hc) as (s & Hs & Hp & _).
  exists w, s. split; [done|]. split; [done|]. split; [|done].
  rewrite Hs in Hr. by injection Hr.
Defined.

(** The TLC of replica 2 reached the example's acceptor before the
    outcome was decided; it is on record and replica 2 is not awaited. *)
Lemma tlcs_never_forgotten_witness :
  ∃ w, @run ballotDecides abortAwaited exampleWorld = Some w ∧
       tlcsReceived (acc w) = {[ 2%N ]} ∧ 2%N ∉ pendingTLC (acc w).
Proof.
  assert (from_option (λ w : @World ballotDecides, Some (currentState (acc w))) None
            (@run ballotDecides abortAwaited exampleWorld)
          = Some (Some acceptorAwaitLocallyComplete)) as Hres
    by (vm_compute; reflexivity).
  destruct (@run ballotDecides abortAwaited exampleWorld) as [w|] eqn:E;
    [|simpl in Hres; discriminate Hres].
  simpl in Hres. injection Hres as Hc.
  destruct (@tlcs_never_forgotten ballotDecides exampleWorld abortAwaited w
              exampleWorld_Initial E) as [Ht Hn].
  exists w. split; [done|]. split.
  - rewrite Ht. vm_compute. reflexivity.
  - apply (Hn Hc). vm_compute. apply list_elem_of_here.
Defined.


(** Everything the example's acceptor does over the two rounds is about
    transaction 40. *)
Lemma effects_about_own_txn_witness :
  ∃ w, @run ballotDecides completeTwice exampleWorld = Some w ∧
       txnId (acc w) = 40%N ∧ Forall (aboutTxn 40%N) (effects w).
Proof.
  assert (from_option (λ _ : @World ballotDecides, true) false
            (@run ballotDecides completeTwice exampleWorld) = true) as Hres
    by (vm_compute; reflexivity).
  destruct (@run ballotDecides completeTwice exampleWorld) as [w|] eqn:E;
    [|simpl in Hres; discriminate Hres].
  exists w. split; [done|].
  exact (@effects_about_own_txn ballotDecides exampleWorld completeTwice w
           exampleWorld_Initial E).
Defined.

(** Starting the recovered acceptor twice is starting it once. *)
Lemma Start_idempotent_witness :
  ∃ w, @Start ballotDecides recoveredWorld = Some w ∧
       @Start ballotDecides w = Some w.
Proof.
  assert (from_option (λ _ : @World ballotDecides, true) false
            (@Start ballotDecides recoveredWorld) = true) as Hres
    by (vm_compute; reflexivity).
  destruct (@Start ballotDecides recoveredWorld) as [w|] eqn:E;
    [|simpl in Hres; discriminate Hres].
  exists w. split; [done|].
  exact (@Start_idempotent ballotDecides recoveredWorld w E).
Defined.

(** The example's acceptor, taken to DeleteFromDisk, finishes when the
    deletion completes; a second completion, a TLC and a TSC then do
    nothing. *)
Lemma deletionDone_finishes_witness :
  ∃ w w', @run ballotDecides abortThenComplete exampleWorld = Some w ∧
    @deletionDone ballotDecides w = Some w' ∧
    ∃ v, @run ballotDecides
           [ @EvDeletionDone ballotDecides;
             @EvTxnLocallyCompleteReceived ballotDecides 3%N;
             @EvTxnSubmissionCompleteReceived ballotDecides 9%N ] w' = Some v ∧
         effects v = effects w'.
Proof.
  assert (from_option (λ w : @World ballotDecides, Some (currentState (acc w))) None
            (@run ballotDecides abortThenComplete exampleWorld)
          = Some (Some acceptorDeleteFromDisk)) as Hres
    by (vm_compute; reflexivity).
  destruct (@run ballotDecides abortThenComplete exampleWorld) as [w|] eqn:E;
    [|simpl in Hres; discriminate Hres].
  simpl in Hres. injection Hres as Hc.
  destruct (@deletionDone_finishes ballotDecides w Hc) as (w' & Hd & Hn & _ & Hq).
  exists w, w'. split; [done|]. split; [done|].
  destruct (Hq [ @EvDeletionDone ballotDecides;
                 @EvTxnLocallyCompleteReceived ballotDecides 3%N;
                 @EvTxnSubmissionCompleteReceived ballotDecides 9%N ] w')
    as (v & Hr & He & _); [by repeat constructor|done|].
  by exists v.
Defined.

(** Replica 1, connecting alone, is sent the 2B message of the example
    sender once by either callback. *)
Lemma ConnectionEstablished_sends_witness :
  ConnectionEstablished exampleSender 1%N = ConnectedRMs exampleSender {[ 1%N ]} ∧
  ConnectionEstablished exampleSender 1%N = [(1%N, msg exampleSender)].
Proof.
  destruct (ConnectionEstablished_sends exampleSender 1%N) as [Hc Hn].
  split; [|exact Hc]. apply Hn. apply (bool_decide_unpack _). by vm_compute.
Defined.

(** The abort at address 1 carries updates; the submitter message of a
    second sender built from it does not. *)
Lemma newTwoBTxnVotesSender_twice_witness :
  let r1 := newTwoBTxnVotesSender exampleStore 1%N 40%N 9%N [1%N; 2%N] in
  let r2 := newTwoBTxnVotesSender r1.1 1%N 40%N 9%N [1%N; 2%N] in
  submitterMsg r1.2 = SubmissionOutcome (Abort (ABORT_RERUN [[1%N; 2%N; 3%N]])) ∧
  submitterMsg r2.2 = SubmissionOutcome (Abort ABORT_RESUBMIT).
Proof.
  destruct (newTwoBTxnVotesSender_twice exampleStore 1%N 40%N 40%N 9%N 9%N
              [1%N; 2%N] [1%N; 2%N] eq_refl) as (H1 & H2 & _).
  split; [exact H1|exact H2].
Defined.

(** The TLC of replica 1 takes the example's acceptor to
    DeleteFromDisk; delivered again it changes nothing. *)
Lemma deliveries_idempotent_witness :
  ∃ w w', @run ballotDecides abortAwaited exampleWorld = Some w ∧
    @step ballotDecides (@EvTxnLocallyCompleteReceived ballotDecides 1%N) w = Some w' ∧
    @step ballotDecides (@EvTxnLocallyCompleteReceived ballotDecides 1%N) w' = Some w'.
Proof.
  assert (from_option
            (λ w : @World ballotDecides,
               from_option (λ _ : @World ballotDecides, true) false
                 (@step ballotDecides (@EvTxnLocallyCompleteReceived ballotDecides 1%N) w))
            false
            (@run ballotDecides abortAwaited exampleWorld) = true) as Hres
    by (vm_compute; reflexivity).
  destruct (@run ballotDecides abortAwaited exampleWorld) as [w|] eqn:E;
    [|simpl in Hres; discriminate Hres].
  cbn [from_option] in Hres.
  destruct (@step ballotDecides (@EvTxnLocallyCompleteReceived ballotDecides 1%N) w)
    as [w'|] eqn:Es; [|discriminate Hres].
  exists w, w'. split; [done|]. split; [done|].
  exact (@deliveries_idempotent ballotDecides
           (@EvTxnLocallyCompleteReceived ballotDecides 1%N) w w' eq_refl Es).
Defined.

(** The abort at address 1 is on disk for the example's acceptor, which
    started with nothing on disk: a write was scheduled for it. *)
Lemma on_disk_was_scheduled_witness :
  ∃ w, @run ballotDecides abortAwaited exampleWorld = Some w ∧
       outcomeOnDisk (acc w) = Some 1%N ∧
       Exists (schedulesWrite 1%N) (effects w).
Proof.
  assert (from_option (λ w : @World ballotDecides, outcomeOnDisk (acc w)) None
            (@run ballotDecides abortAwaited exampleWorld) = Some 1%N) as Hres
    by (vm_compute; reflexivity).
  destruct (@run ballotDecides abortAwaited exampleWorld) as [w|] eqn:E;
    [|simpl in Hres; discriminate Hres].
  simpl in Hres. exists w. split; [done|]. split; [done|].
  destruct (@on_disk_was_scheduled ballotDecides exampleWorld abortAwaited w 1%N
              exampleWorld_Initial E (or_introl Hres)) as [Hn|Hex]; [|exact Hex].
  discriminate Hn.
Defined.

(** The last TLC takes the example's acceptor from
    AwaitLocallyComplete to DeleteFromDisk. *)
Lemma state_machine_edges_witness :
  ∃ w w', @run ballotDecides abortAwaited exampleWorld = Some w ∧
    @step ballotDecides (@EvTxnLocallyCompleteReceived ballotDecides 1%N) w = Some w' ∧
    (currentState (acc w') = currentState (acc w) ∨
     (currentState (acc w) = Some acceptorAwaitLocallyComplete ∧
      currentState (acc w') = Some acceptorDeleteFromDisk)).
Proof.
  assert (from_option
            (λ w : @World ballotDecides,
               from_option (λ _ : @World ballotDecides, true) false
                 (@step ballotDecides (@EvTxnLocallyCompleteReceived ballotDecides 1%N) w))
            false
            (@run ballotDecides abortAwaited exampleWorld) = true) as Hres
    by (vm_compute; reflexivity).
  destruct (@run ballotDecides abortAwaited exampleWorld) as [w|] eqn:E;
    [|simpl in Hres; discriminate Hres].
  cbn [from_option] in Hres.
  destruct (@step ballotDecides (@EvTxnLocallyCompleteReceived ballotDecides 1%N) w)
    as [w'|] eqn:Es; [|discriminate Hres].
  exists w, w'. split; [done|]. split; [done|].
  exact (@state_machine_edges ballotDecides
           (@EvTxnLocallyCompleteReceived ballotDecides 1%N) w w' Es).
Defined.

End AcceptorTraceProofs.

(** * Properties of the submitter across its calls *)

Module SubmitterCallProofs.

Import msgs client submitter_calls SubmitterProofs.

Section Hooks.
Context `{Collaborators}.

Lemma hooked_ext w w' :
  outcomeConsumers (sts w') = outcomeConsumers (sts w) →
  onShutdown (sts w') = onShutdown (sts w) →
  nextAddr w' = nextAddr w →
  hooked w → hooked w'.
Proof. unfold hooked. by intros -> -> ->. Qed.

Lemma SubmitTransaction_fields txn active k delay w :
  let w' := SubmitTransaction txn active k delay w in
  let f := {| sfTxnId := Id txn;
              sfTxnSender := {| rsMsg := TxnSubmission txn; rsRecipients := active |};
              sfAcceptors := GetAcceptorsFromTxn txn; sfRetry := Retry txn;
              sfActiveRMs := active; sfContinuation := k |} in
  outcomeConsumers (sts w') =
    <[Id txn := {| cOutcomeAccumulator :=
                     NewOutcomeAccumulator (FInc txn) (GetAcceptorsFromTxn txn);
                   cShutdownFunPtr := nextAddr w; cShutdownFun := f;
                   cContinuation := k |}]> (outcomeConsumers (sts w)) ∧
  onShutdown (sts w') = <[nextAddr w := f]> (onShutdown (sts w)) ∧
  nextAddr w' = (nextAddr w + 1)%N ∧
  effects w' = effects w ++
    [if bool_decide (delay = 0%N)
     then AddSender {| rsMsg := TxnSubmission txn; rsRecipients := active |}
     else AddSenderAfter delay {| rsMsg := TxnSubmission txn; rsRecipients := active |}] ∧
  topology (sts w') = topology (sts w) ∧
  bufferedSubmissions (sts w') = bufferedSubmissions (sts w) ∧
  connections (sts w') = connections (sts w) ∧
  disabledHashCodes (sts w') = disabledHashCodes (sts w) ∧
  hashCache (sts w') = hashCache (sts w).
Proof. simpl. unfold SubmitTransaction. by case_bool_decide. Qed.

Lemma hooked_SubmitTransaction txn active k delay w :
  hooked w → hooked (SubmitTransaction txn active k delay w).
Proof.
  intros (Hk & Hinj & Hfresh).
  destruct (SubmitTransaction_fields txn active k delay w) as (Hc & Hs & Hn & _).
  unfold hooked. rewrite Hc, Hs, Hn. split_and!.
  - intros t c. destruct (decide (Id txn = t)) as [<-|Hne].
    + rewrite lookup_insert_eq. intros [= <-]. simpl.
      by rewrite lookup_insert_eq.
    + rewrite lookup_insert_ne by done. intros Hl.
      destruct (Hk _ _ Hl) as (? & ? & Hh). split_and!; [done|done|].
      rewrite lookup_insert_ne; [done|]. apply Hfresh in Hh. lia.
  - intros t1 t2 c1 c2.
    destruct (decide (Id txn = t1)) as [<-|Hne1];
      destruct (decide (Id txn = t2)) as [<-|Hne2]; [done|..].
    + rewrite lookup_insert_eq, lookup_insert_ne by done. intros [= <-] Hl2. simpl.
      destruct (Hk _ _ Hl2) as (_ & _ & Hh). apply Hfresh in Hh. lia.
    + rewrite lookup_insert_eq, lookup_insert_ne by done. intros Hl1 [= <-]. simpl.
      destruct (Hk _ _ Hl1) as (_ & _ & Hh). apply Hfresh in Hh. lia.
    + rewrite !lookup_insert_ne by done. apply Hinj.
  - intros p f. destruct (decide (nextAddr w = p)) as [<-|Hne].
    + intros _. lia.
    + rewrite lookup_insert_ne by done. intros Hl. apply Hfresh in Hl. lia.
Qed.

Lemma SubmissionOutcomeReceived_fields sender t outcome w :
  let w' := SubmissionOutcomeReceived sender t outcome w in
  nextAddr w' = nextAddr w ∧
  match outcomeConsumers (sts w) !! t with
  | None => sts w' = sts w
  | Some c =>
      let r := BallotOutcomeReceived (cOutcomeAccumulator c) sender outcome in
      let c' := {| cOutcomeAccumulator := r.1; cShutdownFunPtr := cShutdownFunPtr c;
                   cShutdownFun := cShutdownFun c; cContinuation := cContinuation c |} in
      match r.2 with
      | None =>
          outcomeConsumers (sts w') = <[t := c']> (outcomeConsumers (sts w)) ∧
          onShutdown (sts w') = onShutdown (sts w)
      | Some _ =>
          outcomeConsumers (sts w') =
            delete (sfTxnId (cShutdownFun c)) (<[t := c']> (outcomeConsumers (sts w))) ∧
          onShutdown (sts w') = delete (cShutdownFunPtr c) (onShutdown (sts w))
      end
  end.
Proof.
  simpl. unfold SubmissionOutcomeReceived.
  destruct (outcomeConsumers (sts w) !! t) as [c|]; [|done].
  unfold callConsumer. by destruct (BallotOutcomeReceived _ _ _) as [oa [o|]].
Qed.

Lemma hooked_SubmissionOutcomeReceived sender t outcome w :
  hooked w → hooked (SubmissionOutcomeReceived sender t outcome w).
Proof.
  intros (Hk & Hinj & Hfresh).
  destruct (SubmissionOutcomeReceived_fields sender t outcome w) as [Hn Hcase].
  simpl in Hcase. destruct (outcomeConsumers (sts w) !! t) as [c|] eqn:Ec.
  - destruct (Hk _ _ Ec) as (Hid & Hcont & Hhook).
    set (c' := {| cOutcomeAccumulator := _; cShutdownFunPtr := _;
                  cShutdownFun := _; cContinuation := _ |}) in Hcase.
    assert (∀ t1 c1, <[t := c']> (outcomeConsumers (sts w)) !! t1 = Some c1 →
              ∃ c0, outcomeConsumers (sts w) !! t1 = Some c0 ∧
                    cShutdownFunPtr c1 = cShutdownFunPtr c0 ∧
                    cShutdownFun c1 = cShutdownFun c0 ∧
                    cContinuation c1 = cContinuation c0) as Hins.
    { intros t1 c1. destruct (decide (t = t1)) as [<-|Hne].
      - rewrite lookup_insert_eq. intros [= <-]. by exists c.
      - rewrite lookup_insert_ne by done. intros Hl. by exists c1. }
    destruct (BallotOutcomeReceived _ _ _).2 as [o|]; destruct Hcase as [Hc Hs];
      unfold hooked; rewrite Hc, Hs, Hn; split_and!.
    + intros t1 c1 Hl. apply lookup_delete_Some in Hl as [Hne Hl].
      destruct (Hins _ _ Hl) as (c0 & Hl0 & Hp & Hf & Hco).
      destruct (Hk _ _ Hl0) as (? & ? & Hh). rewrite Hp, Hf, Hco.
      split_and!; [done|done|]. rewrite lookup_delete_ne; [done|].
      intros Heq. apply Hne. rewrite Hid. by apply (Hinj t t1 c c0).
    + intros t1 t2 c1 c2 Hl1 Hl2.
      apply lookup_delete_Some in Hl1 as [_ Hl1].
      apply lookup_delete_Some in Hl2 as [_ Hl2].
      destruct (Hins _ _ Hl1) as (c1' & Hl1' & -> & _).
      destruct (Hins _ _ Hl2) as (c2' & Hl2' & -> & _). by apply Hinj.
    + intros p f Hl. apply lookup_delete_Some in Hl as [_ Hl]. by eapply Hfresh.
    + intros t1 c1 Hl.
      destruct (Hins _ _ Hl) as (c0 & Hl0 & Hp & Hf & Hco).
      rewrite Hp, Hf, Hco. by apply Hk.
    + intros t1 t2 c1 c2 Hl1 Hl2.
      destruct (Hins _ _ Hl1) as (c1' & Hl1' & -> & _).
      destruct (Hins _ _ Hl2) as (c2' & Hl2' & -> & _). by apply Hinj.
    + done.
  - unfold hooked. by rewrite Hcase, Hn.
Qed.

Lemma hooked_SubmitClientTransaction ctxn k delay w w' r :
  SubmitClientTransaction ctxn k delay w = Some (w', r) → hooked w → hooked w'.
Proof.
  unfold SubmitClientTransaction. intros Hs Hh.
  destruct (isBlankTopology (topology (sts w))).
  - injection Hs as <- <-. by apply (hooked_ext w).
  - destruct (clientToServerTxn (sts w) ctxn) as [[hc [e|[[txn act] pas]]]|];
      [| |done]; injection Hs as <- <-.
    + by apply (hooked_ext w).
    + apply hooked_SubmitTransaction. by apply (hooked_ext w).
Qed.

Lemma hooked_callBuffered funcs : ∀ w w',
  callBuffered funcs w = Some w' → hooked w → hooked w'.
Proof.
  induction funcs as [|f funcs IH]; intros w w'; simpl; [by intros [= <-]|].
  destruct (SubmitClientTransaction _ _ _ w) as [[w1 r]|] eqn:Es; [|done].
  intros Hc Hh. eapply IH; [exact Hc|]. by eapply hooked_SubmitClientTransaction.
Qed.

Lemma installTopology_fields t w :
  let w' := installTopology t w in
  outcomeConsumers (sts w') = outcomeConsumers (sts w) ∧
  onShutdown (sts w') = onShutdown (sts w) ∧ nextAddr w' = nextAddr w ∧
  effects w' = effects w ∧ topology (sts w') = t ∧
  connections (sts w') = connections (sts w) ∧
  disabledHashCodes (sts w') = disabledHashCodes (sts w).
Proof. simpl. unfold installTopology. simpl. by destruct (Root t) as [[v p]|]. Qed.

Lemma installServers_fields servers w :
  let w' := installServers servers w in
  outcomeConsumers (sts w') = outcomeConsumers (sts w) ∧
  onShutdown (sts w') = onShutdown (sts w) ∧ nextAddr w' = nextAddr w ∧
  effects w' = effects w ∧ topology (sts w') = topology (sts w).
Proof. simpl. unfold installServers. by destruct servers. Qed.

Lemma hooked_TopologyChange topo servers w w' :
  TopologyChange topo servers w = Some w' → hooked w → hooked w'.
Proof.
  unfold TopologyChange. intros Hs Hh.
  set (after := match topo with Some _ => _ | None => _ end) in Hs.
  destruct after as [w1|] eqn:Ea; [|done]. injection Hs as <-.
  assert (hooked w1) as Hh1.
  { subst after. destruct topo as [t|]; [|by injection Ea as <-].
    destruct (installTopology_fields t w) as (Hc & Ho & Hn & _).
    assert (hooked (installTopology t w)) as Hi by (by apply (hooked_ext w)).
    destruct (bufferedSubmissions (sts (installTopology t w))) as [funcs|];
      [|by injection Ea as <-].
    destruct (negb (isBlankTopology t)); [|by injection Ea as <-].
    eapply hooked_callBuffered; [exact Ea|]. by apply (hooked_ext (installTopology t w)). }
  destruct (installServers_fields servers w1) as (Hc & Ho & Hn & _).
  by apply (hooked_ext w1).
Qed.

Lemma hooked_call c w w' : call c w = Some w' → hooked w → hooked w'.
Proof.
  destruct c as [txn act k d|ctxn k d|sender t o|topo servers|m]; simpl.
  - intros [= <-]. apply hooked_SubmitTransaction.
  - destruct (SubmitClientTransaction ctxn k d w) as [[w1 r]|] eqn:Es; [|done].
    intros [= <-]. by eapply hooked_SubmitClientTransaction.
  - intros [= <-]. apply hooked_SubmissionOutcomeReceived.
  - apply hooked_TopologyChange.
  - intros [= <-]. by apply (hooked_ext w).
Qed.

Lemma hooked_calls cs : ∀ w w', calls cs w = Some w' → hooked w → hooked w'.
Proof.
  induction cs as [|c cs IH]; intros w w'; simpl; [by intros [= <-]|].
  destruct (call c w) as [w1|] eqn:Ec; [|done].
  intros Hc Hh. eapply IH; [exact Hc|]. by eapply hooked_call.
Qed.

Lemma created_hooked w : created w → hooked w.
Proof.
  intros [_ (r & b & t & Hs)]. unfold hooked. rewrite Hs. simpl. split_and!.
  - intros ??. by rewrite lookup_empty.
  - intros ????. by rewrite lookup_empty.
  - intros ??. by rewrite lookup_empty.
Qed.

(** What a run of shutdown hooks leaves behind. *)
Lemma shutdown_hooks l : ∀ w,
  let w' := fold_left (λ w (kf : N * shutdownFun), callShutdownFun kf.2 true w) l w in
  onShutdown (sts w') = onShutdown (sts w) ∧
  (∀ t, is_Some (outcomeConsumers (sts w') !! t) →
        is_Some (outcomeConsumers (sts w) !! t) ∧
        ∀ kf, kf ∈ l → sfTxnId kf.2 ≠ t) ∧
  ∃ new, effects w' = effects w ++ new ∧ Forall withoutOutcome new ∧
    ∀ kf, kf ∈ l →
      Continuation (sfContinuation kf.2) (sfTxnId kf.2) None ∈ new ∧
      (sfRetry kf.2 = true →
       OneShotSender (TxnSubmissionAbort (sfTxnId kf.2)) (sfActiveRMs kf.2) ∈ new).
Proof.
  induction l as [|[k f] l IH]; intros w; cbn [fold_left snd]; cbv zeta.
  - split; [done|]. split.
    + intros t Ht. split; [done|]. intros kf Hin. by apply elem_of_nil in Hin.
    + exists []. rewrite app_nil_r. split; [done|]. split; [constructor|].
      intros kf Hin. by apply elem_of_nil in Hin.
  - destruct (IH (callShutdownFun f true w)) as (Ho & Hc & new & He & Hf & Hin).
    assert (onShutdown (sts (callShutdownFun f true w)) = onShutdown (sts w) ∧
            outcomeConsumers (sts (callShutdownFun f true w)) =
              delete (sfTxnId f) (outcomeConsumers (sts w)) ∧
            ∃ new1, effects (callShutdownFun f true w) = effects w ++ new1 ∧
              Forall withoutOutcome new1 ∧
              Continuation (sfContinuation f) (sfTxnId f) None ∈ new1 ∧
              (sfRetry f = true →
               OneShotSender (TxnSubmissionAbort (sfTxnId f)) (sfActiveRMs f) ∈ new1))
      as (Ho1 & Hc1 & new1 & He1 & Hf1 & Hk1 & Hr1).
    { unfold callShutdownFun. destruct (sfRetry f); simpl.
      - split; [done|]. split; [done|]. eexists [_; _; _; _].
        rewrite <-!app_assoc. split; [done|]. split; [by repeat constructor|].
        split; [set_solver|]. intros _. set_solver.
      - split; [done|]. split; [done|]. eexists [_; _; _].
        rewrite <-!app_assoc. split; [done|]. split; [by repeat constructor|].
        split; [set_solver|]. done. }
    split; [by rewrite Ho|]. split.
    + intros t Ht. destruct (Hc t Ht) as [Hs Hne]. rewrite Hc1 in Hs.
      destruct Hs as [c Hs]. apply lookup_delete_Some in Hs as [Hne1 Hs].
      split; [by eexists|]. intros kf Hkf.
      apply elem_of_cons in Hkf as [->|Hkf]; [done|by apply Hne].
    + exists (new1 ++ new). rewrite He, He1, app_assoc. split; [done|].
      split; [by apply Forall_app|]. intros kf Hkf.
      apply elem_of_cons in Hkf as [->|Hkf]; simpl.
      * split; [set_solver|]. intros Hr. specialize (Hr1 Hr). set_solver.
      * destruct (Hin kf Hkf) as [Hk Hr]. split; [set_solver|].
        intros Hret. specialize (Hr Hret). set_solver.
Qed.

(** X13. Shutdown reaches every transaction in flight.  After any
    sequence of submissions, arriving outcomes, topology changes and
    calls of EnsurePositions on a submitter, [Shutdown] calls the
    continuation of every transaction that still awaits its outcome,
    with no outcome; every continuation it calls is called with no
    outcome; for a retry transaction it also sends TxnSubmissionAbort to
    the active replicas; afterwards no consumer of outcomes is left.
    The hooks themselves stay registered. *)
Theorem Shutdown_ends_every_transaction w0 cs w :
  created w0 → calls cs w0 = Some w →
  let w' := Shutdown w in
  outcomeConsumers (sts w') = ∅ ∧
  onShutdown (sts w') = onShutdown (sts w) ∧
  ∃ new, effects w' = effects w ++ new ∧ Forall withoutOutcome new ∧
    ∀ t c, outcomeConsumers (sts w) !! t = Some c →
      Continuation (cContinuation c) t None ∈ new ∧
      (sfRetry (cShutdownFun c) = true →
       OneShotSender (TxnSubmissionAbort t) (sfActiveRMs (cShutdownFun c)) ∈ new).
Proof.
  intros Hcr Hcs. simpl.
  pose proof (hooked_calls _ _ _ Hcs (created_hooked _ Hcr)) as (Hk & _ & _).
  unfold Shutdown.
  destruct (shutdown_hooks (map_to_list (onShutdown (sts w))) w)
    as (Ho & Hc & new & He & Hf & Hin).
  split_and!; [|done|].
  - apply map_eq. intros t. rewrite lookup_empty.
    apply eq_None_not_Some. intros Hs.
    destruct (Hc t Hs) as [[c Hl] Hne].
    destruct (Hk _ _ Hl) as (Hid & _ & Hh).
    apply (Hne (cShutdownFunPtr c, cShutdownFun c)); [|done].
    by apply elem_of_map_to_list.
  - exists new. split; [done|]. split; [done|]. intros t c Hl.
    destruct (Hk _ _ Hl) as (Hid & Hco & Hh).
    destruct (Hin (cShutdownFunPtr c, cShutdownFun c)) as [Hcall Hab];
      [by apply elem_of_map_to_list|].
    simpl in *. rewrite Hid, Hco in Hcall. rewrite Hid in Hab. done.
Qed.

End Hooks.

Section Translating.
Context `{Collaborators}.

Lemma map_RefId_copyReferences rs : map RefId (copyReferences rs) = rs.
Proof. unfold copyReferences. induction rs as [|r rs IH]; simpl; [done|]. by rewrite IH. Qed.

(** One action translated by the first loop of [translateActions]. *)
Lemma translateAction_ok s hc idx ca t hc' t' :
  translateAction s hc idx ca t = Some (hc', inr t') →
  ∃ a hs,
    tActions t' = tActions t ++ [a] ∧ translated ca a ∧
    tIndices t' = fold_left (addIndex idx) hs (tIndices t) ∧
    length hs = TwoFInc (topology s) ∧
    tCreated t' = match ActBody a with
                  | ACreate _ P _ => <[ActVarId a := P]> (tCreated t)
                  | _ => tCreated t
                  end ∧
    (isRoll ca = true →
     ∃ hc0 hc1 hs', GetHashCodes hc0 (CVarId ca) = (hc1, inr (rmId s :: hs'))).
Proof.
  assert (∀ n (hs0 hs : list N), slicePrefix n hs0 = Some hs → length hs = n) as Hlen.
  { intros n hs0 hs. unfold slicePrefix. case_bool_decide; [|done].
    intros [= <-]. rewrite length_take. lia. }
  unfold translateAction, translateCreate, translated, isRoll. intros Ht.
  destruct ca as [x [ver|v rs|ver v rs|v rs|ver v rs]]; simpl in *.
  - destruct (GetHashCodes hc x) as [hc1 [e|hs0]]; [done|].
    destruct (slicePrefix _ hs0) as [hs|] eqn:Eh; [|done]. simplify_eq/=.
    eexists _, hs. split_and!; try done. by eapply Hlen.
  - destruct (GetHashCodes hc x) as [hc1 [e|hs0]]; [done|].
    destruct (slicePrefix _ hs0) as [hs|] eqn:Eh; [|done]. simplify_eq/=.
    eexists _, hs. split; [reflexivity|]. simpl.
    rewrite map_RefId_copyReferences. split_and!; try done. by eapply Hlen.
  - destruct (GetHashCodes hc x) as [hc1 [e|hs0]]; [done|].
    destruct (slicePrefix _ hs0) as [hs|] eqn:Eh; [|done]. simplify_eq/=.
    eexists _, hs. split; [reflexivity|]. simpl.
    rewrite map_RefId_copyReferences. split_and!; try done. by eapply Hlen.
  - destruct (CreatePositions hc x _) as [hc1 [e|[P [hs0|]]]]; [done| |].
    + destruct (slicePrefix _ hs0) as [hs|] eqn:Eh; [|done]. simplify_eq/=.
      eexists _, hs. split; [reflexivity|]. simpl.
      rewrite map_RefId_copyReferences. split_and!; try done. by eapply Hlen.
    + destruct (GetHashCodes hc1 x) as [hc2 [e|hs0]]; [done|].
      destruct (slicePrefix _ hs0) as [hs|] eqn:Eh; [|done]. simplify_eq/=.
      eexists _, hs. split; [reflexivity|]. simpl.
      rewrite map_RefId_copyReferences. split_and!; try done. by eapply Hlen.
  - destruct (GetHashCodes hc x) as [hc1 [e|hs0]] eqn:Eg; [done|].
    destruct hs0 as [|h hs0]; [done|].
    case_bool_decide as Hh; [done|]. subst h.
    destruct (slicePrefix _ _) as [hs|] eqn:Eh; [|done]. simplify_eq/=.
    eexists _, hs. split; [reflexivity|]. simpl.
    rewrite map_RefId_copyReferences. split_and!; try done; [by eapply Hlen|].
    intros _. by eexists _, _, _.
Qed.

Lemma ascending_mono b b' m : (b ≤ b')%Z → ascending b m → ascending b' m.
Proof.
  intros Hle Hm r l Hl. destruct (Hm r l Hl) as (? & ? & Hf).
  split_and!; [done|done|]. eapply Forall_impl; [exact Hf|]. simpl. lia.
Qed.

Lemma addIndex_ascending idx m r : ascending idx m → ascending idx (addIndex idx m r).
Proof.
  intros Hm r' l'. unfold addIndex. destruct (m !! r) as [l|] eqn:El.
  - destruct (decide (r = r')) as [<-|Hne]; [|rewrite lookup_insert_ne by done; apply Hm].
    rewrite lookup_insert_eq. intros [= <-]. destruct (Hm r l El) as (Hn & Hs & Hf).
    split_and!.
    + by destruct l.
    + apply StronglySorted_app_2; [|done|repeat constructor].
      intros x1 x2 Hx1 Hx2. apply list_elem_of_singleton in Hx2 as ->.
      by apply (proj1 (Forall_forall _ _) Hf).
    + apply Forall_app. split; [done|]. by repeat constructor.
  - destruct (decide (r = r')) as [<-|Hne]; [|rewrite lookup_insert_ne by done; apply Hm].
    rewrite lookup_insert_eq. intros [= <-]. split_and!; [done|repeat constructor..].
    lia.
Qed.

Lemma addIndex_fold_ascending idx hs : ∀ m,
  ascending idx m → ascending idx (fold_left (addIndex idx) hs m).
Proof.
  induction hs as [|h hs IH]; intros m Hm; [done|]. simpl.
  apply IH. by apply addIndex_ascending.
Qed.

Lemma slots_addIndex idx m r : slots (addIndex idx m r) = S (slots m).
Proof.
  unfold slots, addIndex. destruct (m !! r) as [l|] eqn:El.
  - rewrite <-insert_delete_eq.
    rewrite map_to_list_insert by apply lookup_delete_eq.
    rewrite <-(map_to_list_delete m r l El). simpl. rewrite length_app. simpl. lia.
  - rewrite map_to_list_insert by done. done.
Qed.

Lemma slots_addIndex_fold idx hs : ∀ m,
  slots (fold_left (addIndex idx) hs m) = (length hs + slots m)%nat.
Proof.
  induction hs as [|h hs IH]; intros m; [done|]. simpl.
  rewrite IH, slots_addIndex. lia.
Qed.

(** The first loop of [translateActions]. *)
Lemma translateLoop_ok s cas : ∀ hc idx t hc' t',
  translateLoop s hc idx cas t = Some (hc', inr t') →
  ∃ acts,
    tActions t' = tActions t ++ acts ∧ Forall2 translated cas acts ∧
    (ascending idx (tIndices t) →
     ascending (idx + Z.of_nat (length cas)) (tIndices t')) ∧
    slots (tIndices t') = (length cas * TwoFInc (topology s) + slots (tIndices t))%nat ∧
    (∀ x P, tCreated t' !! x = Some P →
            tCreated t !! x = Some P ∨ ∃ c, c ∈ acts ∧ creates x P c) ∧
    (∀ x, is_Some (tCreated t !! x) ∨ (∃ c P, c ∈ acts ∧ creates x P c) →
          is_Some (tCreated t' !! x)) ∧
    Forall (λ ca, isRoll ca = true →
              ∃ hc0 hc1 hs', GetHashCodes hc0 (CVarId ca) = (hc1, inr (rmId s :: hs'))) cas.
Proof.
  induction cas as [|ca cas IH]; intros hc idx t hc' t' Ht; simpl in Ht.
  - simplify_eq. exists []. rewrite app_nil_r. split_and!; try done.
    + simpl. by rewrite Z.add_0_r.
    + intros x P HP. by left.
    + intros x [Hx|(c & P & Hc & _)]; [done|]. by apply elem_of_nil in Hc.
  - destruct (translateAction s hc idx ca t) as [[hc1 [e|t1]]|] eqn:Ea; [done| |done].
    destruct (translateAction_ok _ _ _ _ _ _ _ Ea)
      as (a & hs & Hacts & Htr & Hidx & Hlen & Hcr & Hroll).
    destruct (IH _ _ _ _ _ Ht) as (acts & Hacts' & HF & Hasc & Hsl & Hc1 & Hc2 & Hrolls).
    exists (a :: acts). split_and!.
    + rewrite Hacts', Hacts, <-app_assoc. done.
    + by constructor.
    + intros Hm.
      replace (idx + Z.of_nat (length (ca :: cas)))%Z
        with ((idx + 1) + Z.of_nat (length cas))%Z by (simpl length; lia).
      apply Hasc. rewrite Hidx. apply (ascending_mono idx); [lia|].
      by apply addIndex_fold_ascending.
    + rewrite Hsl, Hidx, slots_addIndex_fold, Hlen. simpl. lia.
    + intros x P HP. destruct (Hc1 x P HP) as [HP1|(c & Hc & Hcre)].
      * rewrite Hcr in HP1. destruct (ActBody a) as [| | |v P' rs|] eqn:Eb;
          try by left.
        destruct (decide (ActVarId a = x)) as [Hx|Hx].
        -- subst x. rewrite lookup_insert_eq in HP1. injection HP1 as ->.
           right. exists a. split; [apply list_elem_of_here|].
           split; [done|]. by eexists _, _.
        -- rewrite lookup_insert_ne in HP1 by done. by left.
      * right. exists c. split; [by apply list_elem_of_further|done].
    + intros x Hx. apply Hc2.
      destruct Hx as [Hx|(c & P & Hc & Hcre)].
      * left. rewrite Hcr. destruct (ActBody a); try done.
        destruct (decide (ActVarId a = x)) as [<-|Hne].
        -- rewrite lookup_insert_eq. by eexists.
        -- by rewrite lookup_insert_ne.
      * apply elem_of_cons in Hc as [->|Hc].
        -- left. destruct Hcre as [Hx (v & rs & Hb)]. rewrite Hcr, Hb, Hx.
           rewrite lookup_insert_eq. by eexists.
        -- right. by exists c, P.
    + by constructor.
Qed.

(** The second loop of [translateActions]. *)
Lemma patchReference_ok created hc r0 r :
  patchReference created hc r0 = inr r →
  RefId r = RefId r0 ∧
  ∃ P, RefPositions r = Some P ∧
       (created !! RefId r0 = Some P ∨
        (created !! RefId r0 = None ∧ GetPositions hc (RefId r0) = Some P)).
Proof.
  unfold patchReference. destruct (created !! RefId r0) as [P|] eqn:Ec.
  - intros [= <-]. split; [done|]. exists P. split; [done|]. by left.
  - destruct (GetPositions hc (RefId r0)) as [P|] eqn:Eg; [|done].
    intros [= <-]. split; [done|]. exists P. split; [done|]. by right.
Qed.

Lemma patchReferences_ok created hc rs0 : ∀ rs,
  patchReferences created hc rs0 = inr rs →
  Forall2 (λ r0 r, patchReference created hc r0 = inr r) rs0 rs.
Proof.
  induction rs0 as [|r0 rs0 IH]; intros rs; simpl.
  - intros [= <-]. constructor.
  - destruct (patchReference created hc r0) as [e|r] eqn:Er; [done|].
    destruct (patchReferences created hc rs0) as [e|rs'] eqn:Ers; [done|].
    intros [= <-]. constructor; [done|]. by apply IH.
Qed.

Lemma patchAction_ok created hc a0 a :
  patchAction created hc a0 = inr a →
  ∃ rs, patchReferences created hc (refsOf (ActBody a0)) = inr rs ∧
        a = withRefs a0 rs ∧ refsOf (ActBody a) = rs.
Proof.
  unfold patchAction, withRefs. destruct a0 as [x [ver|v rs0|ver v rs0|v P rs0|ver v rs0]];
    simpl.
  - intros [= <-]. by exists [].
  - destruct (patchReferences created hc rs0) as [e|rs]; [done|]. intros [= <-]. by exists rs.
  - destruct (patchReferences created hc rs0) as [e|rs]; [done|]. intros [= <-]. by exists rs.
  - destruct (patchReferences created hc rs0) as [e|rs]; [done|]. intros [= <-]. by exists rs.
  - destruct (patchReferences created hc rs0) as [e|rs]; [done|]. intros [= <-]. by exists rs.
Qed.

Lemma patchActions_ok created hc acts0 : ∀ acts,
  patchActions created hc acts0 = inr acts →
  Forall2 (λ a0 a, patchAction created hc a0 = inr a) acts0 acts.
Proof.
  induction acts0 as [|a0 acts0 IH]; intros acts; simpl.
  - intros [= <-]. constructor.
  - destruct (patchAction created hc a0) as [e|a] eqn:Ea; [done|].
    destruct (patchActions created hc acts0) as [e|acts'] eqn:Eas; [done|].
    intros [= <-]. constructor; [done|]. by apply IH.
Qed.

Lemma patchReferences_ids created hc rs0 rs :
  patchReferences created hc rs0 = inr rs → map RefId rs = map RefId rs0.
Proof.
  intros Hrs. apply patchReferences_ok in Hrs.
  induction Hrs as [|r0 r rs0 rs Hr _ IH]; [done|]. simpl. rewrite IH. f_equal.
  by destruct (patchReference_ok _ _ _ _ Hr).
Qed.

Lemma patchAction_translated created hc ca a0 a :
  patchAction created hc a0 = inr a → translated ca a0 → translated ca a.
Proof.
  intros Hp [Hx Hk]. destruct (patchAction_ok _ _ _ _ Hp) as (rs & Hrs & -> & _).
  apply patchReferences_ids in Hrs as Hids.
  split; [done|]. unfold withRefs. simpl.
  destruct (CBody ca), (ActBody a0); simpl in *; try done; rewrite Hids; done.
Qed.

Lemma patchAction_creates created hc a0 a x P :
  patchAction created hc a0 = inr a → (creates x P a ↔ creates x P a0).
Proof.
  intros Hp. destruct (patchAction_ok _ _ _ _ Hp) as (rs & _ & -> & _).
  unfold creates, withRefs. simpl. split; intros [Hx (v & rs' & Hb)]; (split; [done|]).
  - destruct (ActBody a0); simplify_eq. by eexists _, _.
  - rewrite Hb. by eexists _, _.
Qed.

(** The parts of a successful [clientToServerTxn]. *)
Lemma clientToServerTxn_parts s ctxn hc txn activeRMs passiveRMs :
  clientToServerTxn s ctxn = Some (hc, inr (txn, activeRMs, passiveRMs)) →
  ∃ t,
    translateLoop s (hashCache s) 0 (CActions ctxn)
      {| tPicker := NewCombinationPicker (TopologyFInc (topology s)) (disabledHashCodes s);
         tActions := []; tIndices := ∅; tCreated := ∅ |} = Some (hc, inr t) ∧
    patchActions (tCreated t) hc (tActions t) = inr (Actions txn) ∧
    Choose (tPicker t) = inr (activeRMs, passiveRMs) ∧
    translateActions s (hashCache s)
      (NewCombinationPicker (TopologyFInc (topology s)) (disabledHashCodes s))
      (CActions ctxn) = Some (hc, inr (tPicker t, Actions txn, tIndices t)) ∧
    Id txn = CId ctxn ∧ Retry txn = CRetry ctxn ∧ Submitter txn = rmId s ∧
    SubmitterBootCount txn = bootCount s ∧ FInc txn = TopologyFInc (topology s) ∧
    TopologyVersion txn = Version (topology s).
Proof.
  unfold clientToServerTxn, translateActions. intros Hc.
  destruct (translateLoop _ _ _ _ _) as [[hc1 [e|t]]|] eqn:El; [done| |done].
  destruct (patchActions _ _ _) as [e|acts] eqn:Ep; [done|].
  destruct (Choose (tPicker t)) as [e|[act pas]] eqn:Ech; [done|].
  destruct (setAllocations s 0 _ _ true act) as [res1|] eqn:E1; [|done].
  destruct (setAllocations s (length act) _ _ false pas) as [res2|] eqn:E2; [|done].
  simplify_eq/=. exists t. by rewrite Ep.
Qed.

(** X14. Translation keeps the transaction.  The server transaction
    built by [clientToServerTxn] has the id and the retry flag of the
    client transaction, names this submitter and its boot count, and
    carries the topology's FInc and version; its actions are those of the
    client transaction, one for one and in order: same variable, same
    kind, same version and value, references to the same variables in the
    same order. *)
Theorem clientToServerTxn_translates s ctxn hc txn activeRMs passiveRMs :
  clientToServerTxn s ctxn = Some (hc, inr (txn, activeRMs, passiveRMs)) →
  Id txn = CId ctxn ∧ Retry txn = CRetry ctxn ∧ Submitter txn = rmId s ∧
  SubmitterBootCount txn = bootCount s ∧ FInc txn = TopologyFInc (topology s) ∧
  TopologyVersion txn = Version (topology s) ∧
  Forall2 translated (CActions ctxn) (Actions txn).
Proof.
  intros Hc. destruct (clientToServerTxn_parts _ _ _ _ _ _ Hc)
    as (t & Hl & Hp & _ & _ & ? & ? & ? & ? & ? & ?).
  split_and!; try done.
  destruct (translateLoop_ok _ _ _ _ _ _ _ Hl) as (acts0 & Ha & HF & _).
  simpl in Ha. rewrite Ha in Hp. apply patchActions_ok in Hp.
  clear Ha Hl. revert Hp. generalize (Actions txn).
  induction HF as [|ca a0 cas acts0 Htr _ IH]; intros acts Hp.
  - inversion Hp. constructor.
  - inversion Hp as [|? a ? acts' Hpa Hps]; subst. constructor; [|by apply IH].
    by eapply patchAction_translated.
Qed.

(** X15. Every reference of a translated transaction carries positions.
    When the transaction itself creates the variable referred to, the
    positions are those of an action of the transaction that creates it,
    wherever that action stands, before or after the reference; only
    otherwise are they the positions the hash cache holds for the
    variable when the call returns. *)
Theorem references_carry_positions s ctxn hc txn activeRMs passiveRMs :
  clientToServerTxn s ctxn = Some (hc, inr (txn, activeRMs, passiveRMs)) →
  ∀ a r, a ∈ Actions txn → r ∈ refsOf (ActBody a) →
    ∃ P, RefPositions r = Some P ∧
      ((∃ c, c ∈ Actions txn ∧ creates (RefId r) P c) ∨
       ((∀ c P', c ∈ Actions txn → ¬ creates (RefId r) P' c) ∧
        GetPositions hc (RefId r) = Some P)).
Proof.
  intros Hc a r Ha Hr. destruct (clientToServerTxn_parts _ _ _ _ _ _ Hc)
    as (t & Hl & Hp & _).
  destruct (translateLoop_ok _ _ _ _ _ _ _ Hl) as (acts0 & Hacts & _ & _ & _ & Hc1 & Hc2 & _).
  simpl in Hacts. rewrite Hacts in Hp. apply patchActions_ok in Hp.
  assert (∀ x P, (∃ c, c ∈ Actions txn ∧ creates x P c) ↔
                 (∃ c0, c0 ∈ acts0 ∧ creates x P c0)) as Hcre.
  { intros x P. split.
    - intros (c & Hin & Hcr). apply list_elem_of_lookup in Hin as [i Hi].
      destruct (Forall2_lookup_r _ _ _ _ _ Hp Hi) as (c0 & Hi0 & Hpa).
      exists c0. split; [by eapply list_elem_of_lookup_2|].
      by apply (patchAction_creates _ _ _ _ _ _ Hpa).
    - intros (c0 & Hin & Hcr). apply list_elem_of_lookup in Hin as [i Hi].
      destruct (Forall2_lookup_l _ _ _ _ _ Hp Hi) as (c & Hi' & Hpa).
      exists c. split; [by eapply list_elem_of_lookup_2|].
      by apply (patchAction_creates _ _ _ _ _ _ Hpa). }
  apply list_elem_of_lookup in Ha as [i Hi].
  destruct (Forall2_lookup_r _ _ _ _ _ Hp Hi) as (a0 & Hi0 & Hpa).
  destruct (patchAction_ok _ _ _ _ Hpa) as (rs & Hrs & _ & Hrefs).
  rewrite Hrefs in Hr. apply patchReferences_ok in Hrs.
  apply list_elem_of_lookup in Hr as [j Hj].
  destruct (Forall2_lookup_r _ _ _ _ _ Hrs Hj) as (r0 & _ & Hpr).
  destruct (patchReference_ok _ _ _ _ Hpr) as (Hid & P & HP & Hfrom).
  exists P. split; [done|]. rewrite Hid.
  destruct Hfrom as [Hcr|[Hn Hg]].
  - left. apply Hcre. destruct (Hc1 _ _ Hcr) as [He|Hex]; [|done].
    simpl in He. by rewrite lookup_empty in He.
  - right. split; [|done]. intros c P' Hin Hcr.
    assert (is_Some (tCreated t !! RefId r0)) as [? Hs]; [|congruence].
    apply Hc2. right. destruct (proj1 (Hcre (RefId r0) P')) as (c0 & ? & ?);
      [by exists c|]. by exists c0, P'.
Qed.

Lemma translateActions_loop s hc picker cas hc' picker' acts indices :
  translateActions s hc picker cas = Some (hc', inr (picker', acts, indices)) →
  ∃ t, translateLoop s hc 0 cas
         {| tPicker := picker; tActions := []; tIndices := ∅; tCreated := ∅ |} =
         Some (hc', inr t) ∧ indices = tIndices t.
Proof.
  unfold translateActions. intros Ht.
  destruct (translateLoop _ _ _ _ _) as [[hc1 [e|t]]|] eqn:El; [done| |done].
  destruct (patchActions _ _ _) as [e|acts']; [done|]. simplify_eq. by exists t.
Qed.

Lemma ascending_empty b : ascending b ∅.
Proof. intros r l. by rewrite lookup_empty. Qed.

(** X16. The lists of action indices that [translateActions] collects
    for the replicas are never empty and are already in ascending order,
    being appended to in the order of the actions: the sort that
    [setAllocations] applies to them leaves them as they are. *)
Theorem action_indices_ascending s hc picker cas hc' picker' acts indices :
  translateActions s hc picker cas = Some (hc', inr (picker', acts, indices)) →
  ∀ r l, indices !! r = Some l →
         l ≠ [] ∧ Sorted Z.le l ∧ sortInts l = l.
Proof.
  intros Ht r l Hl. destruct (translateActions_loop _ _ _ _ _ _ _ _ Ht) as (t & Hloop & ->).
  destruct (translateLoop_ok _ _ _ _ _ _ _ Hloop) as (_ & _ & _ & Hasc & _).
  destruct (Hasc (ascending_empty 0) r l Hl) as (Hne & Hs & _).
  apply StronglySorted_Sorted in Hs. split_and!; [done|done|].
  apply (Sorted_unique Z.le); [apply sortInts_sorted|done|apply sortInts_perm].
Qed.

(** X17. Every action is handed to exactly [TwoFInc] replicas: over all
    replicas, the lists of action indices that [translateActions]
    collects hold [TwoFInc] entries for each action of the client
    transaction. *)
Theorem actions_fill_TwoFInc_slots s hc picker cas hc' picker' acts indices :
  translateActions s hc picker cas = Some (hc', inr (picker', acts, indices)) →
  slots indices = (length cas * TwoFInc (topology s))%nat.
Proof.
  intros Ht. destruct (translateActions_loop _ _ _ _ _ _ _ _ Ht) as (t & Hloop & ->).
  destruct (translateLoop_ok _ _ _ _ _ _ _ Hloop) as (_ & _ & _ & _ & Hsl & _).
  rewrite Hsl. simpl. unfold slots. rewrite map_to_list_empty. simpl. lia.
Qed.


(** X19. [clientToServerTxn] needs a connection to every active replica
    the picker chooses.  When it returns a transaction the submitter has
    a connection to each active replica; asked to write the allocation of
    an active replica to which it has none, or before it has been told
    of any connection, [setAllocations] panics. *)
Theorem active_replicas_need_connections s :
  (∀ ctxn hc txn activeRMs passiveRMs,
     clientToServerTxn s ctxn = Some (hc, inr (txn, activeRMs, passiveRMs)) →
     ∀ r, r ∈ activeRMs →
          ∃ conns bc, connections s = Some conns ∧ conns !! r = Some bc) ∧
  (∀ allocIdx indices allocs r rs,
     (∀ conns, connections s = Some conns → conns !! r = None) →
     setAllocations s allocIdx indices allocs true (r :: rs) = None).
Proof.
  split.
  - intros ctxn hc txn act pas Hc r Hr.
    destruct (clientToServerTxn_structure _ _ _ _ _ _ Hc)
      as (picker & acts & indices & actives & passives & _ & _ & _ & HF & _).
    apply list_elem_of_lookup in Hr as [i Hi].
    destruct (Forall2_lookup_l _ _ _ _ _ HF Hi) as (al & _ & _ & _ & conns & Hconn & Hbc).
    by exists conns, (Active al).
  - intros allocIdx indices allocs r rs Hno. simpl.
    destruct (indices !! r); [|done]. case_bool_decide; [done|].
    destruct (connections s) as [conns|]; [|done]. by rewrite (Hno conns).
Qed.

End Translating.

Section Submitting.
Context `{Collaborators}.

(** X20. What a call of [SubmitClientTransaction] leaves behind once the
    topology is known.  When it returns an error nothing has been
    registered and nothing sent: no sender, no consumer, no shutdown
    hook, nothing buffered.  When it returns nil the transaction built
    carries the client transaction's id, one sender for it has been
    added (at once, or after the delay), and a consumer under that id and
    a shutdown hook are registered. *)
Theorem SubmitClientTransaction_outcome ctxn k d w w' r :
  isBlankTopology (topology (sts w)) = false →
  SubmitClientTransaction ctxn k d w = Some (w', r) →
  match r with
  | Some err =>
      effects w' = effects w ∧
      outcomeConsumers (sts w') = outcomeConsumers (sts w) ∧
      onShutdown (sts w') = onShutdown (sts w) ∧
      bufferedSubmissions (sts w') = bufferedSubmissions (sts w) ∧
      nextAddr w' = nextAddr w
  | None =>
      ∃ txn activeRMs,
        Id txn = CId ctxn ∧
        effects w' = effects w ++
          [if bool_decide (d = 0%N)
           then AddSender {| rsMsg := TxnSubmission txn; rsRecipients := activeRMs |}
           else AddSenderAfter d {| rsMsg := TxnSubmission txn;
                                    rsRecipients := activeRMs |}] ∧
        is_Some (outcomeConsumers (sts w') !! CId ctxn) ∧
        is_Some (onShutdown (sts w') !! nextAddr w) ∧
        bufferedSubmissions (sts w') = bufferedSubmissions (sts w)
  end.
Proof.
  intros Hb. unfold SubmitClientTransaction. rewrite Hb.
  destruct (clientToServerTxn (sts w) ctxn) as [[hc [e|[[txn act] pas]]]|] eqn:Ec;
    [| |done]; intros [= <- <-].
  - done.
  - destruct (clientToServerTxn_parts _ _ _ _ _ _ Ec) as (_ & _ & _ & _ & _ & Hid & _).
    destruct (SubmitTransaction_fields txn act k d (withSts (set_hashCache hc) w))
      as (Hc & Hs & _ & He & _ & Hbuf & _).
    exists txn, act. split; [done|]. split; [exact He|].
    rewrite Hc, Hs, Hbuf, Hid. simpl. rewrite !lookup_insert_eq. by split_and!.
Qed.

Lemma SubmitClientTransaction_kept ctxn k d w w' r :
  SubmitClientTransaction ctxn k d w = Some (w', r) →
  topology (sts w') = topology (sts w) ∧
  connections (sts w') = connections (sts w) ∧
  disabledHashCodes (sts w') = disabledHashCodes (sts w).
Proof.
  unfold SubmitClientTransaction. destruct (isBlankTopology _).
  - by intros [= <- <-].
  - destruct (clientToServerTxn (sts w) ctxn) as [[hc [e|[[txn act] pas]]]|];
      [| |done]; intros [= <- <-]; [done|].
    destruct (SubmitTransaction_fields txn act k d (withSts (set_hashCache hc) w))
      as (_ & _ & _ & _ & Ht & _ & Hcn & Hdis & _).
    by rewrite Ht, Hcn, Hdis.
Qed.

Lemma callBuffered_kept funcs : ∀ w w',
  callBuffered funcs w = Some w' →
  topology (sts w') = topology (sts w) ∧
  connections (sts w') = connections (sts w) ∧
  disabledHashCodes (sts w') = disabledHashCodes (sts w).
Proof.
  induction funcs as [|f funcs IH]; intros w w'; simpl; [by intros [= <-]|].
  destruct (SubmitClientTransaction _ _ _ w) as [[w1 r]|] eqn:Es; [|done].
  intros Hc. destruct (IH _ _ Hc) as (-> & -> & ->).
  by apply SubmitClientTransaction_kept in Es.
Qed.

Lemma afterTopology_kept topo w w1 :
  match topo with
  | Some t =>
      match bufferedSubmissions (sts (installTopology t w)) with
      | Some funcs =>
          if negb (isBlankTopology t)
          then callBuffered funcs
                 (withSts (set_bufferedSubmissions None) (installTopology t w))
          else Some (installTopology t w)
      | None => Some (installTopology t w)
      end
  | None => Some w
  end = Some w1 →
  topology (sts w1) = default (topology (sts w)) topo ∧
  connections (sts w1) = connections (sts w) ∧
  disabledHashCodes (sts w1) = disabledHashCodes (sts w).
Proof.
  destruct topo as [t|]; [|by intros [= <-]].
  destruct (installTopology_fields t w) as (_ & _ & _ & _ & Ht & Hc & Hd).
  destruct (bufferedSubmissions (sts (installTopology t w))) as [funcs|].
  - destruct (negb (isBlankTopology t)).
    + intros Hcb. destruct (callBuffered_kept _ _ _ Hcb) as (-> & -> & ->). done.
    + by intros [= <-].
  - by intros [= <-].
Qed.

(** X21. What [TopologyChange] does to the connections.  Called with
    servers, it records them as the submitter's connections and disables
    exactly the replicas of the topology then in force (the new one, when
    one is given) that have no connection among them.  Called without
    servers, it leaves the connections and the disabled replicas as they
    were, whatever the new topology. *)
Theorem TopologyChange_connections topo w :
  (∀ servers w',
     TopologyChange topo (Some servers) w = Some w' →
     connections (sts w') = Some servers ∧
     topology (sts w') = default (topology (sts w)) topo ∧
     ∀ r, r ∈ disabledHashCodes (sts w') ↔
          r ∈ AllRMs (topology (sts w')) ∧ servers !! r = None) ∧
  (∀ w',
     TopologyChange topo None w = Some w' →
     connections (sts w') = connections (sts w) ∧
     disabledHashCodes (sts w') = disabledHashCodes (sts w) ∧
     topology (sts w') = default (topology (sts w)) topo).
Proof.
  split.
  - intros servers w'. unfold TopologyChange.
    set (after := match topo with Some _ => _ | None => _ end).
    destruct after as [w1|] eqn:Ea; [|done]. intros [= <-].
    destruct (afterTopology_kept _ _ _ Ea) as (Ht & _ & _). simpl.
    split; [done|]. split; [done|]. intros r.
    rewrite elem_of_list_to_set, list_elem_of_filter. tauto.
  - intros w'. unfold TopologyChange.
    set (after := match topo with Some _ => _ | None => _ end).
    destruct after as [w1|] eqn:Ea; [|done]. intros [= <-].
    destruct (afterTopology_kept _ _ _ Ea) as (Ht & Hc & Hd). by simpl.
Qed.

Lemma SubmitClientTransaction_unbuffered ctxn k d w w' r :
  isBlankTopology (topology (sts w)) = false →
  SubmitClientTransaction ctxn k d w = Some (w', r) →
  bufferedSubmissions (sts w') = bufferedSubmissions (sts w).
Proof.
  intros Hb. unfold SubmitClientTransaction. rewrite Hb.
  destruct (clientToServerTxn (sts w) ctxn) as [[hc [e|[[txn act] pas]]]|];
    [| |done]; intros [= <- <-]; [done|].
  by destruct (SubmitTransaction_fields txn act k d (withSts (set_hashCache hc) w))
    as (_ & _ & _ & _ & _ & -> & _).
Qed.

Lemma callBuffered_unbuffered funcs : ∀ w w',
  isBlankTopology (topology (sts w)) = false →
  callBuffered funcs w = Some w' →
  bufferedSubmissions (sts w') = bufferedSubmissions (sts w).
Proof.
  induction funcs as [|f funcs IH]; intros w w' Hb; simpl; [by intros [= <-]|].
  destruct (SubmitClientTransaction _ _ _ w) as [[w1 r]|] eqn:Es; [|done].
  intros Hc. destruct (SubmitClientTransaction_kept _ _ _ _ _ _ Es) as (Ht & _).
  rewrite (IH _ _ (eq_trans (f_equal isBlankTopology Ht) Hb) Hc).
  by eapply SubmitClientTransaction_unbuffered.
Qed.

Lemma call_unbuffered c w w' :
  call c w = Some w' →
  (isBlankTopology (topology (sts w)) = false → bufferedSubmissions (sts w) = None) →
  isBlankTopology (topology (sts w')) = false → bufferedSubmissions (sts w') = None.
Proof.
  destruct c as [txn act k d|ctxn k d|sender t o|topo servers|m]; simpl.
  - intros [= <-] Hw.
    destruct (SubmitTransaction_fields txn act k d w) as (_ & _ & _ & _ & -> & -> & _).
    done.
  - destruct (SubmitClientTransaction ctxn k d w) as [[w1 r]|] eqn:Es; [|done].
    intros [= <-] Hw. destruct (SubmitClientTransaction_kept _ _ _ _ _ _ Es) as (-> & _).
    intros Hb. rewrite (SubmitClientTransaction_unbuffered _ _ _ _ _ _ Hb Es).
    by apply Hw.
  - intros [= <-] Hw.
    destruct (SubmissionOutcomeReceived_fields sender t o w) as [_ Hcase].
    unfold SubmissionOutcomeReceived in *.
    destruct (outcomeConsumers (sts w) !! t) as [c|]; [|done].
    unfold callConsumer. by destruct (BallotOutcomeReceived _ _ _) as [oa [out|]].
  - unfold TopologyChange.
    set (after := match topo with Some _ => _ | None => _ end).
    destruct after as [w1|] eqn:Ea; [|done]. intros [= <-] Hw.
    assert (topology (sts (installServers servers w1)) = topology (sts w1) ∧
            bufferedSubmissions (sts (installServers servers w1)) =
              bufferedSubmissions (sts w1)) as [-> ->]
      by (unfold installServers; by destruct servers).
    subst after. destruct topo as [tp|]; [|by injection Ea as <-].
    assert (topology (sts (installTopology tp w)) = tp) as Htp
      by (by destruct (installTopology_fields tp w) as (_ & _ & _ & _ & ? & _)).
    destruct (bufferedSubmissions (sts (installTopology tp w))) as [funcs|] eqn:Eb.
    + destruct (isBlankTopology tp) eqn:Ebl; simpl in Ea.
      * injection Ea as <-. by rewrite Htp, Ebl.
      * intros _. erewrite callBuffered_unbuffered; [|simpl|exact Ea].
        -- done.
        -- unfold installTopology. simpl. by destruct (Root tp) as [[v p]|].
    + injection Ea as <-. by rewrite Eb.
  - intros [= <-] Hw. done.
Qed.

(** X26. No transaction stays buffered once a topology is known.  After
    any sequence of calls on a submitter, if the topology in force is not
    the blank one then the buffer of submissions is empty: a submission
    is only ever buffered under the blank topology, and the topology
    change that ends it empties the buffer. *)
Theorem nothing_buffered_under_topology w0 cs w :
  created w0 → calls cs w0 = Some w →
  isBlankTopology (topology (sts w)) = false →
  bufferedSubmissions (sts w) = None.
Proof.
  intros [_ (r & b & tp & Hs)] Hcs.
  assert (isBlankTopology (topology (sts w0)) = false →
          bufferedSubmissions (sts w0) = None) as H0 by (by rewrite Hs).
  clear Hs. revert w0 H0 Hcs.
  induction cs as [|c cs IH]; intros w0 H0; simpl; [by intros [= <-]|].
  destruct (call c w0) as [w1|] eqn:Ec; [|done].
  apply IH. by eapply call_unbuffered.
Qed.

End Submitting.

Section ExactlyOnce.
Context `{Collaborators}.

Lemma hooksFor_insert t m p f :
  m !! p = None →
  hooksFor t (<[p := f]> m) =
  ((if decide (sfTxnId f = t) then 1 else 0) + hooksFor t m)%nat.
Proof.
  intros Hn. unfold hooksFor. rewrite map_to_list_insert by done.
  rewrite filter_cons. simpl. by destruct (decide (sfTxnId f = t)).
Qed.

Lemma hooksFor_delete t m p f :
  m !! p = Some f →
  hooksFor t m =
  ((if decide (sfTxnId f = t) then 1 else 0) + hooksFor t (delete p m))%nat.
Proof.
  intros Hs. unfold hooksFor. rewrite <-(map_to_list_delete m p f Hs).
  rewrite filter_cons. simpl. by destruct (decide (sfTxnId f = t)).
Qed.

Lemma submissions_app t es es' :
  submissions t (es ++ es') = (submissions t es + submissions t es')%nat.
Proof. unfold submissions. by rewrite filter_app, length_app. Qed.

Lemma continuations_app t es es' :
  continuations t (es ++ es') = (continuations t es + continuations t es')%nat.
Proof. unfold continuations. by rewrite filter_app, length_app. Qed.

Lemma accounted_ext t w w' :
  effects w' = effects w → onShutdown (sts w') = onShutdown (sts w) →
  accounted t w → accounted t w'.
Proof. unfold accounted. by intros -> ->. Qed.

Lemma accounted_SubmitTransaction t txn active k delay w :
  hooked w → accounted t w → accounted t (SubmitTransaction txn active k delay w).
Proof.
  intros (_ & _ & Hfresh) Ha.
  destruct (SubmitTransaction_fields txn active k delay w) as (_ & Hs & _ & He & _).
  unfold accounted in *. rewrite Hs, He, submissions_app, continuations_app.
  rewrite hooksFor_insert.
  - simpl. unfold submissions at 2, continuations at 2.
    rewrite !filter_cons, !filter_nil.
    case_bool_decide; simpl;
      repeat (destruct (decide _); simplify_eq/=); first [lia|congruence].
  - apply eq_None_not_Some. intros [f Hf]. apply Hfresh in Hf. lia.
Qed.

Lemma accounted_SubmissionOutcomeReceived t sender t' outcome w :
  hooked w → accounted t w → accounted t (SubmissionOutcomeReceived sender t' outcome w).
Proof.
  intros (Hk & _ & _) Ha. unfold SubmissionOutcomeReceived.
  destruct (outcomeConsumers (sts w) !! t') as [c|] eqn:Ec.
  - destruct (Hk _ _ Ec) as (Hid & _ & Hh). unfold callConsumer.
    destruct (BallotOutcomeReceived _ _ _) as [oa [o|]]; simpl.
    + unfold accounted in *. simpl.
      rewrite (hooksFor_delete t _ _ _ Hh) in Ha. rewrite Hid in Ha.
      rewrite !submissions_app, !continuations_app.
      unfold submissions at 2 3 4, continuations at 2 3 4.
      rewrite !filter_cons, !filter_nil. simpl.
      repeat (destruct (decide _); simplify_eq/=); first [lia|congruence].
    + by apply (accounted_ext t w).
  - unfold accounted in *. simpl. rewrite submissions_app, continuations_app.
    unfold submissions at 2, continuations at 2. simpl. lia.
Qed.

Lemma accounted_SubmitClientTransaction t ctxn k delay w w' r :
  SubmitClientTransaction ctxn k delay w = Some (w', r) →
  hooked w → accounted t w → accounted t w'.
Proof.
  unfold SubmitClientTransaction. intros Hs Hh Ha.
  destruct (isBlankTopology (topology (sts w))).
  - injection Hs as <- <-. by apply (accounted_ext t w).
  - destruct (clientToServerTxn (sts w) ctxn) as [[hc [e|[[txn act] pas]]]|];
      [| |done]; injection Hs as <- <-.
    + by apply (accounted_ext t w).
    + apply accounted_SubmitTransaction.
      * by apply (hooked_ext w).
      * by apply (accounted_ext t w).
Qed.

Lemma accounted_callBuffered t funcs : ∀ w w',
  callBuffered funcs w = Some w' → hooked w → accounted t w → accounted t w'.
Proof.
  induction funcs as [|f funcs IH]; intros w w'; simpl; [by intros [= <-]|].
  destruct (SubmitClientTransaction _ _ _ w) as [[w1 r]|] eqn:Es; [|done].
  intros Hc Hh Ha. eapply IH; [exact Hc| |].
  - by eapply hooked_SubmitClientTransaction.
  - by eapply accounted_SubmitClientTransaction.
Qed.

Lemma accounted_TopologyChange t topo servers w w' :
  TopologyChange topo servers w = Some w' → hooked w → accounted t w → accounted t w'.
Proof.
  unfold TopologyChange. intros Hs Hh Ha.
  set (after := match topo with Some _ => _ | None => _ end) in Hs.
  destruct after as [w1|] eqn:Ea; [|done]. injection Hs as <-.
  assert (accounted t w1) as Ha1.
  { subst after. destruct topo as [tp|]; [|by injection Ea as <-].
    destruct (installTopology_fields tp w) as (Hc & Ho & Hn & He & _).
    assert (hooked (installTopology tp w)) as Hi by (by apply (hooked_ext w)).
    assert (accounted t (installTopology tp w)) as Hai by (by apply (accounted_ext t w)).
    destruct (bufferedSubmissions (sts (installTopology tp w))) as [funcs|];
      [|by injection Ea as <-].
    destruct (negb (isBlankTopology tp)); [|by injection Ea as <-].
    eapply accounted_callBuffered; [exact Ea| |].
    - by apply (hooked_ext (installTopology tp w)).
    - by apply (accounted_ext t (installTopology tp w)). }
  destruct (installServers_fields servers w1) as (_ & Ho & _ & He & _).
  by apply (accounted_ext t w1).
Qed.

Lemma accounted_calls t cs : ∀ w w',
  calls cs w = Some w' → hooked w → accounted t w → accounted t w'.
Proof.
  induction cs as [|c cs IH]; intros w w'; simpl; [by intros [= <-]|].
  destruct (call c w) as [w1|] eqn:Ec; [|done].
  intros Hc Hh Ha. eapply IH; [exact Hc|by eapply hooked_call|].
  destruct c as [txn act k d|ctxn k d|sender t' o|topo servers|m]; simpl in Ec.
  - injection Ec as <-. by apply accounted_SubmitTransaction.
  - destruct (SubmitClientTransaction ctxn k d w) as [[w2 r]|] eqn:Es; [|done].
    injection Ec as <-. by eapply accounted_SubmitClientTransaction.
  - injection Ec as <-. by apply accounted_SubmissionOutcomeReceived.
  - by eapply accounted_TopologyChange.
  - injection Ec as <-. by apply (accounted_ext t w).
Qed.

(** The continuations a run of shutdown hooks calls. *)
Lemma shutdown_hooks_count t l : ∀ w,
  let w' := fold_left (λ w (kf : N * shutdownFun), callShutdownFun kf.2 true w) l w in
  continuations t (effects w') =
    (continuations t (effects w) +
     length (filter (λ kf : N * shutdownFun, sfTxnId kf.2 = t) l))%nat ∧
  submissions t (effects w') = submissions t (effects w).
Proof.
  induction l as [|[k f] l IH]; intros w; cbn [fold_left snd]; cbv zeta.
  - simpl. split; [lia|done].
  - destruct (IH (callShutdownFun f true w)) as [Hc Hs]. rewrite Hc, Hs.
    assert (continuations t (effects (callShutdownFun f true w)) =
              (continuations t (effects w) + if decide (sfTxnId f = t) then 1 else 0)%nat ∧
            submissions t (effects (callShutdownFun f true w)) =
              submissions t (effects w)) as [Hc1 Hs1].
    { unfold callShutdownFun. destruct (sfRetry f); simpl;
        rewrite !submissions_app, !continuations_app;
        unfold submissions at 2 3 4, continuations at 2 3 4;
        rewrite ?submissions_app, ?continuations_app;
        unfold submissions, continuations;
        rewrite !filter_cons, !filter_nil; simpl;
        repeat (destruct (decide _); simplify_eq/=); split; first [lia|congruence]. }
    rewrite Hc1, Hs1, filter_cons. cbn [snd]. split; [|done].
    destruct (decide (sfTxnId f = t)); simpl; lia.
Qed.

(** X23. Every submission is answered exactly once.  After any sequence
    of submissions, arriving outcomes, topology changes and calls of
    EnsurePositions on a submitter, each submission of a transaction has
    either had its continuation called or still has its shutdown hook, so
    that no continuation has been called more often than the transaction
    was submitted; and when [Shutdown] returns, the continuation of every
    transaction has been called exactly as often as the transaction was
    submitted. *)
Theorem continuation_exactly_once w0 cs w t :
  created w0 → calls cs w0 = Some w →
  (continuations t (effects w) + hooksFor t (onShutdown (sts w)))%nat =
    submissions t (effects w) ∧
  continuations t (effects (Shutdown w)) = submissions t (effects w) ∧
  submissions t (effects (Shutdown w)) = submissions t (effects w).
Proof.
  intros Hcr Hcs.
  assert (accounted t w) as Ha.
  { eapply accounted_calls; [exact Hcs|by apply created_hooked|].
    destruct Hcr as [He (r & b & tp & Hs)]. unfold accounted. rewrite He, Hs. simpl.
    unfold hooksFor. by rewrite map_to_list_empty. }
  split; [exact Ha|]. unfold Shutdown.
  destruct (shutdown_hooks_count t (map_to_list (onShutdown (sts w))) w) as [Hc Hsub].
  split; [|exact Hsub]. rewrite Hc. exact Ha.
Qed.

End ExactlyOnce.

(** ** Examples *)

(** Transaction 16, a retry, still awaits its outcome when the submitter
    shuts down: its continuation is told so and the active replicas are
    sent TxnSubmissionAbort; transaction 11 has had its outcome. *)
Lemma Shutdown_ends_every_transaction_witness :
  ∃ w, @calls exampleCollaborators exampleCalls unconnectedWorld = Some w ∧
    outcomeConsumers (sts (@Shutdown exampleCollaborators w)) = ∅ ∧
    ∃ new, effects (@Shutdown exampleCollaborators w) = effects w ++ new ∧
      Continuation 2%N 16%N None ∈ new ∧
      OneShotSender (TxnSubmissionAbort 16%N) [1%N; 2%N] ∈ new.
Proof.
  assert (from_option
            (λ w : @World exampleCollaborators,
               (λ c : @txnOutcomeConsumer exampleCollaborators,
                  (cContinuation c, sfRetry (cShutdownFun c),
                   sfActiveRMs (cShutdownFun c))) <$>
               (outcomeConsumers (sts w) !! 16%N)) None
            (@calls exampleCollaborators exampleCalls unconnectedWorld)
          = Some (2%N, true, [1%N; 2%N])) as Hres by (vm_compute; reflexivity).
  destruct (@calls exampleCollaborators exampleCalls unconnectedWorld) as [w|] eqn:E;
    [|simpl in Hres; discriminate Hres].
  simpl in Hres. exists w. split; [reflexivity|].
  destruct (@Shutdown_ends_every_transaction exampleCollaborators unconnectedWorld
              exampleCalls w) as (Hc & _ & new & He & _ & Hin).
  { split; [reflexivity|]. by exists 9%N, 1%N, threeReplicas. }
  { exact E. }
  split; [exact Hc|]. exists new. split; [exact He|].
  destruct (outcomeConsumers (sts w) !! 16%N) as [c|] eqn:Ec; [|discriminate Hres].
  simpl in Hres. injection Hres as Hk Hr Ha.
  destruct (Hin 16%N c Ec) as [Hcont Hab]. rewrite Hk in Hcont. split; [exact Hcont|].
  rewrite <-Ha. by apply Hab.
Defined.

(** Transaction 16 keeps its id, its retry flag and its two actions. *)
Lemma clientToServerTxn_translates_witness :
  ∃ hc txn act pas,
    @clientToServerTxn exampleCollaborators (sts readyWorld) createTxn =
      Some (hc, inr (txn, act, pas)) ∧
    Id txn = 16%N ∧ Retry txn = true ∧
    Forall2 (@translated) (CActions createTxn) (Actions txn).
Proof.
  destruct (@clientToServerTxn exampleCollaborators (sts readyWorld) createTxn)
    as [[hc [e|[[txn act] pas]]]|] eqn:E; [by vm_compute in E| |by vm_compute in E].
  exists hc, txn, act, pas. split; [reflexivity|].
  destruct (@clientToServerTxn_translates exampleCollaborators _ _ _ _ _ _ E)
    as (Hid & Hr & _ & _ & _ & _ & HF).
  split; [exact Hid|]. split; [exact Hr|exact HF].
Defined.

(** The write of transaction 16 refers to variable 200, which the action
    after it creates: the reference carries positions. *)
Lemma references_carry_positions_witness :
  ∃ hc txn act pas,
    @clientToServerTxn exampleCollaborators (sts readyWorld) createTxn =
      Some (hc, inr (txn, act, pas)) ∧
    ∀ a r, a ∈ Actions txn → r ∈ refsOf (ActBody a) → is_Some (RefPositions r).
Proof.
  destruct (@clientToServerTxn exampleCollaborators (sts readyWorld) createTxn)
    as [[hc [e|[[txn act] pas]]]|] eqn:E; [by vm_compute in E| |by vm_compute in E].
  exists hc, txn, act, pas. split; [reflexivity|]. intros a r Ha Hr.
  destruct (@references_carry_positions exampleCollaborators _ _ _ _ _ _ E a r Ha Hr)
    as (P & HP & _).
  by exists P.
Defined.

(** The two actions of transaction 16 go to the three replicas each. *)
Lemma action_indices_ascending_witness :
  ∃ hc picker acts indices,
    @translateActions exampleCollaborators (sts readyWorld)
      (hashCache (sts readyWorld)) (2%N, None) (CActions createTxn) =
      Some (hc, inr (picker, acts, indices)) ∧
    ∀ r l, indices !! r = Some l → sortInts l = l.
Proof.
  destruct (@translateActions exampleCollaborators (sts readyWorld)
              (hashCache (sts readyWorld)) (2%N, None) (CActions createTxn))
    as [[hc [e|[[picker acts] indices]]]|] eqn:E;
    [by vm_compute in E| |by vm_compute in E].
  exists hc, picker, acts, indices. split; [reflexivity|]. intros r l Hl.
  by destruct (@action_indices_ascending exampleCollaborators _ _ _ _ _ _ _ _ E r l Hl)
    as (_ & _ & ?).
Defined.

Lemma actions_fill_TwoFInc_slots_witness :
  ∃ hc picker acts indices,
    @translateActions exampleCollaborators (sts readyWorld)
      (hashCache (sts readyWorld)) (2%N, None) (CActions createTxn) =
      Some (hc, inr (picker, acts, indices)) ∧
    slots indices = 6%nat.
Proof.
  destruct (@translateActions exampleCollaborators (sts readyWorld)
              (hashCache (sts readyWorld)) (2%N, None) (CActions createTxn))
    as [[hc [e|[[picker acts] indices]]]|] eqn:E;
    [by vm_compute in E| |by vm_compute in E].
  exists hc, picker, acts, indices. split; [reflexivity|].
  exact (@actions_fill_TwoFInc_slots exampleCollaborators _ _ _ _ _ _ _ _ E).
Defined.


(** Told of no connection yet, the submitter cannot write the
    allocation of an active replica. *)
Lemma active_replicas_need_connections_witness :
  @setAllocations exampleCollaborators (sts unconnectedWorld) 0
    {[ 1%N := [0%Z] ]} (NewAllocationList 1) true [1%N] = None.
Proof.
  destruct (@active_replicas_need_connections exampleCollaborators (sts unconnectedWorld))
    as [_ Hpanic].
  apply Hpanic. intros conns Hc. discriminate Hc.
Defined.

(** Transaction 15 refers to a variable nobody knows: the call returns
    an error and leaves no trace. *)
Lemma SubmitClientTransaction_outcome_witness :
  ∃ w' err,
    @SubmitClientTransaction exampleCollaborators danglingTxn 3%N 0%N readyWorld =
      Some (w', Some err) ∧
    effects w' = effects readyWorld ∧
    outcomeConsumers (sts w') = outcomeConsumers (sts readyWorld).
Proof.
  assert (from_option (λ r, bool_decide (is_Some r.2)) false
            (@SubmitClientTransaction exampleCollaborators danglingTxn 3%N 0%N readyWorld)
          = true) as Hres by (vm_compute; reflexivity).
  destruct (@SubmitClientTransaction exampleCollaborators danglingTxn 3%N 0%N readyWorld)
    as [[w' [err|]]|] eqn:E; [|simpl in Hres; discriminate Hres..].
  exists w', err. split; [reflexivity|].
  pose proof (@SubmitClientTransaction_outcome exampleCollaborators danglingTxn 3%N 0%N
                readyWorld w' (Some err) eq_refl E) as (He & Hc & _).
  split; [exact He|exact Hc].
Defined.

(** Told of the connections to replicas 1, 2 and 3 only, a submitter
    that knows the three replicas disables none of them. *)
Lemma TopologyChange_connections_witness :
  ∃ w', @TopologyChange exampleCollaborators None (Some exampleServers)
          unconnectedWorld = Some w' ∧
        connections (sts w') = Some exampleServers ∧
        ∀ r, r ∈ disabledHashCodes (sts w') ↔
             r ∈ AllRMs (topology (sts w')) ∧ exampleServers !! r = None.
Proof.
  assert (from_option (λ _, true) false
            (@TopologyChange exampleCollaborators None (Some exampleServers)
               unconnectedWorld) = true) as Hres by (vm_compute; reflexivity).
  destruct (@TopologyChange exampleCollaborators None (Some exampleServers)
              unconnectedWorld) as [w'|] eqn:E; [|simpl in Hres; discriminate Hres].
  exists w'. split; [reflexivity|].
  destruct (@TopologyChange_connections exampleCollaborators None unconnectedWorld)
    as [Hs _].
  destruct (Hs exampleServers w' E) as (Hc & _ & Hd). split; [exact Hc|exact Hd].
Defined.

(** Transactions 11 and 16 were each submitted once; by the time the
    submitter has shut down each continuation has been called once. *)
Lemma continuation_exactly_once_witness :
  ∃ w, @calls exampleCollaborators exampleCalls unconnectedWorld = Some w ∧
    continuations 11%N (effects (@Shutdown exampleCollaborators w)) = 1%nat ∧
    continuations 16%N (effects (@Shutdown exampleCollaborators w)) = 1%nat.
Proof.
  assert (from_option
            (λ w : @World exampleCollaborators,
               (submissions 11%N (effects w), submissions 16%N (effects w))) (0, 0)%nat
            (@calls exampleCollaborators exampleCalls unconnectedWorld)
          = (1, 1)%nat) as Hres by (vm_compute; reflexivity).
  destruct (@calls exampleCollaborators exampleCalls unconnectedWorld) as [w|] eqn:E;
    [|simpl in Hres; discriminate Hres].
  simpl in Hres. injection Hres as H11 H16. exists w. split; [reflexivity|].
  assert (@created exampleCollaborators unconnectedWorld) as Hcr.
  { split; [reflexivity|]. by exists 9%N, 1%N, threeReplicas. }
  destruct (@continuation_exactly_once exampleCollaborators unconnectedWorld
              exampleCalls w 11%N Hcr E) as (_ & H1 & _).
  destruct (@continuation_exactly_once exampleCollaborators unconnectedWorld
              exampleCalls w 16%N Hcr E) as (_ & H2 & _).
  split; congruence.
Defined.

(** Two transactions are buffered under the blank topology; once the
    three replicas are known nothing is buffered. *)
Lemma nothing_buffered_under_topology_witness :
  ∃ w, @calls exampleCollaborators
         [ CallTopologyChange None (Some exampleServers);
           CallSubmitClientTransaction (writeTxn 11%N 100%N) 1%N 0%N;
           CallSubmitClientTransaction (writeTxn 12%N 101%N) 2%N 0%N;
           CallTopologyChange (Some threeReplicas) None ]
         {| sts := @NewSimpleTxnSubmitter exampleCollaborators 9%N 1%N blankTopology;
            nextAddr := 0%N; effects := [] |} = Some w ∧
       bufferedSubmissions (sts w) = None ∧
       map sentId (effects w) = [Some 11%N; Some 12%N].
Proof.
  assert (from_option
            (λ w : @World exampleCollaborators,
               Some (@isBlankTopology exampleCollaborators (topology (sts w)),
                     map sentId (effects w))) None
            (@calls exampleCollaborators
               [ CallTopologyChange None (Some exampleServers);
                 CallSubmitClientTransaction (writeTxn 11%N 100%N) 1%N 0%N;
                 CallSubmitClientTransaction (writeTxn 12%N 101%N) 2%N 0%N;
                 CallTopologyChange (Some threeReplicas) None ]
               {| sts := @NewSimpleTxnSubmitter exampleCollaborators 9%N 1%N blankTopology;
                  nextAddr := 0%N; effects := [] |})
          = Some (false, [Some 11%N; Some 12%N])) as Hres by (vm_compute; reflexivity).
  destruct (@calls exampleCollaborators _ _) as [w|] eqn:E;
    [|simpl in Hres; discriminate Hres].
  simpl in Hres. injection Hres as Hb Hsent. exists w. split; [reflexivity|].
  split; [|exact Hsent].
  apply (@nothing_buffered_under_topology exampleCollaborators _ _ w) in E;
    [exact E| |exact Hb].
  split; [reflexivity|]. by exists 9%N, 1%N, blankTopology.
Defined.

End SubmitterCallProofs.
